(** * db2lake: pipeline orchestrator, source paginators and batched writers

    A shallow embedding of the TypeScript sources of db2lake:
    - [packages/core/src/pipeline.ts]        (module [Pipeline])
    - the MySQL / Postgres / Oracle / Firestore source drivers
      (module [Paginator])
    - the Snowflake destination driver       (module [Snowflake])
    - the Databricks destination driver      (module [Databricks])

    The definitions come first; their properties follow in
    [PipelineFacts], [PaginatorFacts], [DatabricksFacts], [SnowflakeFacts]
    and [WriterFacts].

    Asynchronous methods are modelled in a state-and-exception monad: an
    [await]ed call is a monadic bind, [throw] / [try]-[catch] / [finally] are
    the combinators of module [Js].  External collaborators (database
    back ends, the clock) are deterministic oracles over the history of the
    calls made so far, so that a back end may fail on its n-th call, after a
    given statement, and so on. *)

From Stdlib Require Import ZArith List String Bool Lia.
From stdpp Require Import base list.
Import ListNotations.
Local Open Scope string_scope.
Local Open Scope list_scope.
Local Open Scope Z_scope.

(* ===================================================================== *)
(** * JavaScript values and control flow *)
(* ===================================================================== *)

Module Js.

(** The primitive values a row field or a bind parameter can hold. *)
Inductive Value : Type :=
| VUndefined
| VNull
| VBool (b : bool)
| VNum (z : Z)
| VStr (s : string).

(** A row is an object with ordered own keys. *)
Definition Row : Type := list (string * Value).

(** An [Error] is represented by its message. *)
Definition Error : Type := string.

(** [row[field]]: [undefined] when the key is absent. *)
Fixpoint get_field (r : Row) (field : string) : Value :=
  match r with
  | [] => VUndefined
  | (k, v) :: r' => if String.eqb k field then v else get_field r' field
  end.

(** [Object.keys(row)] *)
Definition keys (r : Row) : list string := map fst r.

(** [v !== undefined] *)
Definition is_defined (v : Value) : bool :=
  match v with VUndefined => false | _ => true end.

(** Truthiness of an optional string ([undefined] and [""] are falsy). *)
Definition truthy_string (s : option string) : bool :=
  match s with
  | Some s' => negb (String.eqb s' "")
  | None => false
  end.

(** [n || d] on an integer-valued number: [0] is falsy. *)
Definition or_default (n d : Z) : Z := if n =? 0 then d else n.

(** [o ?? d]: only [undefined] / [null] take the default. *)
Definition nullish {A} (o : option A) (d : A) : A :=
  match o with Some a => a | None => d end.

(** [a.slice(start, end)] for integer arguments: negative indices count
    from the end, and both are clamped to [0 .. a.length]. *)
Definition slice {A} (a : list A) (start end_ : Z) : list A :=
  let len := Z.of_nat (length a) in
  let rel := fun i => if i <? 0 then Z.max (len + i) 0 else Z.min i len in
  let s := rel start in
  let e := rel end_ in
  take (Z.to_nat (e - s)) (drop (Z.to_nat s) a).

(** [a[i] = v] on an array, for an integer-valued [i].  Inside the array
    the element is replaced; past the end the array grows, the hole being
    read back as [undefined]; a negative [i] creates a named property and
    leaves the elements alone. *)
Definition array_set (a : list Value) (i : Z) (v : Value) : list Value :=
  if i <? 0 then a
  else
    let n := Z.to_nat i in
    if (n <? length a)%nat then <[n := v]> a
    else a ++ replicate (n - length a) VUndefined ++ [v].

(** [a[a.length - 1]]: [undefined] on the empty array. *)
Definition last_item {A} (a : list A) : option A := last a.

(** The engine the code runs on, as far as the drivers depend on it: how
    many arguments one call can take, and the messages of the errors the
    engine throws itself - the [RangeError] of a call with more arguments
    than that, and the [TypeError] of reading a property of [null]. *)
Record Engine : Type := {
  max_arguments : Z;
  stack_overflow : Error;
  null_read : string -> Error
}.

(** Whether [f(...a)] can pass the elements of [a] as arguments. *)
Definition fits {A} (engine : Engine) (a : list A) : bool :=
  Z.of_nat (length a) <=? max_arguments engine.

(** How a call completes.  [Hang] stands for a JavaScript loop that never
    ends; the embedding reaches it when a loop runs out of fuel. *)
Inductive Completion (A : Type) : Type :=
| Return (a : A)
| Throw (e : Error)
| Hang.
Arguments Return {A} a.
Arguments Throw {A} e.
Arguments Hang {A}.

(** State-and-exception monad over the state [St] of the object whose method
    runs (its fields plus the world it talks to). *)
Definition M (St A : Type) : Type := St -> St * Completion A.

Definition ret {St A} (a : A) : M St A := fun s => (s, Return a).

Definition bind {St A B} (m : M St A) (k : A -> M St B) : M St B :=
  fun s =>
    match m s with
    | (s', Return a) => k a s'
    | (s', Throw e) => (s', Throw e)
    | (s', Hang) => (s', Hang)
    end.

Definition throw {St A} (e : Error) : M St A := fun s => (s, Throw e).

Definition hang {St A} : M St A := fun s => (s, Hang).

Definition get {St} : M St St := fun s => (s, Return s).

Definition modify {St} (f : St -> St) : M St unit :=
  fun s => (f s, Return tt).

(** [try { m } catch (e) { h e }] *)
Definition try_catch {St A} (m : M St A) (h : Error -> M St A) : M St A :=
  fun s =>
    match m s with
    | (s', Throw e) => h e s'
    | r => r
    end.

(** [try { m } finally { f }]: [f] runs on return and on throw; when [f]
    itself throws, its error replaces the completion of [m]. *)
Definition try_finally {St A} (m : M St A) (f : M St unit) : M St A :=
  fun s =>
    match m s with
    | (s', Hang) => (s', Hang)
    | (s', r) =>
        match f s' with
        | (s'', Return _) => (s'', r)
        | (s'', Throw e) => (s'', Throw e)
        | (s'', Hang) => (s'', Hang)
        end
    end.

(** [if (c) { m }] *)
Definition when {St} (c : bool) (m : M St unit) : M St unit :=
  if c then m else ret tt.

(** Lift the result of an external call. *)
Definition of_result {St} (r : option Error) : M St unit :=
  match r with
  | None => ret tt
  | Some e => throw e
  end.

(** The arguments of [f(...a)] are laid out before [f] is entered: with
    too many of them the call throws and [f] does not run. *)
Definition spread {St A} (engine : Engine) (a : list A) : M St unit :=
  if fits engine a then ret tt else throw (stack_overflow engine).

End Js.

Import Js.

Declare Scope js_scope.
Delimit Scope js_scope with js.
Notation "'let!' x ':=' m 'in' k" := (bind m (fun x => k))
  (at level 10, x name, m at level 100, k at level 200) : js_scope.
Notation "'do!' m 'in' k" := (bind m (fun _ => k))
  (at level 10, m at level 100, k at level 200) : js_scope.
Local Open Scope js_scope.

(* ===================================================================== *)
(** * The pipeline orchestrator ([packages/core/src/pipeline.ts]) *)
(* ===================================================================== *)

Module Pipeline.

Inductive LogLevel : Type := LError | LInfo | LDebug.

(** The sequence an async generator produces: it yields batches and then
    finishes or throws. *)
Inductive Gen (Item : Type) : Type :=
| GDone
| GThrow (e : Error)
| GYield (batch : list Item) (rest : Gen Item).
Arguments GDone {Item}.
Arguments GThrow {Item} e.
Arguments GYield {Item} batch rest.

Section Defs.
Context {Item S D : Type}.

(** [PipelineCursor]; [lastItem] is [batch[batch.length - 1]], which is
    [undefined] ([None]) for an empty batch. *)
Record PipelineCursor : Type := {
  position : Z;
  lastItem : option Item;
  timestamp : string
}.

(** The private fields of [IPipeline]. *)
Record Fields : Type := {
  connected : bool;
  batchCount : Z;
  totalRows : Z;
  currentCursor : option PipelineCursor
}.

(** [ISourceDriver] and [IDestinationDriver]: each driver is a state
    machine over its own state. *)
Record ISourceDriver : Type := {
  source_connect : S -> S * option Error;
  source_fetch : S -> Gen Item;
  source_close : S -> S * option Error
}.

Record IDestinationDriver : Type := {
  destination_connect : D -> D * option Error;
  destination_insert : D -> list Item -> D * option Error;
  destination_close : D -> D * option Error
}.

(** The text of a log message and the payload logged with it. *)
Inductive Message : Type :=
| EstablishingConnections
| ConnectionsEstablished
| FailedToEstablishConnections
| StartingDataProcessing
| ProcessedBatch (n : Z)
| FailedToProcessBatch (n : Z)
| DataProcessingCompleted
| DataProcessingFailed
| CleaningUpResources
| FailedToCloseSource
| FailedToCloseDestination
| CleanupCompleted
| CleanupFailed.

Inductive LogData : Type :=
| NoData
| ErrorData (error : Error)
| BatchData (batchSize totalRows_ : Z) (cursor : option PipelineCursor)
| BatchErrorData (error : Error) (batchSize : Z)
    (cursor : option PipelineCursor)
| CompletedData (totalBatches totalRows_ : Z)
    (finalCursor : option PipelineCursor)
| FailedData (error : Error) (lastCursor : option PipelineCursor).

(** The calls the pipeline makes on its collaborators, in order. *)
Inductive Call : Type :=
| SourceConnect
| DestinationConnect
| DestinationInsert (batch : list Item)
| SourceClose
| DestinationClose
| Logger (level : LogLevel) (message : Message) (data : LogData).

Record St : Type := {
  this : Fields;
  source_state : S;
  destination_state : D;
  calls : list Call;
  clock_reads : nat
}.

Definition with_this (f : Fields -> Fields) (s : St) : St :=
  {| this := f (this s); source_state := source_state s;
     destination_state := destination_state s; calls := calls s;
     clock_reads := clock_reads s |}.

Definition record_call (c : Call) (s : St) : St :=
  {| this := this s; source_state := source_state s;
     destination_state := destination_state s; calls := calls s ++ [c];
     clock_reads := clock_reads s |}.

Variable source : ISourceDriver.
Variable destination : IDestinationDriver.
(** [transformer?: ITransformer]; a transformer may throw. *)
Variable transformer : option (list Item -> Completion (list Item)).
(** [logger?: ILogger]: whether one was supplied.  A supplied logger
    records its arguments and returns. *)
Variable logger : bool.
(** The clock behind [new Date().toISOString()], by number of reads. *)
Variable clock : nat -> string.

(** The state of a freshly constructed pipeline. *)
Definition new_fields : Fields :=
  {| connected := false; batchCount := 0; totalRows := 0;
     currentCursor := None |}.

Definition new_pipeline (s0 : S) (d0 : D) : St :=
  {| this := new_fields; source_state := s0; destination_state := d0;
     calls := []; clock_reads := 0 |}.

(** [this.log(level, message, data)] *)
Definition log (level : LogLevel) (message : Message) (data : LogData)
  : M St unit :=
  when logger (modify (record_call (Logger level message data))).

(** [await this.source.connect()] and its siblings. *)
Definition await_source (c : Call) (f : S -> S * option Error)
  : M St unit :=
  fun s =>
    let '(s', r) := f (source_state s) in
    of_result r
      {| this := this s; source_state := s';
         destination_state := destination_state s;
         calls := calls s ++ [c]; clock_reads := clock_reads s |}.

Definition await_destination (c : Call) (f : D -> D * option Error)
  : M St unit :=
  fun s =>
    let '(d', r) := f (destination_state s) in
    of_result r
      {| this := this s; source_state := source_state s;
         destination_state := d';
         calls := calls s ++ [c]; clock_reads := clock_reads s |}.

(** [new Date().toISOString()] *)
Definition now : M St string :=
  fun s =>
    ({| this := this s; source_state := source_state s;
        destination_state := destination_state s; calls := calls s;
        clock_reads := Datatypes.S (clock_reads s) |},
     Return (clock (clock_reads s))).

(** [cleanup()] *)
Definition cleanup : M St unit :=
  try_catch
    (do! log LInfo CleaningUpResources NoData in
     do! try_catch
           (await_source SourceClose (source_close source))
           (fun error => log LError FailedToCloseSource (ErrorData error)) in
     do! try_catch
           (await_destination DestinationClose
              (destination_close destination))
           (fun error =>
              log LError FailedToCloseDestination (ErrorData error)) in
     do! modify (with_this (fun t =>
           {| connected := false; batchCount := batchCount t;
              totalRows := totalRows t;
              currentCursor := currentCursor t |})) in
     log LInfo CleanupCompleted NoData)
    (fun error =>
       do! log LError CleanupFailed (ErrorData error) in
       throw error).

(** [connect()] *)
Definition connect : M St unit :=
  let! s := get in
  if connected (this s) then ret tt
  else
    try_catch
      (do! log LInfo EstablishingConnections NoData in
       do! await_source SourceConnect (source_connect source) in
       do! await_destination DestinationConnect
             (destination_connect destination) in
       do! modify (with_this (fun t =>
             {| connected := true; batchCount := batchCount t;
                totalRows := totalRows t;
                currentCursor := currentCursor t |})) in
       log LInfo ConnectionsEstablished NoData)
      (fun error =>
         do! log LError FailedToEstablishConnections (ErrorData error) in
         do! cleanup in
         throw error).

(** [for await (const batch of gen) { body }] *)
Fixpoint for_await (gen : Gen Item) (body : list Item -> M St unit)
  : M St unit :=
  match gen with
  | GDone => ret tt
  | GThrow e => throw e
  | GYield batch rest => do! body batch in for_await rest body
  end.

(** [this.transformer ? this.transformer(batch) : batch] *)
Definition transformed (batch : list Item) : Completion (list Item) :=
  match transformer with
  | Some f => f batch
  | None => Return batch
  end.

Definition transform (batch : list Item) : M St (list Item) :=
  fun s => (s, transformed batch).

(** The body of the loop of [process()], for one batch. *)
Definition process_batch (batch : list Item) : M St unit :=
  try_catch
    (let! transformedBatch := transform batch in
     do! await_destination (DestinationInsert transformedBatch)
           (fun d => destination_insert destination d transformedBatch) in
     do! modify (with_this (fun t =>
           {| connected := connected t; batchCount := batchCount t + 1;
              totalRows := totalRows t;
              currentCursor := currentCursor t |})) in
     do! modify (with_this (fun t =>
           {| connected := connected t; batchCount := batchCount t;
              totalRows := totalRows t + Z.of_nat (length batch);
              currentCursor := currentCursor t |})) in
     let! stamp := now in
     do! modify (with_this (fun t =>
           {| connected := connected t; batchCount := batchCount t;
              totalRows := totalRows t;
              currentCursor :=
                Some {| position := totalRows t;
                        lastItem := last_item batch;
                        timestamp := stamp |} |})) in
     let! s := get in
     log LDebug (ProcessedBatch (batchCount (this s)))
       (BatchData (Z.of_nat (length batch)) (totalRows (this s))
          (currentCursor (this s))))
    (fun error =>
       let! s := get in
       do! log LError (FailedToProcessBatch (batchCount (this s)))
             (BatchErrorData error (Z.of_nat (length batch))
                (currentCursor (this s))) in
       throw error).

(** [process()] *)
Definition process : M St unit :=
  try_catch
    (do! log LInfo StartingDataProcessing NoData in
     let! s0 := get in
     do! for_await (source_fetch source (source_state s0))
           process_batch in
     let! s := get in
     log LInfo DataProcessingCompleted
       (CompletedData (batchCount (this s)) (totalRows (this s))
          (currentCursor (this s))))
    (fun error =>
       let! s := get in
       do! log LError DataProcessingFailed
             (FailedData error (currentCursor (this s))) in
       throw error).

(** [run()] *)
Definition run : M St unit :=
  do! connect in
  try_finally process cleanup.

(** [getMetrics()] *)
Record Metrics : Type := {
  m_batchCount : Z;
  m_totalRows : Z;
  m_cursor : option PipelineCursor
}.

Definition getMetrics (s : St) : Metrics :=
  {| m_batchCount := batchCount (this s);
     m_totalRows := totalRows (this s);
     m_cursor := currentCursor (this s) |}.

(** The batches a generator yields before it finishes or throws. *)
Fixpoint yielded (gen : Gen Item) : list (list Item) :=
  match gen with
  | GDone | GThrow _ => []
  | GYield batch rest => batch :: yielded rest
  end.

(** Whether a generator runs to its end without throwing. *)
Fixpoint terminates (gen : Gen Item) : bool :=
  match gen with
  | GDone => true
  | GThrow _ => false
  | GYield _ rest => terminates rest
  end.

(** The number of rows in a list of batches. *)
Definition rows_in (batches : list (list Item)) : Z :=
  foldr (fun batch n => Z.of_nat (length batch) + n) 0 batches.

(** The generator that yields [batches] and then goes on as [tail]. *)
Definition yield_then (batches : list (list Item)) (tail : Gen Item)
  : Gen Item :=
  foldr GYield tail batches.

(** The sequence [run()] iterates on a pipeline built over the source
    state [s0]: [fetch()] is called once [connect()] has gone through. *)
Definition fetched (s0 : S) : Gen Item :=
  source_fetch source (fst (source_connect source s0)).

(** The batches handed to [destination.insert], in call order. *)
Definition inserted (cs : list Call) : list (list Item) :=
  omap (fun c => match c with
                 | DestinationInsert b => Some b
                 | _ => None
                 end) cs.

End Defs.

Arguments PipelineCursor : clear implicits.
Arguments Fields : clear implicits.
Arguments ISourceDriver : clear implicits.
Arguments IDestinationDriver : clear implicits.
Arguments Call : clear implicits.
Arguments St : clear implicits.
Arguments Metrics : clear implicits.
Arguments LogData : clear implicits.

End Pipeline.

(* ===================================================================== *)
(** * The source paginators *)
(* ===================================================================== *)

(** The [fetch()] generators of [MySQLSourceDriver], [PostgresSourceDriver]
    and [OracleSourceDriver] share one loop, statement for statement; they
    differ in how the connection is obtained.  [FirestoreSourceDriver] pages
    with document snapshots.

    An array is a mutable object: arrays live in a heap and are named by
    their location, so that [config.params] and the local [params] of
    [fetch()] are distinct objects.  A generator is run to its end by a
    consumer that takes every batch; the batches are collected in [yields]. *)

Module Paginator.

(** The query specification of [BaseDataSourceConfig].  [params] is the
    location of the array when [Array.isArray] holds of it. *)
Record Config : Type := {
  query : string;
  params : option nat;
  cursorField : option string;
  cursorParamsIndex : option Z;
  poolAttributes : bool
}.

(** What [connection.execute(query, params)] gives back: a result with
    rows, a result whose rows are missing, or a rejection. *)
Inductive QueryResult : Type :=
| Rows (rows : list Row)
| NoRows
| QueryError (e : Error).

(** One query execution: the text and the parameter values bound. *)
Definition Execution : Type := (string * list Value)%type.

(** The database: whether a connection can be opened, and the answer to
    a query given the executions before it. *)
Record Backend : Type := {
  open_connection : option Error;
  execute : list Execution -> string -> list Value -> QueryResult
}.

Record St : Type := {
  heap : list (list Value);
  pool : bool;
  connection : bool;
  executions : list Execution;
  yields : list (list Row)
}.

Definition new_driver (h : list (list Value)) : St :=
  {| heap := h; pool := false; connection := false; executions := [];
     yields := [] |}.

Section Defs.
Variable config : Config.
Variable backend : Backend.

(** [[...a]] / [[]]: a fresh array. *)
Definition alloc (a : list Value) : M St nat :=
  fun s =>
    ({| heap := heap s ++ [a]; pool := pool s;
        connection := connection s; executions := executions s;
        yields := yields s |},
     Return (length (heap s))).

(** [a[i] = v] on the array at location [l]. *)
Definition store (l : nat) (i : Z) (v : Value) : M St unit :=
  modify (fun s =>
    {| heap := match heap s !! l with
               | Some a => <[l := array_set a i v]> (heap s)
               | None => heap s
               end;
       pool := pool s; connection := connection s;
       executions := executions s; yields := yields s |}).

Definition set_connection (p c : bool) : M St unit :=
  modify (fun s =>
    {| heap := heap s; pool := p; connection := c;
       executions := executions s; yields := yields s |}).

(** [await connection.execute(query, params)]: the values bound are
    those the array holds at the time of the call. *)
Definition await_execute (l : nat) : M St (option (list Row)) :=
  fun s =>
    let bound := default [] (heap s !! l) in
    let s' := {| heap := heap s; pool := pool s;
                 connection := connection s;
                 executions := executions s ++ [(query config, bound)];
                 yields := yields s |} in
    match execute backend (executions s) (query config) bound with
    | Rows rows => (s', Return (Some rows))
    | NoRows => (s', Return None)
    | QueryError e => (s', Throw e)
    end.

(** [yield rows] *)
Definition yield (rows : list Row) : M St unit :=
  modify (fun s =>
    {| heap := heap s; pool := pool s; connection := connection s;
       executions := executions s; yields := yields s ++ [rows] |}).

(** The [while (hasMore)] loop; [l] is the local [params]. *)
Fixpoint fetch_loop (fuel : nat) (l : nat) (cursorValue : Value)
  : M St unit :=
  match fuel with
  | O => hang
  | Datatypes.S fuel' =>
      do! match cursorParamsIndex config with
          | Some i =>
              when (truthy_string (cursorField config)
                    && is_defined cursorValue)
                (store l i cursorValue)
          | None => ret tt
          end in
      let! result := await_execute l in
      match result with
      | None | Some [] => ret tt
      | Some rows =>
          do! yield rows in
          if truthy_string (cursorField config) then
            match last rows with
            | Some lastRow =>
                let v := get_field lastRow
                           (nullish (cursorField config) "") in
                if is_defined v then fetch_loop fuel' l v
                else ret tt
            | None => ret tt
            end
          else ret tt
      end
  end.

(** From [let cursorValue = undefined] to the end of the loop. *)
Definition paginate (fuel : nat) : M St unit :=
  let! s := get in
  let! l := alloc (match params config with
                   | Some p => default [] (heap s !! p)
                   | None => []
                   end) in
  fetch_loop fuel l VUndefined.

(** [MySQLSourceDriver] *)
Definition mysql_connect : M St unit :=
  do! of_result (open_connection backend) in
  let! s := get in
  set_connection (pool s) true.

Definition mysql_fetch (fuel : nat) : M St unit :=
  let! s := get in
  do! when (negb (connection s)) mysql_connect in
  paginate fuel.

(** [PostgresSourceDriver]; [connection] is its [client]. *)
Definition postgres_connect : M St unit :=
  let! s := get in
  when (negb (connection s))
    (do! of_result (open_connection backend) in
     set_connection true true).

Definition postgres_fetch (fuel : nat) : M St unit :=
  let! s := get in
  do! when (negb (connection s)) postgres_connect in
  let! s' := get in
  if negb (connection s') then
    throw "Database client is not initialized"
  else paginate fuel.

(** [OracleSourceDriver] *)
Definition oracle_connect : M St unit :=
  if negb (poolAttributes config) then
    throw "Missing pool attributes for Oracle"
  else
    let! s := get in
    do! when (negb (pool s)) (set_connection true (connection s)) in
    let! s' := get in
    when (negb (connection s'))
      (do! of_result (open_connection backend) in
       set_connection (pool s') true).

Definition oracle_fetch (fuel : nat) : M St unit :=
  let! s := get in
  do! when (negb (connection s)) oracle_connect in
  paginate fuel.

End Defs.

(** ** Firestore *)

Record Doc : Type := { doc_id : string; doc_data : Row }.

(** The query object: the collection, filters, ordering and start / end
    bounds come from the configuration and stay fixed; paging changes the
    [startAfter] snapshot only. *)
Record FsQuery : Type := { q_limit : Z; q_startAfter : option Doc }.

Inductive Snapshot : Type :=
| Docs (docs : list Doc)
| NoDocs
| GetError (e : Error).

Record FsBackend : Type := {
  fs_get : list FsQuery -> FsQuery -> Snapshot
}.

Record FsSt : Type := {
  db : bool;
  lastDocumentSnapshot : option Doc;
  gets : list FsQuery;
  fs_yields : list (list Row)
}.

Definition new_firestore : FsSt :=
  {| db := false; lastDocumentSnapshot := None; gets := [];
     fs_yields := [] |}.

(** [{ ...target, key: v }] on an object that may already hold [key]. *)
Fixpoint set_field (r : Row) (key : string) (v : Value) : Row :=
  match r with
  | [] => [(key, v)]
  | (k, w) :: r' =>
      if String.eqb k key then (k, v) :: r'
      else (k, w) :: set_field r' key v
  end.

(** [{ id: doc.id, ...doc.data() }] *)
Definition plain_object (doc : Doc) : Row :=
  fold_left (fun r kv => set_field r (fst kv) (snd kv)) (doc_data doc)
    [("id", VStr (doc_id doc))].

Section Firestore.
Variable limit : option Z.
Variable backend : FsBackend.

Definition fs_await_get (q : FsQuery) : M FsSt (option (list Doc)) :=
  fun s =>
    let s' := {| db := db s;
                 lastDocumentSnapshot := lastDocumentSnapshot s;
                 gets := gets s ++ [q]; fs_yields := fs_yields s |} in
    match fs_get backend (gets s) q with
    | Docs docs => (s', Return (Some docs))
    | NoDocs => (s', Return None)
    | GetError e => (s', Throw e)
    end.

Fixpoint firestore_loop (fuel : nat) (batchSize : Z) (q : FsQuery)
  : M FsSt unit :=
  match fuel with
  | O => hang
  | Datatypes.S fuel' =>
      let! snapshot := fs_await_get q in
      match snapshot with
      | None | Some [] => ret tt
      | Some docs =>
          let batch := map plain_object docs in
          do! modify (fun s =>
                {| db := db s; lastDocumentSnapshot := last docs;
                   gets := gets s; fs_yields := fs_yields s |}) in
          do! modify (fun s =>
                {| db := db s;
                   lastDocumentSnapshot := lastDocumentSnapshot s;
                   gets := gets s;
                   fs_yields := fs_yields s ++ [batch] |}) in
          if Z.of_nat (length docs) =? batchSize then
            firestore_loop fuel' batchSize
              {| q_limit := q_limit q; q_startAfter := last docs |}
          else ret tt
      end
  end.

Definition firestore_fetch (fuel : nat) : M FsSt unit :=
  do! modify (fun s =>
        {| db := true; lastDocumentSnapshot := lastDocumentSnapshot s;
           gets := gets s; fs_yields := fs_yields s |}) in
  let batchSize := or_default (nullish limit 0) 100 in
  firestore_loop fuel batchSize
    {| q_limit := batchSize; q_startAfter := None |}.

End Firestore.

End Paginator.

(* ===================================================================== *)
(** * SQL back ends of the destination drivers *)
(* ===================================================================== *)

Module Sql.

(** The statements the writers issue.  The SQL text is reduced to the kind
    of statement and the rows or values it carries. *)
Inductive Stmt : Type :=
| Begin
| StartTransaction
| Commit
| Rollback
| SetStatementTimeout (seconds : Z)
| InsertRow (columns : list string) (values : list Value)
| InsertRows (rows : list Row)
| UseDatabase
| CreateTable
| ShowTables.

(** What a driver does to the outside world.  [WriteGroup] marks the rows
    of one sub-batch whose statements are dispatched together. *)
Inductive Event : Type :=
| Exec (stmt : Stmt)
| WriteGroup (rows : list Row)
| Sleep (ms : Z)
| ConsoleError
| OpenConnection
| CloseConnection
| CloseClient.

(** The back end decides each call from the history before it. *)
Record Backend : Type := {
  respond : list Event -> Event -> option Error;
  table_exists : bool
}.

(** The row groups sent to the back end: the sub-batches of a writer that
    issues one statement per row, and the payloads of multi-row inserts. *)
Definition write_groups (evs : list Event) : list (list Row) :=
  omap (fun ev => match ev with
                  | WriteGroup rows => Some rows
                  | Exec (InsertRows rows) => Some rows
                  | _ => None
                  end) evs.

Definition is_exec (stmt : Stmt) (ev : Event) : bool :=
  match ev, stmt with
  | Exec Begin, Begin | Exec StartTransaction, StartTransaction
  | Exec Commit, Commit | Exec Rollback, Rollback => true
  | _, _ => false
  end.

(** How many times a transaction-control statement was issued. *)
Definition count_exec (stmt : Stmt) (evs : list Event) : nat :=
  length (List.filter (is_exec stmt) evs).

(** The number of multi-row [INSERT] statements issued. *)
Definition count_inserts (evs : list Event) : nat :=
  length (omap (fun ev => match ev with
                          | Exec (InsertRows rows) => Some rows
                          | _ => None
                          end) evs).

End Sql.

Import Sql.

(* ===================================================================== *)
(** * The Snowflake destination driver *)
(* ===================================================================== *)

Module Snowflake.

Record BatchConfig : Type := {
  size : option Z;
  maxRetries : option Z;
  retryDelay : option Z
}.

Record TransactionConfig : Type := {
  enabled : bool;
  queryTimeout : option Z;
  maxParallelStatements : option Z
}.

Record Config : Type := {
  batch : option BatchConfig;
  transaction : option TransactionConfig
}.

Record St : Type := {
  connection : bool;
  events : list Event
}.

Section Defs.
Variable config : Config.
Variable backend : Backend.

(** [this.config.transaction?.enabled] *)
Definition transaction_enabled : bool :=
  match transaction config with
  | Some t => enabled t
  | None => false
  end.

(** [this.config.transaction?.queryTimeout], when truthy. *)
Definition query_timeout : option Z :=
  match transaction config with
  | Some t =>
      match queryTimeout t with
      | Some q => if q =? 0 then None else Some q
      | None => None
      end
  | None => None
  end.

Definition record_event (ev : Event) : M St unit :=
  modify (fun s =>
    {| connection := connection s; events := events s ++ [ev] |}).

(** [this.executeQuery(query, binds)]: the call is made and a promise
    comes back, here already settled ([None] when it resolves). *)
Definition executeQuery (stmt : Stmt) : M St (option Error) :=
  fun s =>
    if negb (connection s) then
      (s, Throw "Not connected to Snowflake. Call connect() first.")
    else
      ({| connection := connection s;
          events := events s ++ [Exec stmt] |},
       Return
         (match respond backend (events s) (Exec stmt) with
          | Some e => Some ("Query execution failed: " ++ e)%string
          | None => None
          end)).

(** [await this.executeQuery(...)] *)
Definition await_query (stmt : Stmt) : M St unit :=
  let! promise := executeQuery stmt in
  of_result promise.

(** [batch.map(row => this.executeQuery(query, values))] *)
Fixpoint dispatch (columns : list string) (batch : list Row)
  : M St (list (option Error)) :=
  match batch with
  | [] => ret []
  | row :: batch' =>
      let values := map (get_field row) columns in
      let! promise := executeQuery (InsertRow columns values) in
      let! promises := dispatch columns batch' in
      ret (promise :: promises)
  end.

(** [await Promise.all(promises)]: rejects with a rejection among them,
    taken here to be the first in array order. *)
Definition await_all (promises : list (option Error)) : M St unit :=
  match omap id promises with
  | e :: _ => throw e
  | [] => ret tt
  end.

(** [for (let j = 0; j < batchPromises.length; j += maxParallel)] *)
Fixpoint await_groups (fuel : nat) (batchPromises : list (option Error))
    (maxParallel j : Z) : M St unit :=
  match fuel with
  | O => hang
  | Datatypes.S fuel' =>
      if j <? Z.of_nat (length batchPromises) then
        do! await_all (slice batchPromises j (j + maxParallel)) in
        await_groups fuel' batchPromises maxParallel (j + maxParallel)
      else ret tt
  end.

(** [for (let i = 0; i < rows.length; i += batchSize)] *)
Fixpoint for_batches (fuel : nat) (rows : list Row)
    (columns : list string) (batchSize maxParallel i : Z) : M St unit :=
  match fuel with
  | O => hang
  | Datatypes.S fuel' =>
      if i <? Z.of_nat (length rows) then
        let batch := slice rows i (i + batchSize) in
        do! record_event (WriteGroup batch) in
        let! batchPromises := dispatch columns batch in
        do! await_groups fuel' batchPromises maxParallel 0 in
        for_batches fuel' rows columns batchSize maxParallel
          (i + batchSize)
      else ret tt
  end.

(** [this.config.batch?.size ?? 1000] *)
Definition batch_size : Z :=
  nullish (match batch config with
           | Some b => size b
           | None => None
           end) 1000.

(** [this.config.transaction?.maxParallelStatements ?? 1] *)
Definition max_parallel : Z :=
  nullish (match transaction config with
           | Some t => maxParallelStatements t
           | None => None
           end) 1.

(** [this.config.batch?.maxRetries ?? 3] *)
Definition max_retries : Z :=
  nullish (match batch config with
           | Some b => maxRetries b
           | None => None
           end) 3.

(** [this.config.batch?.retryDelay ?? 1000] *)
Definition retry_delay : Z :=
  nullish (match batch config with
           | Some b => retryDelay b
           | None => None
           end) 1000.

(** The closure [executeInsert] of [insert]; the captured counter
    [retryCount] is passed along. *)
Fixpoint executeInsert (fuel : nat) (rows : list Row)
    (maxRetries_ retryDelay_ retryCount : Z) : M St unit :=
  match fuel with
  | O => hang
  | Datatypes.S fuel' =>
      try_catch
        (do! when transaction_enabled (await_query Begin) in
         do! match query_timeout with
             | Some q => await_query (SetStatementTimeout q)
             | None => ret tt
             end in
         match rows with
         | [] => throw "TypeError: Cannot convert undefined to object"
         | sample :: _ =>
             let columns := keys sample in
             do! for_batches fuel' rows columns batch_size max_parallel 0 in
             when transaction_enabled (await_query Commit)
         end)
        (fun error =>
           do! when transaction_enabled (await_query Rollback) in
           if retryCount <? maxRetries_ then
             do! record_event (Sleep retryDelay_) in
             executeInsert fuel' rows maxRetries_ retryDelay_
               (retryCount + 1)
           else throw error)
  end.

(** [insert(rows)] *)
Definition insert (fuel : nat) (rows : list Row) : M St unit :=
  let! s := get in
  if negb (connection s) then
    throw "Not connected to Snowflake. Call connect() first."
  else if (length rows =? 0)%nat then ret tt
  else
    try_catch
      (executeInsert fuel rows max_retries retry_delay 0)
      (fun error =>
         throw ("Failed to insert data into Snowflake: " ++ error)%string).

End Defs.

End Snowflake.

(* ===================================================================== *)
(** * The Databricks destination driver *)
(* ===================================================================== *)

Module Databricks.

(** [DatabricksConfig] as the caller writes it. *)
Record TransactionOptions : Type := {
  opt_enabled : option bool;
  opt_maxRetries : option Z
}.

Record Options : Type := {
  opt_batchSize : option Z;
  opt_transaction : option TransactionOptions;
  opt_createTableOptions : bool
}.

(** [this.config] once the constructor has filled in the defaults. *)
Record Config : Type := {
  batchSize : Z;
  enabled : bool;
  maxRetries : Z;
  createTableOptions : bool
}.

(** The assignments of the constructor. *)
Definition constructor (o : Options) : Config :=
  {| batchSize := or_default (nullish (opt_batchSize o) 0) 1000;
     enabled :=
       nullish (match opt_transaction o with
                | Some t => opt_enabled t
                | None => None
                end) true;
     maxRetries :=
       nullish (match opt_transaction o with
                | Some t => opt_maxRetries t
                | None => None
                end) 3;
     createTableOptions := opt_createTableOptions o |}.

Record St : Type := {
  client : bool;
  connection : bool;
  pendingRows : list Row;
  currentTransaction : bool;
  events : list Event
}.

(** The fields of a freshly constructed driver. *)
Definition new_driver : St :=
  {| client := false; connection := false; pendingRows := [];
     currentTransaction := false; events := [] |}.

Definition set_client (b : bool) (s : St) : St :=
  {| client := b; connection := connection s;
     pendingRows := pendingRows s;
     currentTransaction := currentTransaction s; events := events s |}.

Definition set_connection (b : bool) (s : St) : St :=
  {| client := client s; connection := b; pendingRows := pendingRows s;
     currentTransaction := currentTransaction s; events := events s |}.

Definition set_pendingRows (rows : list Row) (s : St) : St :=
  {| client := client s; connection := connection s; pendingRows := rows;
     currentTransaction := currentTransaction s; events := events s |}.

Definition set_currentTransaction (b : bool) (s : St) : St :=
  {| client := client s; connection := connection s;
     pendingRows := pendingRows s; currentTransaction := b;
     events := events s |}.

Section Defs.
Variable config : Config.
Variable backend : Backend.
Variable engine : Engine.

(** An awaited call on the SDK: recorded, then resolved or rejected. *)
Definition await_call (ev : Event) : M St unit :=
  fun s =>
    of_result (respond backend (events s) ev)
      {| client := client s; connection := connection s;
         pendingRows := pendingRows s;
         currentTransaction := currentTransaction s;
         events := events s ++ [ev] |}.

Definition record_event (ev : Event) : M St unit :=
  modify (fun s =>
    {| client := client s; connection := connection s;
       pendingRows := pendingRows s;
       currentTransaction := currentTransaction s;
       events := events s ++ [ev] |}).

(** [await this.connection.execute(sql)] *)
Definition execute (stmt : Stmt) : M St unit := await_call (Exec stmt).

(** [ensureTableExists()] *)
Definition ensureTableExists : M St unit :=
  let! s := get in
  if negb (connection s) || negb (createTableOptions config) then ret tt
  else execute CreateTable.

(** [connect()] *)
Definition connect : M St unit :=
  let! s := get in
  when (negb (client s))
    (do! modify (set_client true) in
     do! await_call OpenConnection in
     do! modify (set_connection true) in
     do! execute UseDatabase in
     if createTableOptions config then ensureTableExists
     else
       do! execute ShowTables in
       if negb (table_exists backend) then
         throw "Table does not exist and no creation options provided"
       else ret tt).

(** The [while (attempt < maxRetries)] loop of [flushBatch], entered
    with the local [rows]. *)
Fixpoint retry_loop (fuel : nat) (rows : list Row) (attempt : Z)
  : M St unit :=
  match fuel with
  | O => hang
  | Datatypes.S fuel' =>
      if attempt <? or_default (maxRetries config) 3 then
        let! next :=
          try_catch
            (let! s := get in
             do! when (enabled config && negb (currentTransaction s))
                   (do! execute StartTransaction in
                    modify (set_currentTransaction true)) in
             do! execute (InsertRows rows) in
             do! when (enabled config)
                   (do! execute Commit in
                    modify (set_currentTransaction false)) in
             ret None)
            (fun error =>
               let attempt' := attempt + 1 in
               let! s := get in
               do! when (currentTransaction s)
                     (do! try_catch (execute Rollback)
                            (fun rollbackError =>
                               record_event ConsoleError) in
                      modify (set_currentTransaction false)) in
               if attempt' >=? or_default (maxRetries config) 3 then
                 throw error
               else
                 do! record_event (Sleep (2 ^ attempt' * 1000)) in
                 ret (Some attempt')) in
        match next with
        | None => ret tt
        | Some attempt' => retry_loop fuel' rows attempt'
        end
      else ret tt
  end.

(** [flushBatch()] *)
Definition flushBatch (fuel : nat) : M St unit :=
  let! s := get in
  if negb (connection s) || (length (pendingRows s) =? 0)%nat then ret tt
  else
    let rows := pendingRows s in
    do! modify (set_pendingRows []) in
    retry_loop fuel rows 0.

(** [insert(rows)]; the rows are appended by [push(...rows)]. *)
Definition insert (fuel : nat) (rows : list Row) : M St unit :=
  let! s := get in
  do! when (negb (connection s)) connect in
  do! spread engine rows in
  do! modify (fun s => set_pendingRows (pendingRows s ++ rows) s) in
  let! s' := get in
  when (Z.of_nat (length (pendingRows s'))
        >=? or_default (batchSize config) 1000)
    (flushBatch fuel).

(** [close()] *)
Definition close (fuel : nat) : M St unit :=
  try_finally
    (let! s := get in
     do! when (0 <? length (pendingRows s))%nat (flushBatch fuel) in
     let! s' := get in
     when (currentTransaction s')
       (try_catch
          (when (connection s') (execute Commit))
          (fun error =>
             do! when (connection s') (execute Rollback) in
             throw error)))
    (let! s := get in
     do! when (connection s)
           (do! await_call CloseConnection in
            modify (set_connection false)) in
     let! s' := get in
     when (client s')
       (do! await_call CloseClient in
        modify (set_client false))).

End Defs.

End Databricks.

(* ===================================================================== *)
(** * Scenarios: the concrete inputs of the specification's examples *)
(* ===================================================================== *)

Module Scenarios.

Definition id_row (n : Z) : Row := [("id", VNum n)].

(** A driver without state that never fails. *)
Definition quiet {X} (x : X) : X * option Error := (x, None).

Definition static_source (gen : Pipeline.Gen Row)
  : Pipeline.ISourceDriver Row unit :=
  {| Pipeline.source_connect := quiet;
     Pipeline.source_fetch := fun _ => gen;
     Pipeline.source_close := quiet |}.

Definition accepting_destination : Pipeline.IDestinationDriver Row unit :=
  {| Pipeline.destination_connect := quiet;
     Pipeline.destination_insert := fun d _ => (d, None);
     Pipeline.destination_close := quiet |}.

(** Both [close()] methods reject. *)
Definition failing_close_source : Pipeline.ISourceDriver Row unit :=
  {| Pipeline.source_connect := quiet;
     Pipeline.source_fetch := fun _ => Pipeline.GDone;
     Pipeline.source_close := fun s => (s, Some "source close failed") |}.

Definition failing_close_destination
  : Pipeline.IDestinationDriver Row unit :=
  {| Pipeline.destination_connect := quiet;
     Pipeline.destination_insert := fun d _ => (d, None);
     Pipeline.destination_close :=
       fun d => (d, Some "destination close failed") |}.

(** A destination that rejects every batch holding the row [{id: n}]. *)
Definition has_id (n : Z) (batch : list Row) : bool :=
  existsb (fun r => match get_field r "id" with
                    | VNum m => m =? n
                    | _ => false
                    end) batch.

Definition rejecting_destination (n : Z)
  : Pipeline.IDestinationDriver Row unit :=
  {| Pipeline.destination_connect := quiet;
     Pipeline.destination_insert :=
       fun d batch =>
         (d, if has_id n batch then Some "insert failed" else None);
     Pipeline.destination_close := quiet |}.

(** Scenario B: the transformer maps [id] to [id * 10]. *)
Definition times_ten (batch : list Row) : Completion (list Row) :=
  Return (map (fun r => match get_field r "id" with
                        | VNum n => id_row (n * 10)
                        | _ => r
                        end) batch).

Definition scenario_B_source : Pipeline.ISourceDriver Row unit :=
  static_source
    (Pipeline.GYield [id_row 1; id_row 2] Pipeline.GDone).

(** Scenario A: two batches, no transformer. *)
Definition scenario_A_source : Pipeline.ISourceDriver Row unit :=
  static_source
    (Pipeline.GYield [id_row 1; id_row 2]
       (Pipeline.GYield [id_row 3] Pipeline.GDone)).

Definition epoch (n : nat) : string := "1970-01-01T00:00:00.000Z".

(** Scenario C: [cursorField: "id"], [cursorParamsIndex: 0],
    [params: [0]]; the array of [config.params] sits at location 0. *)
Definition scenario_C_config : Paginator.Config :=
  {| Paginator.query := "SELECT * FROM table WHERE id > ?";
     Paginator.params := Some 0%nat;
     Paginator.cursorField := Some "id";
     Paginator.cursorParamsIndex := Some 0;
     Paginator.poolAttributes := true |}.

Definition scenario_C_heap : list (list Value) := [[VNum 0]].

(** The back end answers the first query with two rows, the second with
    one row and every later one with none. *)
Definition scenario_C_backend : Paginator.Backend :=
  {| Paginator.open_connection := None;
     Paginator.execute := fun history _ _ =>
       match history with
       | [] => Paginator.Rows [id_row 1; id_row 2]
       | [_] => Paginator.Rows [id_row 3]
       | _ => Paginator.Rows []
       end |}.

(** A back end on which every multi-row or single-row [INSERT] fails. *)
Definition insert_always_fails : Backend :=
  {| respond := fun _ ev =>
       match ev with
       | Exec (InsertRows _) | Exec (InsertRow _ _) => Some "write failed"
       | _ => None
       end;
     table_exists := true |}.

Definition healthy_backend : Backend :=
  {| respond := fun _ _ => None; table_exists := true |}.

(** An engine that takes up to 100000 arguments in one call, with the
    messages of V8. *)
Definition v8 : Engine :=
  {| max_arguments := 100000;
     stack_overflow := "Maximum call stack size exceeded";
     null_read := fun property =>
       ("Cannot read properties of null (reading '" ++ property ++ "')")
         %string |}.

(** Databricks with [batchSize: 2] and
    [transaction: { enabled: true, maxRetries: 3 }]. *)
Definition databricks_config : Databricks.Config :=
  Databricks.constructor
    {| Databricks.opt_batchSize := Some 2;
       Databricks.opt_transaction :=
         Some {| Databricks.opt_enabled := Some true;
                 Databricks.opt_maxRetries := Some 3 |};
       Databricks.opt_createTableOptions := true |}.

(** Snowflake with [batch: { size: 2, maxRetries: 3, retryDelay: 10 }]
    and transactions enabled. *)
Definition snowflake_config : Snowflake.Config :=
  {| Snowflake.batch :=
       Some {| Snowflake.size := Some 2;
               Snowflake.maxRetries := Some 3;
               Snowflake.retryDelay := Some 10 |};
     Snowflake.transaction :=
       Some {| Snowflake.enabled := true;
               Snowflake.queryTimeout := None;
               Snowflake.maxParallelStatements := Some 1 |} |}.

Definition snowflake_connected : Snowflake.St :=
  {| Snowflake.connection := true; Snowflake.events := [] |}.

Definition five_rows : list Row :=
  [id_row 1; id_row 2; id_row 3; id_row 4; id_row 5].

End Scenarios.


(* ===================================================================== *)
(** * The Snowflake destination driver: connecting and closing *)
(* ===================================================================== *)

Module SnowflakeLifecycle.
Import Snowflake.

(** [config.table], as far as [connect()] reads it: the flag and whether
    [columns] is given.  The text of the [CREATE TABLE] statement is not
    modelled. *)
Record TableConfig : Type := {
  createIfNotExists : bool;
  columns : bool
}.

Section Defs.
Variable table : TableConfig.
Variable backend : Backend.

(** A call on the SDK's connection object ([connect], [destroy]) wrapped
    in a promise: a failure rejects with [wrap] put before its message. *)
Definition sdk_call (ev : Event) (wrap : string) : M St unit :=
  fun s =>
    let s' := {| connection := connection s; events := events s ++ [ev] |} in
    match respond backend (events s) ev with
    | Some e => (s', Throw (wrap ++ e)%string)
    | None => (s', Return tt)
    end.

(** [createTable()] *)
Definition createTable : M St unit :=
  let! s := get in
  if negb (connection s) || negb (columns table) then ret tt
  else await_query backend CreateTable.

(** [connect()]: the connection object is stored before it is connected. *)
Definition connect : M St unit :=
  try_catch
    (do! modify (fun s => {| connection := true; events := events s |}) in
     do! sdk_call OpenConnection "Failed to connect to Snowflake: " in
     when (createIfNotExists table && columns table) createTable)
    (fun error => throw ("Snowflake connection error: " ++ error)%string).

(** [close()] *)
Definition close : M St unit :=
  let! s := get in
  when (connection s)
    (do! sdk_call CloseConnection "Failed to close Snowflake connection: " in
     modify (fun s => {| connection := false; events := events s |})).

End Defs.

(** The fields of a freshly constructed driver. *)
Definition new_driver : St := {| connection := false; events := [] |}.

End SnowflakeLifecycle.

(* ===================================================================== *)
(** * The BigQuery destination driver *)
(* ===================================================================== *)

Module BigQuery.

(** The calls the driver awaits on the BigQuery client library. *)
Inductive Call : Type :=
| DatasetExists
| DatasetCreate
| TableExists
| TableCreate
| TableInsert (rows : list Row)
| StreamWrite (rows : list Row)
| StreamEnd.

(** The service decides each call from the calls before it: whether it is
    rejected, and what an [exists()] call finds. *)
Record Backend : Type := {
  respond : list Call -> Call -> option Error;
  found : list Call -> Call -> bool
}.

(** [BigQueryConfig], as far as the driver reads it; the options objects
    count as given or not. *)
Record Config : Type := {
  batchSize : option Z;
  createTableOptions : bool;
  writeOptions : bool
}.

Record St : Type := {
  client : bool;
  table : bool;
  pendingRows : list Row;
  writeStream : bool;
  calls : list Call
}.

(** The fields of a freshly constructed driver. *)
Definition new_driver : St :=
  {| client := false; table := false; pendingRows := [];
     writeStream := false; calls := [] |}.

Definition set_client (b : bool) (s : St) : St :=
  {| client := b; table := table s; pendingRows := pendingRows s;
     writeStream := writeStream s; calls := calls s |}.

Definition set_table (b : bool) (s : St) : St :=
  {| client := client s; table := b; pendingRows := pendingRows s;
     writeStream := writeStream s; calls := calls s |}.

Definition set_pendingRows (rows : list Row) (s : St) : St :=
  {| client := client s; table := table s; pendingRows := rows;
     writeStream := writeStream s; calls := calls s |}.

Definition set_writeStream (b : bool) (s : St) : St :=
  {| client := client s; table := table s; pendingRows := pendingRows s;
     writeStream := b; calls := calls s |}.

Section Defs.
Variable config : Config.
Variable backend : Backend.
Variable engine : Engine.

(** An awaited call: recorded, then resolved or rejected. *)
Definition await_call (c : Call) : M St unit :=
  fun s =>
    of_result (respond backend (calls s) c)
      {| client := client s; table := table s;
         pendingRows := pendingRows s; writeStream := writeStream s;
         calls := calls s ++ [c] |}.

(** [const [exists] = await x.exists()] *)
Definition await_exists (c : Call) : M St bool :=
  fun s =>
    match await_call c s with
    | (s', Return _) => (s', Return (found backend (calls s) c))
    | (s', Throw e) => (s', Throw e)
    | (s', Hang) => (s', Hang)
    end.

(** [this.config.batchSize || 1000] *)
Definition threshold : Z := or_default (nullish (batchSize config) 0) 1000.

(** [connect()] *)
Definition connect : M St unit :=
  let! s := get in
  when (negb (client s))
    (do! modify (set_client true) in
     let! datasetExists := await_exists DatasetExists in
     do! when (negb datasetExists) (await_call DatasetCreate) in
     do! modify (set_table true) in
     let! tableExists := await_exists TableExists in
     do! when (negb tableExists)
           (if negb (createTableOptions config) then
              throw "Table does not exist and no creation options provided"
            else await_call TableCreate) in
     when (writeOptions config) (modify (set_writeStream true))).

(** [flushBatch()].  Without a write stream the rows go to
    [this.table!.insert(rows)], which the engine refuses with a
    [TypeError] when [this.table] is [null]. *)
Definition flushBatch : M St unit :=
  let! s := get in
  if (length (pendingRows s) =? 0)%nat then ret tt
  else
    let rows := pendingRows s in
    do! modify (set_pendingRows []) in
    if writeStream s then await_call (StreamWrite rows)
    else if table s then await_call (TableInsert rows)
    else throw (null_read engine "insert").

(** [insert(rows)]; [this.pendingRows.push(...rows)] passes every row as
    an argument of its own. *)
Definition insert (rows : list Row) : M St unit :=
  let! s := get in
  do! when (negb (client s) || negb (table s)) connect in
  do! spread engine rows in
  do! modify (fun s => set_pendingRows (pendingRows s ++ rows) s) in
  let! s' := get in
  when (Z.of_nat (length (pendingRows s')) >=? threshold) flushBatch.

(** [close()] *)
Definition close : M St unit :=
  let! s := get in
  do! when (0 <? length (pendingRows s))%nat flushBatch in
  let! s1 := get in
  do! when (writeStream s1)
        (do! await_call StreamEnd in
         modify (set_writeStream false)) in
  do! modify (set_table false) in
  modify (set_client false).

End Defs.

(** The row groups handed to the service, in order. *)
Definition written (cs : list Call) : list (list Row) :=
  omap (fun c => match c with
                 | TableInsert rows | StreamWrite rows => Some rows
                 | _ => None
                 end) cs.

End BigQuery.

(* ===================================================================== *)
(** * The Redshift destination driver *)
(* ===================================================================== *)

Module Redshift.

(** The statements passed to [client.query]. *)
Inductive Query : Type :=
| Truncate
| Begin
| Commit
| Rollback
| CreateTable
| InsertRow (columns : list string) (values : list Value).

(** What the driver does to the outside world.  [WriteGroup] marks the
    rows of one sub-batch whose statements are dispatched together. *)
Inductive Event : Type :=
| Run (q : Query)
| WriteGroup (rows : list Row)
| PoolConnect
| Release
| PoolEnd.

(** The cluster decides each call from the history before it. *)
Record Backend : Type := {
  respond : list Event -> Event -> option Error
}.

Record TransactionConfig : Type := {
  enabled : option bool;
  maxRetries : option Z
}.

Record Config : Type := {
  truncate : bool;
  transaction : option TransactionConfig;
  batchSize : option Z;
  createTableOptions : bool
}.

Record St : Type := {
  pool : bool;
  client : bool;
  events : list Event
}.

(** The fields of a freshly constructed driver. *)
Definition new_driver : St :=
  {| pool := false; client := false; events := [] |}.

Definition set_pool (b : bool) (s : St) : St :=
  {| pool := b; client := client s; events := events s |}.

Definition set_client (b : bool) (s : St) : St :=
  {| pool := pool s; client := b; events := events s |}.

Section Defs.
Variable config : Config.
Variable backend : Backend.

(** [this.config.transaction?.enabled !== false] *)
Definition transaction_enabled : bool :=
  match transaction config with
  | Some t =>
      match enabled t with
      | Some false => false
      | _ => true
      end
  | None => true
  end.

(** [this.config.transaction?.maxRetries ?? 3] *)
Definition max_retries : Z :=
  nullish (match transaction config with
           | Some t => maxRetries t
           | None => None
           end) 3.

(** [this.config.batchSize ?? 1000] *)
Definition batch_size : Z := nullish (batchSize config) 1000.

Definition record_event (ev : Event) : M St unit :=
  modify (fun s =>
    {| pool := pool s; client := client s; events := events s ++ [ev] |}).

(** A call that is awaited, or that throws on the spot: recorded, then
    resolved or rejected. *)
Definition await_call (ev : Event) : M St unit :=
  fun s =>
    of_result (respond backend (events s) ev)
      {| pool := pool s; client := client s; events := events s ++ [ev] |}.

(** [this.client.query(...)]: the call is made and a promise comes back,
    here already settled ([None] when it resolves). *)
Definition query (q : Query) : M St (option Error) :=
  fun s =>
    ({| pool := pool s; client := client s;
        events := events s ++ [Run q] |},
     Return (respond backend (events s) (Run q))).

(** [await this.client.query(...)] *)
Definition await_query (q : Query) : M St unit :=
  let! promise := query q in
  of_result promise.

(** [createTable()] *)
Definition createTable : M St unit :=
  let! s := get in
  if negb (client s) || negb (createTableOptions config) then ret tt
  else await_query CreateTable.

(** [connect()] *)
Definition connect : M St unit :=
  try_catch
    (do! modify (set_pool true) in
     do! await_call PoolConnect in
     do! modify (set_client true) in
     when (createTableOptions config) createTable)
    (fun error => throw ("Failed to connect to Redshift: " ++ error)%string).

(** [batch.map(row => this.client.query(query, values))] *)
Fixpoint dispatch (columns : list string) (batch : list Row)
  : M St (list (option Error)) :=
  match batch with
  | [] => ret []
  | row :: batch' =>
      let values := map (get_field row) columns in
      let! promise := query (InsertRow columns values) in
      let! promises := dispatch columns batch' in
      ret (promise :: promises)
  end.

(** [await Promise.all(promises)]: rejects with a rejection among them,
    taken here to be the first in array order. *)
Definition await_all (promises : list (option Error)) : M St unit :=
  match omap id promises with
  | e :: _ => throw e
  | [] => ret tt
  end.

(** [for (let i = 0; i < rows.length; i += batchSize)] *)
Fixpoint for_batches (fuel : nat) (rows : list Row)
    (columns : list string) (batchSize_ i : Z) : M St unit :=
  match fuel with
  | O => hang
  | Datatypes.S fuel' =>
      if i <? Z.of_nat (length rows) then
        let batch := slice rows i (i + batchSize_) in
        do! record_event (WriteGroup batch) in
        let! promises := dispatch columns batch in
        do! await_all promises in
        for_batches fuel' rows columns batchSize_ (i + batchSize_)
      else ret tt
  end.

(** The closure [executeInsert] of [insert]; the captured counter
    [retryCount] is passed along. *)
Fixpoint executeInsert (fuel : nat) (rows : list Row)
    (maxRetries_ retryCount : Z) : M St unit :=
  match fuel with
  | O => hang
  | Datatypes.S fuel' =>
      try_catch
        (do! when (truncate config) (await_query Truncate) in
         do! when transaction_enabled (await_query Begin) in
         match rows with
         | [] => throw "TypeError: Cannot convert undefined to object"
         | sample :: _ =>
             let columns := keys sample in
             do! for_batches fuel' rows columns batch_size 0 in
             when transaction_enabled (await_query Commit)
         end)
        (fun error =>
           let! s := get in
           do! when (transaction_enabled && client s)
                 (await_query Rollback) in
           if retryCount <? maxRetries_ then
             executeInsert fuel' rows maxRetries_ (retryCount + 1)
           else throw error)
  end.

(** [insert(rows)] *)
Definition insert (fuel : nat) (rows : list Row) : M St unit :=
  let! s := get in
  if negb (client s) || negb (pool s) then
    throw "Not connected to Redshift. Call connect() first."
  else if (length rows =? 0)%nat then ret tt
  else
    try_catch
      (executeInsert fuel rows max_retries 0)
      (fun error =>
         throw ("Failed to insert data into Redshift: " ++ error)%string).

(** [close()] *)
Definition close : M St unit :=
  try_catch
    (let! s := get in
     do! when (client s)
           (do! await_call Release in
            modify (set_client false)) in
     let! s' := get in
     when (pool s')
       (do! await_call PoolEnd in
        modify (set_pool false)))
    (fun error =>
       throw ("Failed to close Redshift connection: " ++ error)%string).

End Defs.

Definition is_run (q : Query) (ev : Event) : bool :=
  match ev, q with
  | Run Truncate, Truncate | Run Begin, Begin | Run Commit, Commit
  | Run Rollback, Rollback => true
  | _, _ => false
  end.

(** How many times a statement without arguments was issued. *)
Definition count_run (q : Query) (evs : list Event) : nat :=
  length (List.filter (is_run q) evs).

End Redshift.

(* ===================================================================== *)
(** * Closing the source drivers *)
(* ===================================================================== *)

Module SourceClose.
Import Paginator.

(** The calls that release a handle. *)
Inductive Call : Type :=
| ConnectionEnd
| ClientRelease
| PoolEnd
| ConnectionClose
| PoolClose
| Terminate.

Section Defs.

(** Whether the library rejects a call. *)
Variable closes : Call -> option Error.

(** [MySQLSourceDriver.close()] *)
Definition mysql_close : M St unit :=
  let! s := get in
  when (connection s)
    (do! of_result (closes ConnectionEnd) in
     set_connection (pool s) false).

(** [PostgresSourceDriver.close()]; [connection] is its [client].  What
    [console.error] prints leaves no trace in the driver. *)
Definition postgres_close : M St unit :=
  let! s := get in
  do! when (connection s)
        (try_finally
           (try_catch (of_result (closes ClientRelease))
              (fun error => ret tt))
           (set_connection (pool s) false)) in
  try_catch (of_result (closes PoolEnd)) (fun error => ret tt).

(** [OracleSourceDriver.close()] *)
Definition oracle_close : M St unit :=
  let! s := get in
  do! when (connection s)
        (do! of_result (closes ConnectionClose) in
         set_connection (pool s) false) in
  let! s' := get in
  when (pool s')
    (do! of_result (closes PoolClose) in
     set_connection false (connection s')).

(** [FirestoreSourceDriver.close()] *)
Definition firestore_close : M FsSt unit :=
  let! s := get in
  do! when (db s)
        (do! of_result (closes Terminate) in
         modify (fun s =>
           {| db := false; lastDocumentSnapshot := lastDocumentSnapshot s;
              gets := gets s; fs_yields := fs_yields s |})) in
  modify (fun s =>
    {| db := db s; lastDocumentSnapshot := None;
       gets := gets s; fs_yields := fs_yields s |}).

End Defs.

End SourceClose.

(* ===================================================================== *)
(** * Further scenarios *)
(* ===================================================================== *)

Module MoreScenarios.
Import Scenarios.

(** A source whose [connect()] rejects. *)
Definition unreachable_source : Pipeline.ISourceDriver Row unit :=
  {| Pipeline.source_connect := fun s => (s, Some "source unreachable");
     Pipeline.source_fetch :=
       fun _ => Pipeline.GYield [id_row 1] Pipeline.GDone;
     Pipeline.source_close := quiet |}.

(** A pipeline that has not run yet. *)
Definition fresh : Pipeline.St Row unit unit := Pipeline.new_pipeline tt tt.

(** A query specification without cursor. *)
Definition single_shot_config : Paginator.Config :=
  {| Paginator.query := "SELECT * FROM table";
     Paginator.params := Some 0%nat;
     Paginator.cursorField := None;
     Paginator.cursorParamsIndex := None;
     Paginator.poolAttributes := true |}.


(** A warehouse that refuses every connection attempt. *)
Definition unreachable_warehouse : Backend :=
  {| respond := fun _ ev =>
       match ev with
       | OpenConnection => Some "ECONNREFUSED"
       | _ => None
       end;
     table_exists := true |}.

(** Every [INSERT] fails, and so does every [ROLLBACK]. *)
Definition rollback_rejected : Backend :=
  {| respond := fun _ ev =>
       match ev with
       | Exec (InsertRows _) | Exec (InsertRow _ _) => Some "write failed"
       | Exec Rollback => Some "connection lost"
       | _ => None
       end;
     table_exists := true |}.

(** The back end rejects [connection.close()]. *)
Definition close_rejected : Backend :=
  {| respond := fun _ ev =>
       match ev with
       | CloseConnection => Some "socket hang up"
       | _ => None
       end;
     table_exists := true |}.

(** Databricks with [batchSize: 2] and
    [transaction: { enabled: true, maxRetries: -1 }]. *)
Definition negative_retries_config : Databricks.Config :=
  Databricks.constructor
    {| Databricks.opt_batchSize := Some 2;
       Databricks.opt_transaction :=
         Some {| Databricks.opt_enabled := Some true;
                 Databricks.opt_maxRetries := Some (-1) |};
       Databricks.opt_createTableOptions := true |}.

(** A connected Databricks driver whose buffer holds [rows]. *)
Definition databricks_connected (rows : list Row) : Databricks.St :=
  {| Databricks.client := true; Databricks.connection := true;
     Databricks.pendingRows := rows;
     Databricks.currentTransaction := false;
     Databricks.events := [] |}.

(** BigQuery with [batchSize: 2] and table creation options, without
    write options. *)
Definition bigquery_config : BigQuery.Config :=
  {| BigQuery.batchSize := Some 2;
     BigQuery.createTableOptions := true;
     BigQuery.writeOptions := false |}.

(** A service that accepts every call and holds neither the dataset nor
    the table yet. *)
Definition bigquery_accepting : BigQuery.Backend :=
  {| BigQuery.respond := fun _ _ => None;
     BigQuery.found := fun _ _ => false |}.

(** A service that rejects every write. *)
Definition bigquery_write_rejected : BigQuery.Backend :=
  {| BigQuery.respond := fun _ c =>
       match c with
       | BigQuery.TableInsert _ | BigQuery.StreamWrite _ =>
           Some "quota exceeded"
       | _ => None
       end;
     BigQuery.found := fun _ _ => true |}.

(** A service that rejects the first call of [connect()]. *)
Definition bigquery_unreachable : BigQuery.Backend :=
  {| BigQuery.respond := fun _ c =>
       match c with
       | BigQuery.DatasetExists => Some "invalid credentials"
       | _ => None
       end;
     BigQuery.found := fun _ _ => true |}.

(** A connected BigQuery driver whose buffer holds [rows]. *)
Definition bigquery_connected (rows : list Row) : BigQuery.St :=
  {| BigQuery.client := true; BigQuery.table := true;
     BigQuery.pendingRows := rows; BigQuery.writeStream := false;
     BigQuery.calls := [] |}.

(** Redshift with [truncate: true], [batchSize: 2] and the default
    transaction settings. *)
Definition redshift_config : Redshift.Config :=
  {| Redshift.truncate := true;
     Redshift.transaction := None;
     Redshift.batchSize := Some 2;
     Redshift.createTableOptions := false |}.

(** A cluster that accepts every call. *)
Definition redshift_accepting : Redshift.Backend :=
  {| Redshift.respond := fun _ _ => None |}.

(** A cluster on which every [INSERT] fails. *)
Definition redshift_insert_fails : Redshift.Backend :=
  {| Redshift.respond := fun _ ev =>
       match ev with
       | Redshift.Run (Redshift.InsertRow _ _) => Some "write failed"
       | _ => None
       end |}.

Definition snowflake_table : SnowflakeLifecycle.TableConfig :=
  {| SnowflakeLifecycle.createIfNotExists := true;
     SnowflakeLifecycle.columns := true |}.

End MoreScenarios.

(* ===================================================================== *)
(** * Relations kept by every step of a method *)
(* ===================================================================== *)

(** A preorder [R] on states that every primitive step of a method stays
    within is kept by the whole method, however its steps complete. *)

Module Frame.

Section Respects.
Context {St : Type} (R : St -> St -> Prop).
Hypothesis R_refl : forall s, R s s.
Hypothesis R_trans : forall s1 s2 s3, R s1 s2 -> R s2 s3 -> R s1 s3.

Definition respects {A} (m : M St A) : Prop := forall s, R s (fst (m s)).

Lemma respects_pure {A} (m : M St A) :
  (forall s, fst (m s) = s) -> respects m.
Proof. intros H s. rewrite H. apply R_refl. Qed.

Lemma respects_modify (f : St -> St) :
  (forall s, R s (f s)) -> respects (modify f).
Proof. intros H s. apply H. Qed.

Lemma respects_bind {A B} (m : M St A) (k : A -> M St B) :
  respects m -> (forall a, respects (k a)) -> respects (bind m k).
Proof.
  intros Hm Hk s. unfold bind. specialize (Hm s).
  destruct (m s) as [s1 [a|e|]]; cbn in *; try assumption.
  eapply R_trans; [eassumption | apply Hk].
Qed.

Lemma respects_try_catch {A} (m : M St A) (h : Error -> M St A) :
  respects m -> (forall e, respects (h e)) -> respects (try_catch m h).
Proof.
  intros Hm Hh s. unfold try_catch. specialize (Hm s).
  destruct (m s) as [s1 [a|e|]]; cbn in *; try assumption.
  eapply R_trans; [eassumption | apply Hh].
Qed.

Lemma try_finally_at {A} (m : M St A) (f : M St unit) (s : St) :
  R s (fst (m s)) -> respects f -> R s (fst (try_finally m f s)).
Proof.
  intros Hm Hf. unfold try_finally.
  destruct (m s) as [s1 [a|e|]]; cbn in *; try assumption;
    specialize (Hf s1); destruct (f s1) as [s2 [[]|e'|]]; cbn in *;
    eapply R_trans; eassumption.
Qed.

Lemma respects_try_finally {A} (m : M St A) (f : M St unit) :
  respects m -> respects f -> respects (try_finally m f).
Proof. intros Hm Hf s. apply try_finally_at; auto. Qed.

Lemma respects_when c (m : M St unit) : respects m -> respects (when c m).
Proof. destruct c; [auto | intros _; apply respects_pure; reflexivity]. Qed.

Lemma respects_of_result r : respects (of_result (St := St) r).
Proof. destruct r; apply respects_pure; reflexivity. Qed.

End Respects.

(** A method is total when it returns or throws from every state. *)
Section Total.
Context {St : Type}.

Definition total {A} (m : M St A) : Prop := forall s, snd (m s) <> Hang.

Lemma total_ret {A} (a : A) : total (ret (St := St) a).
Proof. intros s. discriminate. Qed.

Lemma total_throw {A} e : total (throw (St := St) (A := A) e).
Proof. intros s. discriminate. Qed.

Lemma total_get : total (get (St := St)).
Proof. intros s. discriminate. Qed.

Lemma total_modify (f : St -> St) : total (modify f).
Proof. intros s. discriminate. Qed.

Lemma total_of_result r : total (of_result (St := St) r).
Proof. destruct r; intros s; discriminate. Qed.

Lemma total_bind {A B} (m : M St A) (k : A -> M St B) :
  total m -> (forall a, total (k a)) -> total (bind m k).
Proof.
  intros Hm Hk s. unfold bind. specialize (Hm s).
  destruct (m s) as [s1 [a|e|]]; cbn in *;
    [apply Hk | discriminate | exfalso; apply Hm; reflexivity].
Qed.

Lemma total_try_catch {A} (m : M St A) (h : Error -> M St A) :
  total m -> (forall e, total (h e)) -> total (try_catch m h).
Proof.
  intros Hm Hh s. unfold try_catch. specialize (Hm s).
  destruct (m s) as [s1 [a|e|]]; cbn in *;
    [discriminate | apply Hh | exfalso; apply Hm; reflexivity].
Qed.

Lemma total_when c (m : M St unit) : total m -> total (when c m).
Proof. destruct c; [auto | intros _; apply total_ret]. Qed.

End Total.

(** Take a method apart down to its primitive steps. *)
Ltac respects_step :=
  first [ apply respects_bind; [assumption | | intros ?]
        | apply respects_try_catch; [assumption | | intros ?]
        | apply respects_try_finally; [assumption | |]
        | apply respects_when; [assumption |]
        | apply respects_of_result; assumption
        | apply respects_pure; [assumption | reflexivity]
        | match goal with
          | |- respects _ (if ?c then _ else _) => destruct c
          | |- respects _ (match ?x with _ => _ end) => destruct x
          end ].

End Frame.

(* ===================================================================== *)
(** * Properties of the pipeline orchestrator *)
(* ===================================================================== *)

Module PipelineFacts.
Import Pipeline.

Section Facts.
Context {Item S D : Type}.
Variable source : ISourceDriver Item S.
Variable destination : IDestinationDriver Item D.
Variable transformer : option (list Item -> Completion (list Item)).
Variable logger : bool.
Variable clock : nat -> string.

Abbreviation St := (St Item S D).
Abbreviation log := (log logger).
Abbreviation cleanup := (cleanup source destination logger).
Abbreviation connect := (connect source destination logger).
Abbreviation process_batch :=
  (process_batch destination transformer logger clock).
Abbreviation process := (process source destination transformer logger clock).
Abbreviation run := (run source destination transformer logger clock).

Abbreviation transformed := (transformed transformer).

(** The state once [log] has run: only the call trace can differ. *)
Definition logged (level : LogLevel) (m : Message)
    (d : LogData Item) (s : St) : St :=
  if logger then record_call (Logger level m d) s else s.

Lemma log_eq level m d (s : St) :
  log level m d s = (logged level m d s, Return tt).
Proof. unfold Pipeline.log, logged, when. destruct logger; reflexivity. Qed.

Lemma logged_this level m d (s : St) : this (logged level m d s) = this s.
Proof. unfold logged. destruct logger; reflexivity. Qed.

Lemma logged_source level m d (s : St) :
  source_state (logged level m d s) = source_state s.
Proof. unfold logged. destruct logger; reflexivity. Qed.

Lemma logged_destination level m d (s : St) :
  destination_state (logged level m d s) = destination_state s.
Proof. unfold logged. destruct logger; reflexivity. Qed.

Lemma logged_clock level m d (s : St) :
  clock_reads (logged level m d s) = clock_reads s.
Proof. unfold logged. destruct logger; reflexivity. Qed.

Lemma inserted_app (xs ys : list (Call Item)) :
  inserted (xs ++ ys) = inserted xs ++ inserted ys.
Proof. unfold inserted. apply omap_app. Qed.

Lemma logged_inserted level m d (s : St) :
  inserted (calls (logged level m d s)) = inserted (calls s).
Proof.
  unfold logged. destruct logger; [|reflexivity].
  unfold record_call; cbn [calls]. rewrite inserted_app. cbn. apply app_nil_r.
Qed.

(** ** One batch *)

(** The state after a batch went through: counters, cursor, trace. *)
Definition after_batch (batch tb : list Item) (d' : D) (s : St) : St :=
  let fields :=
    {| connected := connected (this s);
       batchCount := batchCount (this s) + 1;
       totalRows := totalRows (this s) + Z.of_nat (length batch);
       currentCursor :=
         Some {| position :=
                   totalRows (this s) + Z.of_nat (length batch);
                 lastItem := last_item batch;
                 timestamp := clock (clock_reads s) |} |} in
  logged LDebug (ProcessedBatch (batchCount fields))
    (BatchData (Z.of_nat (length batch)) (totalRows fields)
       (currentCursor fields))
    {| this := fields; source_state := source_state s;
       destination_state := d';
       calls := calls s ++ [DestinationInsert tb];
       clock_reads := Datatypes.S (clock_reads s) |}.

(** The state after a batch was refused by the destination. *)
Definition after_refusal (batch tb : list Item) (d' : D) (e : Error)
    (s : St) : St :=
  logged LError (FailedToProcessBatch (batchCount (this s)))
    (BatchErrorData e (Z.of_nat (length batch)) (currentCursor (this s)))
    {| this := this s; source_state := source_state s;
       destination_state := d';
       calls := calls s ++ [DestinationInsert tb];
       clock_reads := clock_reads s |}.

Lemma process_batch_eq (batch : list Item) (s : St) :
  process_batch batch s =
  match transformed batch with
  | Hang => (s, Hang)
  | Throw e =>
      (logged LError (FailedToProcessBatch (batchCount (this s)))
         (BatchErrorData e (Z.of_nat (length batch))
            (currentCursor (this s))) s, Throw e)
  | Return tb =>
      match destination_insert destination (destination_state s) tb with
      | (d', Some e) => (after_refusal batch tb d' e s, Throw e)
      | (d', None) => (after_batch batch tb d' s, Return tt)
      end
  end.
Proof.
  unfold Pipeline.process_batch, Pipeline.transform, try_catch, bind,
    await_destination, after_batch, after_refusal.
  destruct (transformed batch) as [tb|e|]; cbn.
  - destruct (destination_insert destination (destination_state s) tb)
      as [d' [e|]]; cbn; rewrite log_eq; reflexivity.
  - rewrite log_eq. reflexivity.
  - reflexivity.
Qed.

Lemma after_batch_metrics batch tb d' (s : St) :
  getMetrics (after_batch batch tb d' s) =
  {| m_batchCount := batchCount (this s) + 1;
     m_totalRows := totalRows (this s) + Z.of_nat (length batch);
     m_cursor :=
       Some {| position := totalRows (this s) + Z.of_nat (length batch);
               lastItem := last_item batch;
               timestamp := clock (clock_reads s) |} |}.
Proof. unfold getMetrics, after_batch. rewrite logged_this. reflexivity. Qed.

Lemma after_batch_inserted batch tb d' (s : St) :
  inserted (calls (after_batch batch tb d' s)) = inserted (calls s) ++ [tb].
Proof.
  unfold after_batch. rewrite logged_inserted. cbn [calls].
  rewrite inserted_app. reflexivity.
Qed.

Lemma after_refusal_inserted batch tb d' e (s : St) :
  inserted (calls (after_refusal batch tb d' e s)) = inserted (calls s) ++ [tb].
Proof.
  unfold after_refusal. rewrite logged_inserted. cbn [calls].
  rewrite inserted_app. reflexivity.
Qed.

(** ** The loop *)

Lemma for_await_yield_then batches tail (body : list Item -> M St unit)
    (s : St) :
  for_await (yield_then batches tail) body s =
  match for_await (yield_then batches GDone) body s with
  | (s1, Return _) => for_await tail body s1
  | r => r
  end.
Proof.
  revert s. induction batches as [|batch batches IH]; intros s; cbn.
  - reflexivity.
  - unfold bind. destruct (body batch s) as [s1 [[]|e|]]; [apply IH| |];
      reflexivity.
Qed.

(** A loop that ends normally saw the source run to its end and counted
    every batch and every row of it. *)
Lemma for_await_counts gen : forall (s s' : St),
  for_await gen process_batch s = (s', Return tt) ->
  terminates gen = true /\
  batchCount (this s') =
    batchCount (this s) + Z.of_nat (length (yielded gen)) /\
  totalRows (this s') = totalRows (this s) + rows_in (yielded gen).
Proof.
  induction gen as [|e|batch rest IH]; intros s s' H; cbn in H.
  - injection H as <-. cbn. repeat split; lia.
  - discriminate.
  - unfold bind in H. rewrite process_batch_eq in H.
    destruct (transformed batch) as [tb|e|]; try discriminate.
    destruct (destination_insert destination (destination_state s) tb)
      as [d' [e|]]; try discriminate.
    apply IH in H as (Ht & Hb & Hr).
    pose proof (after_batch_metrics batch tb d' s) as Hm.
    apply (f_equal m_batchCount) in Hm as Hm1.
    apply (f_equal m_totalRows) in Hm as Hm2.
    cbn in Hm1, Hm2. cbn [terminates yielded length rows_in foldr].
    fold (rows_in (yielded rest)). rewrite Hb, Hr, Hm1, Hm2.
    repeat split; [assumption | lia | lia].
Qed.

(** ** [process()], [cleanup()], [connect()] *)

Lemma process_eq (s : St) :
  process s =
  match for_await (source_fetch source (source_state s)) process_batch
          (logged LInfo StartingDataProcessing NoData s) with
  | (s1, Return _) =>
      (logged LInfo DataProcessingCompleted
         (CompletedData (batchCount (this s1)) (totalRows (this s1))
            (currentCursor (this s1))) s1, Return tt)
  | (s1, Throw e) =>
      (logged LError DataProcessingFailed
         (FailedData e (currentCursor (this s1))) s1, Throw e)
  | (s1, Hang) => (s1, Hang)
  end.
Proof.
  unfold Pipeline.process, try_catch, bind. rewrite log_eq. cbn.
  rewrite logged_source.
  destruct (for_await _ _ _) as [s1 [[]|e|]]; cbn; rewrite ?log_eq;
    reflexivity.
Qed.

Lemma calls_logged c level m d (s : St) :
  In c (calls s) -> In c (calls (logged level m d s)).
Proof.
  unfold logged. destruct logger; [|tauto]. cbn. intros H.
  apply in_or_app. now left.
Qed.

(** Find a call in a trace built by appending and logging. *)
Ltac find_call :=
  cbn [calls];
  first [ apply in_or_app; first [ right; cbn; tauto | left; find_call ]
        | apply calls_logged; find_call ].

(** [cleanup()] calls both [close()] methods and returns, whatever they
    do: no completion of the two calls makes it throw. *)
Lemma cleanup_returns (s : St) :
  exists s',
    cleanup s = (s', Return tt) /\
    getMetrics s' = getMetrics s /\
    connected (this s') = false /\
    In SourceClose (calls s') /\ In DestinationClose (calls s').
Proof.
  unfold Pipeline.cleanup, try_catch, bind, await_source, await_destination.
  rewrite log_eq. cbn. rewrite logged_source.
  destruct (source_close source (source_state s)) as [s1 [e1|]]; cbn;
    rewrite ?log_eq; cbn; rewrite ?logged_destination; cbn;
    destruct (destination_close destination (destination_state s))
      as [d1 [e2|]]; cbn; rewrite ?log_eq; cbn; rewrite ?log_eq;
    eexists; (split; [reflexivity|]);
    unfold getMetrics; rewrite !logged_this; cbn; rewrite ?logged_this; cbn;
    rewrite ?logged_this;
    (split; [reflexivity|]); (split; [reflexivity|]);
    split; find_call.
Qed.

Lemma cleanup_metrics (s : St) :
  snd (cleanup s) = Return tt /\ getMetrics (fst (cleanup s)) = getMetrics s.
Proof.
  destruct (cleanup_returns s) as (s' & H & Hm & _). rewrite H. auto.
Qed.

(** [connect()] leaves the counters alone; on a pipeline that is not yet
    connected it moves the source to the state its [connect()] gives. *)
Lemma connect_returns (s s' : St) :
  connect s = (s', Return tt) ->
  getMetrics s' = getMetrics s /\
  (connected (this s) = false ->
   source_state s' = fst (source_connect source (source_state s))).
Proof.
  unfold Pipeline.connect, bind, get.
  destruct (connected (this s)) eqn:Hc.
  - intros H. injection H as <-. split; [reflexivity | discriminate].
  - unfold try_catch, bind, await_source, await_destination.
    rewrite log_eq. cbn. rewrite logged_source.
    destruct (source_connect source (source_state s)) as [s1 [e|]]; cbn.
    + rewrite log_eq.
      match goal with |- context [cleanup ?x] =>
        destruct (cleanup_returns x) as (y & -> & _) end.
      discriminate.
    + rewrite logged_destination.
      destruct (destination_connect destination (destination_state s))
        as [d1 [e|]]; cbn.
      * rewrite log_eq.
        match goal with |- context [cleanup ?x] =>
          destruct (cleanup_returns x) as (y & -> & _) end.
        discriminate.
      * rewrite log_eq. intros H. injection H as <-.
        unfold getMetrics. rewrite !logged_this, logged_source. cbn.
        rewrite ?logged_this, ?logged_source. auto.
Qed.

(** How batch N of a run can fail once the state [s1] is reached: the
    generator throws, the transformer throws, or the destination rejects
    the transformed batch.  The last index lists what was handed to
    [insert] for that batch. *)
Inductive fails_at (s1 : St) (e : Error)
  : Gen Item -> list (list Item) -> Prop :=
| fetch_fails : fails_at s1 e (GThrow e) []
| transform_fails batch rest :
    transformed batch = Throw e ->
    fails_at s1 e (GYield batch rest) []
| insert_fails batch rest tb d' :
    transformed batch = Return tb ->
    destination_insert destination (destination_state s1) tb = (d', Some e) ->
    fails_at s1 e (GYield batch rest) [tb].

(** C2, as the code has it.  When [source.close()] and
    [destination.close()] both reject, [cleanup()] attempts both, logs both
    failures and returns normally: the failure is not surfaced to the
    caller, contrary to the claim and to the method's own [@throws] note. *)
Theorem C2_cleanup_returns_when_both_closes_fail
    (s : St) (s1 : S) (d1 : D) (e1 e2 : Error) :
  source_close source (source_state s) = (s1, Some e1) ->
  destination_close destination (destination_state s) = (d1, Some e2) ->
  exists s',
    cleanup s = (s', Return tt) /\
    connected (this s') = false /\
    In SourceClose (calls s') /\
    In DestinationClose (calls s') /\
    (logger = true ->
     In (Logger LError FailedToCloseSource (ErrorData e1)) (calls s') /\
     In (Logger LError FailedToCloseDestination (ErrorData e2)) (calls s')).
Proof.
  intros Hs Hd.
  destruct (cleanup_returns s) as (s' & H & _ & Hc & H1 & H2).
  exists s'. repeat (split; [assumption|]).
  intros Hl. revert H.
  unfold Pipeline.cleanup, try_catch, bind, await_source, await_destination,
    Pipeline.log, when.
  rewrite Hl. cbn. rewrite Hs. cbn. rewrite Hd. cbn.
  intros H. injection H as <-. cbn. rewrite !in_app_iff. cbn. tauto.
Qed.

(** The sequence [run()] iterates from the state [s]: [fetch()] is called
    on the source as [connect()] leaves it, which is as it was when the
    pipeline is connected already. *)
Definition fetched_from (s : St) : Gen Item :=
  source_fetch source
    (if connected (this s) then source_state s
     else fst (source_connect source (source_state s))).

(** C3, amended.  When [run()] returns, from whatever state, the source
    sequence has run to its end without error, and [batchCount] and
    [totalRows] have grown, over what they were before the run, by the
    number of batches the source yielded in this run and by the sum of
    their (pre-transform) lengths.  The counters are never reset: only on
    a pipeline that has processed nothing yet are they these numbers
    themselves. *)
Theorem C3_metrics_of_a_completed_run (s s' : St) :
  run s = (s', Return tt) ->
  terminates (fetched_from s) = true /\
  m_batchCount (getMetrics s') =
    m_batchCount (getMetrics s)
    + Z.of_nat (length (yielded (fetched_from s))) /\
  m_totalRows (getMetrics s') =
    m_totalRows (getMetrics s) + rows_in (yielded (fetched_from s)) /\
  (batchCount (this s) = 0 -> totalRows (this s) = 0 ->
   m_batchCount (getMetrics s') =
     Z.of_nat (length (yielded (fetched_from s))) /\
   m_totalRows (getMetrics s') = rows_in (yielded (fetched_from s))).
Proof.
  unfold Pipeline.run, bind. intros H.
  destruct (connect s) as [sc [[]|e|]] eqn:Hc; try discriminate.
  pose proof (connect_returns s sc Hc) as [Hm Hsrc].
  assert (source_fetch source (source_state sc) = fetched_from s) as Hgen.
  { unfold fetched_from. destruct (connected (this s)) eqn:Hconn.
    - unfold Pipeline.connect, bind, get in Hc. rewrite Hconn in Hc.
      injection Hc as <-. reflexivity.
    - rewrite (Hsrc eq_refl). reflexivity. }
  unfold try_finally in H.
  destruct (process sc) as [sp rp] eqn:Hp.
  destruct (cleanup_returns sp) as (sq & Hq & Hmq & _).
  rewrite Hq in H. destruct rp as [[]|e|]; try discriminate.
  injection H as <-. rewrite Hmq.
  rewrite process_eq in Hp.
  destruct (for_await _ _ _) as [s1 [[]|e|]] eqn:Hloop; try discriminate.
  injection Hp as <-.
  apply for_await_counts in Hloop as (Ht & Hb & Hr).
  rewrite Hgen in Ht, Hb, Hr. rewrite logged_this in Hb, Hr.
  apply (f_equal m_batchCount) in Hm as Hm1.
  apply (f_equal m_totalRows) in Hm as Hm2.
  cbn in Hm1, Hm2. unfold getMetrics. cbn. rewrite logged_this.
  rewrite Hb, Hr, Hm1, Hm2.
  split; [assumption|]. split; [reflexivity|]. split; [reflexivity|].
  intros -> ->. split; lia.
Qed.

(** C6.  With a transformer configured, the batch handed to
    [destination.insert] is the transformed batch; and when the
    destination accepts it, the batch has gone through: the counters
    have moved on by one batch and by the length of the original batch,
    and the cursor is a new one, whose [lastItem] is the last record of
    the original batch and whose [position] is the new [totalRows]. *)
Theorem C6_insert_gets_transformed_cursor_keeps_original
    (f : list Item -> Completion (list Item)) (batch tb : list Item)
    (s : St) :
  transformer = Some f ->
  f batch = Return tb ->
  inserted (calls (fst (process_batch batch s))) = inserted (calls s) ++ [tb] /\
  (snd (destination_insert destination (destination_state s) tb) = None ->
   snd (process_batch batch s) = Return tt /\
   m_batchCount (getMetrics (fst (process_batch batch s)))
     = m_batchCount (getMetrics s) + 1 /\
   m_totalRows (getMetrics (fst (process_batch batch s)))
     = m_totalRows (getMetrics s) + Z.of_nat (length batch) /\
   exists c,
     m_cursor (getMetrics (fst (process_batch batch s))) = Some c /\
     lastItem c = last_item batch /\
     position c = m_totalRows (getMetrics (fst (process_batch batch s)))).
Proof.
  intros Ht Hf. rewrite process_batch_eq.
  unfold transformed, Pipeline.transformed. rewrite Ht, Hf.
  destruct (destination_insert destination (destination_state s) tb)
    as [d' [e|]]; cbn [fst snd].
  - split; [apply after_refusal_inserted | discriminate].
  - split; [apply after_batch_inserted|]. intros _.
    rewrite after_batch_metrics. cbn.
    split; [reflexivity|]. split; [reflexivity|]. split; [reflexivity|].
    eexists. repeat split.
Qed.

(** C7.  Let the first batches of a run go through and leave the pipeline
    in state [s1], and let the next step fail with [e] (in the generator,
    in the transformer or in [insert]).  Then [process()] throws [e],
    nothing after the failing batch reaches the destination, and
    [getMetrics()] gives what it gave in [s1], also after [cleanup()]. *)
Theorem C7_failed_batch_leaves_metrics_of_last_success
    (batches attempted : list (list Item)) (tail : Gen Item) (e : Error)
    (s s1 : St) :
  source_fetch source (source_state s) = yield_then batches tail ->
  for_await (yield_then batches GDone) process_batch
    (logged LInfo StartingDataProcessing NoData s) = (s1, Return tt) ->
  fails_at s1 e tail attempted ->
  exists s',
    process s = (s', Throw e) /\
    getMetrics s' = getMetrics s1 /\
    inserted (calls s') = inserted (calls s1) ++ attempted /\
    getMetrics (fst (cleanup s')) = getMetrics s1.
Proof.
  intros Hfetch Hprefix Hfail.
  rewrite process_eq, Hfetch, for_await_yield_then, Hprefix.
  assert (exists s2, for_await tail process_batch s1 = (s2, Throw e) /\
                     this s2 = this s1 /\
                     inserted (calls s2) = inserted (calls s1) ++ attempted)
    as (s2 & -> & Hthis & Hins).
  { destruct Hfail as [|batch rest Ht|batch rest tb d' Ht Hd]; cbn.
    - exists s1. rewrite app_nil_r. auto.
    - unfold bind. rewrite process_batch_eq, Ht. eexists.
      split; [reflexivity|].
      rewrite logged_this, logged_inserted, app_nil_r. auto.
    - unfold bind. rewrite process_batch_eq, Ht, Hd. eexists.
      split; [reflexivity|]. split; [|apply after_refusal_inserted].
      unfold after_refusal. rewrite logged_this. reflexivity. }
  eexists. split; [reflexivity|].
  assert (getMetrics (logged LError DataProcessingFailed
                        (FailedData e (currentCursor (this s2))) s2)
          = getMetrics s1) as Hm.
  { unfold getMetrics. rewrite logged_this, Hthis. reflexivity. }
  split; [exact Hm|]. split; [rewrite logged_inserted; exact Hins|].
  destruct (cleanup_metrics
              (logged LError DataProcessingFailed
                 (FailedData e (currentCursor (this s2))) s2)) as [_ ->].
  exact Hm.
Qed.

End Facts.
End PipelineFacts.

(** ** The scenarios of the specification, run *)

Module PipelineScenarios.
Import Pipeline PipelineFacts Scenarios.

(** Both [close()] calls reject and [cleanup()] still returns. *)
Lemma C2_both_closes_fail_witness :
  exists s',
    cleanup failing_close_source failing_close_destination true
      (new_pipeline tt tt) = (s', Return tt) /\
    connected (this s') = false /\
    In SourceClose (calls s') /\
    In DestinationClose (calls s') /\
    (true = true ->
     In (Logger LError FailedToCloseSource (ErrorData "source close failed"))
        (calls s') /\
     In (Logger LError FailedToCloseDestination
           (ErrorData "destination close failed")) (calls s')).
Proof.
  apply (C2_cleanup_returns_when_both_closes_fail
           failing_close_source failing_close_destination true
           (new_pipeline tt tt) tt tt); reflexivity.
Defined.

(** Scenario A: two batches, no transformer; on a new pipeline
    [batchCount = 2] and [totalRows = 3]. *)
Lemma C3_scenario_A_witness :
  let s' := fst (run scenario_A_source accepting_destination None true epoch
                   (new_pipeline tt tt)) in
  terminates (fetched_from scenario_A_source (new_pipeline tt tt)) = true /\
  m_batchCount (getMetrics s') = 2 /\
  m_totalRows (getMetrics s') = 3.
Proof.
  destruct (C3_metrics_of_a_completed_run
              scenario_A_source accepting_destination None true epoch
              (new_pipeline tt tt)
              (fst (run scenario_A_source accepting_destination None true
                      epoch (new_pipeline tt tt))))
    as (Ht & _ & _ & Hfresh).
  - vm_compute. reflexivity.
  - destruct (Hfresh eq_refl eq_refl) as [Hb Hr].
    split; [exact Ht|]. split; [exact Hb | exact Hr].
Defined.

(** C3 as stated fails on a pipeline that is run again: the source of
    scenario A yields two batches of three rows in all in its second run
    as in its first, the run returns, and [getMetrics()] then reports
    four batches and six rows. *)
Lemma C3_second_run_adds_to_the_counters :
  let s1 := fst (run scenario_A_source accepting_destination None true epoch
                   (new_pipeline tt tt)) in
  let r2 := run scenario_A_source accepting_destination None true epoch s1 in
  snd r2 = Return tt /\
  terminates (fetched_from scenario_A_source s1) = true /\
  length (yielded (fetched_from scenario_A_source s1)) = 2%nat /\
  rows_in (yielded (fetched_from scenario_A_source s1)) = 3 /\
  m_batchCount (getMetrics (fst r2)) = 4 /\
  m_totalRows (getMetrics (fst r2)) = 6 /\
  ~ (m_batchCount (getMetrics (fst r2)) =
       Z.of_nat (length (yielded (fetched_from scenario_A_source s1))) /\
     m_totalRows (getMetrics (fst r2)) =
       rows_in (yielded (fetched_from scenario_A_source s1))).
Proof.
  vm_compute. repeat (split; [reflexivity|]). intros [H _]. discriminate H.
Qed.

Example scenario_A_destination_receives_both_batches :
  inserted (calls (fst (run scenario_A_source accepting_destination None true
                          epoch (new_pipeline tt tt)))) =
  [[id_row 1; id_row 2]; [id_row 3]].
Proof. vm_compute. reflexivity. Qed.

(** Scenario B: the destination receives [{id:10},{id:20}] and the
    cursor keeps [{id:2}]. *)
Lemma C6_scenario_B_witness :
  let s := new_pipeline (Item := Row) tt tt in
  let r := process_batch accepting_destination (Some times_ten) true epoch
             [id_row 1; id_row 2] s in
  inserted (calls (fst r)) = [] ++ [[id_row 10; id_row 20]] /\
  snd r = Return tt /\
  m_batchCount (getMetrics (fst r)) = m_batchCount (getMetrics s) + 1 /\
  m_totalRows (getMetrics (fst r))
    = m_totalRows (getMetrics s) + Z.of_nat (length [id_row 1; id_row 2]) /\
  exists c,
    m_cursor (getMetrics (fst r)) = Some c /\
    lastItem c = Some (id_row 2) /\
    position c = m_totalRows (getMetrics (fst r)).
Proof.
  destruct (C6_insert_gets_transformed_cursor_keeps_original
              accepting_destination (Some times_ten) true epoch times_ten
              [id_row 1; id_row 2] [id_row 10; id_row 20]
              (new_pipeline tt tt) eq_refl eq_refl) as [Hins Hcursor].
  split; [exact Hins | apply Hcursor; reflexivity].
Defined.

Example scenario_B_run :
  let s' := fst (run scenario_B_source accepting_destination (Some times_ten)
                   false epoch (new_pipeline tt tt)) in
  inserted (calls s') = [[id_row 10; id_row 20]] /\
  m_cursor (getMetrics s') =
    Some {| position := 2; lastItem := Some (id_row 2);
            timestamp := epoch 0 |}.
Proof. vm_compute. split; reflexivity. Qed.

(** The destination rejects the second batch: the metrics stay those of
    the first. *)
Lemma C7_rejected_batch_witness :
  let s := new_pipeline (Item := Row) tt tt in
  let s1 := fst (process_batch (rejecting_destination 3) None true epoch
                   [id_row 1; id_row 2]
                   (logged true LInfo StartingDataProcessing NoData s)) in
  exists s',
    process scenario_A_source (rejecting_destination 3) None true epoch s =
      (s', Throw "insert failed") /\
    getMetrics s' = getMetrics s1 /\
    inserted (calls s') = inserted (calls s1) ++ [[id_row 3]] /\
    getMetrics (fst (cleanup scenario_A_source (rejecting_destination 3) true
                       s')) = getMetrics s1.
Proof.
  apply (C7_failed_batch_leaves_metrics_of_last_success
           scenario_A_source (rejecting_destination 3) None true epoch
           [[id_row 1; id_row 2]] [[id_row 3]] (GYield [id_row 3] GDone)).
  - reflexivity.
  - vm_compute. reflexivity.
  - apply insert_fails with (d' := tt); reflexivity.
Defined.

End PipelineScenarios.

(* ===================================================================== *)
(** * Properties of the source paginators *)
(* ===================================================================== *)

Module PaginatorFacts.
Import Paginator Frame.

Definition nonempty {A} (batch : list A) : Prop := batch <> [].

(** What the loop of [fetch()] may change while its local [params] sits at
    [l]: arrays at other locations keep their elements, and every batch
    added to [yields] is non-empty. *)
Definition preserves (l : nat) (s s' : St) : Prop :=
  (forall l', l' <> l -> heap s' !! l' = heap s !! l') /\
  (Forall nonempty (yields s) -> Forall nonempty (yields s')).

(** What a whole call of [fetch()] may change: every array that exists
    keeps its elements, and every batch added to [yields] is non-empty. *)
Definition extends (s s' : St) : Prop :=
  (forall p arr, heap s !! p = Some arr -> heap s' !! p = Some arr) /\
  (Forall nonempty (yields s) -> Forall nonempty (yields s')).

Lemma preserves_refl l s : preserves l s s.
Proof. split; auto. Qed.

Lemma preserves_trans l s1 s2 s3 :
  preserves l s1 s2 -> preserves l s2 s3 -> preserves l s1 s3.
Proof.
  intros [H1 H2] [H3 H4]. split.
  - intros l' Hl. rewrite H3, H1; auto.
  - auto.
Qed.

Lemma extends_refl s : extends s s.
Proof. split; auto. Qed.

Lemma extends_trans s1 s2 s3 :
  extends s1 s2 -> extends s2 s3 -> extends s1 s3.
Proof. intros [H1 H2] [H3 H4]. split; auto. Qed.

Section Loop.
Variable config : Config.
Variable backend : Backend.

Lemma store_preserves l i v : respects (preserves l) (store l i v).
Proof.
  intros s. split; cbn; [|auto]. intros l' Hl.
  destruct (heap s !! l); [|reflexivity].
  apply list_lookup_insert_ne. congruence.
Qed.

Lemma await_execute_preserves l :
  respects (preserves l) (await_execute config backend l).
Proof.
  intros s. unfold await_execute.
  destruct (execute backend _ _ _); split; cbn; auto.
Qed.

Lemma yield_preserves l rows :
  nonempty rows -> respects (preserves l) (yield rows).
Proof.
  intros Hne s. split; cbn; [auto|]. intros H.
  apply Forall_app. split; [assumption | repeat constructor; assumption].
Qed.

Lemma fetch_loop_preserves fuel : forall l cursorValue,
  respects (preserves l) (fetch_loop config backend fuel l cursorValue).
Proof.
  induction fuel as [|fuel IH]; intros l cursorValue; cbn [fetch_loop];
    pose proof (preserves_refl l); pose proof (preserves_trans l).
  - apply respects_pure; [assumption | reflexivity].
  - apply respects_bind; [assumption| |intros _].
    { destruct (cursorParamsIndex config);
        [|apply respects_pure; [assumption | reflexivity]].
      apply respects_when; [assumption | apply store_preserves]. }
    apply respects_bind; [assumption | apply await_execute_preserves |].
    intros [[|row rows]|];
      try (apply respects_pure; [assumption | reflexivity]).
    apply respects_bind; [assumption| |intros _].
    { apply yield_preserves. discriminate. }
    destruct (truthy_string (cursorField config));
      [|apply respects_pure; [assumption | reflexivity]].
    destruct (last (row :: rows));
      [|apply respects_pure; [assumption | reflexivity]].
    destruct (is_defined _);
      [apply IH | apply respects_pure; [assumption | reflexivity]].
Qed.

(** [paginate] allocates its [params] past every array that exists. *)
Lemma paginate_extends fuel : respects extends (paginate config backend fuel).
Proof.
  intros s. unfold paginate, bind, get, alloc. cbn.
  match goal with |- context [fetch_loop _ _ _ ?l ?c ?x] =>
    pose proof (fetch_loop_preserves fuel l c x) as [Hh Hy] end.
  cbn in Hh, Hy. split.
  - intros p arr Hp. rewrite Hh.
    + rewrite lookup_app_l; [assumption | eapply lookup_lt_Some; eassumption].
    + apply lookup_lt_Some in Hp. lia.
  - exact Hy.
Qed.

Lemma set_connection_extends p c : respects extends (set_connection p c).
Proof. intros s. split; cbn; auto. Qed.

Ltac extends_step :=
  first [ apply paginate_extends
        | apply set_connection_extends
        | respects_step ].

Lemma mysql_fetch_extends fuel :
  respects extends (mysql_fetch config backend fuel).
Proof.
  pose proof extends_refl. pose proof extends_trans.
  unfold mysql_fetch, mysql_connect. repeat extends_step.
Qed.

Lemma postgres_fetch_extends fuel :
  respects extends (postgres_fetch config backend fuel).
Proof.
  pose proof extends_refl. pose proof extends_trans.
  unfold postgres_fetch, postgres_connect. repeat extends_step.
Qed.

Lemma oracle_fetch_extends fuel :
  respects extends (oracle_fetch config backend fuel).
Proof.
  pose proof extends_refl. pose proof extends_trans.
  unfold oracle_fetch, oracle_connect. repeat extends_step.
Qed.

(** An empty result ends the sequence: nothing is yielded for it and no
    further query is made. *)
Lemma empty_result_ends_sequence fuel l cursorValue (s : St) :
  (forall bound, execute backend (executions s) (query config) bound = Rows [])
  ->
  let r := fetch_loop config backend (Datatypes.S fuel) l cursorValue s in
  snd r = Return tt /\
  yields (fst r) = yields s /\
  length (executions (fst r)) = Datatypes.S (length (executions s)).
Proof.
  intros He. cbn [fetch_loop]. unfold bind, await_execute.
  destruct (cursorParamsIndex config) as [i|]; cbn.
  - unfold when. destruct (_ && _); cbn; rewrite He; cbn;
      rewrite length_app; cbn; repeat split; lia.
  - rewrite He. cbn. rewrite length_app. cbn. repeat split; lia.
Qed.

End Loop.

Section Firestore.
Variable limit : option Z.
Variable backend : FsBackend.

Lemma firestore_loop_nonempty fuel : forall batchSize q (s : FsSt),
  Forall nonempty (fs_yields s) ->
  Forall nonempty
    (fs_yields (fst (firestore_loop backend fuel batchSize q s))).
Proof.
  induction fuel as [|fuel IH]; intros batchSize q s H; cbn; [assumption|].
  unfold bind, fs_await_get.
  destruct (fs_get backend (gets s) q) as [[|doc docs]| |]; cbn;
    try assumption.
  destruct (_ =? batchSize).
  - apply IH. cbn. apply Forall_app. split; [assumption|].
    repeat constructor. discriminate.
  - cbn. apply Forall_app. split; [assumption|].
    repeat constructor. discriminate.
Qed.

End Firestore.

(** C4.  Scenario C on the three SQL paginators: with enough fuel for three
    rounds the generator ends normally after exactly three executions,
    bound to [0], [2] and [3] at index 0, and it yields the two non-empty
    pages only. *)
Theorem C4_scenario_C (extra : nat) :
  let fuel := (3 + extra)%nat in
  let q := query Scenarios.scenario_C_config in
  let expected (r : St * Completion unit) :=
    snd r = Return tt /\
    executions (fst r) = [(q, [VNum 0]); (q, [VNum 2]); (q, [VNum 3])] /\
    yields (fst r) =
      [[Scenarios.id_row 1; Scenarios.id_row 2]; [Scenarios.id_row 3]] in
  expected (mysql_fetch Scenarios.scenario_C_config
              Scenarios.scenario_C_backend fuel
              (new_driver Scenarios.scenario_C_heap)) /\
  expected (postgres_fetch Scenarios.scenario_C_config
              Scenarios.scenario_C_backend fuel
              (new_driver Scenarios.scenario_C_heap)) /\
  expected (oracle_fetch Scenarios.scenario_C_config
              Scenarios.scenario_C_backend fuel
              (new_driver Scenarios.scenario_C_heap)).
Proof. cbn. repeat split; reflexivity. Qed.

(** C5.  Whatever the configuration, the back end and the fuel, every batch
    that [fetch()] yields is non-empty, for the MySQL, Postgres, Oracle and
    Firestore drivers. *)
Theorem C5_every_yielded_batch_is_nonempty
    (config : Config) (backend : Backend) (limit : option Z)
    (fs_backend : FsBackend) (fuel : nat) (h : list (list Value)) :
  Forall nonempty
    (yields (fst (mysql_fetch config backend fuel (new_driver h)))) /\
  Forall nonempty
    (yields (fst (postgres_fetch config backend fuel (new_driver h)))) /\
  Forall nonempty
    (yields (fst (oracle_fetch config backend fuel (new_driver h)))) /\
  Forall nonempty
    (fs_yields (fst (firestore_fetch limit fs_backend fuel new_firestore))).
Proof.
  repeat split.
  - apply (mysql_fetch_extends config backend fuel (new_driver h)).
    constructor.
  - apply (postgres_fetch_extends config backend fuel (new_driver h)).
    constructor.
  - apply (oracle_fetch_extends config backend fuel (new_driver h)).
    constructor.
  - unfold firestore_fetch, bind, modify. cbn.
    apply firestore_loop_nonempty. constructor.
Qed.

(** C9.  The array of [config.params] holds the same elements after
    [fetch()] has been consumed as before: the cursor is written to the
    clone only. *)
Theorem C9_config_params_unchanged
    (config : Config) (backend : Backend) (fuel : nat) (s : St)
    (p : nat) (arr : list Value) :
  params config = Some p ->
  heap s !! p = Some arr ->
  heap (fst (mysql_fetch config backend fuel s)) !! p = Some arr /\
  heap (fst (postgres_fetch config backend fuel s)) !! p = Some arr /\
  heap (fst (oracle_fetch config backend fuel s)) !! p = Some arr.
Proof.
  intros _ Hp. repeat split.
  - apply (mysql_fetch_extends config backend fuel s), Hp.
  - apply (postgres_fetch_extends config backend fuel s), Hp.
  - apply (oracle_fetch_extends config backend fuel s), Hp.
Qed.

(** Scenario C: the configured array still holds [0] while the clone,
    allocated at location 1, ends up holding [3]. *)
Lemma C9_scenario_C_witness :
  let after fetch :=
    heap (fst (fetch Scenarios.scenario_C_config Scenarios.scenario_C_backend
                 5%nat (new_driver Scenarios.scenario_C_heap))) in
  after mysql_fetch !! 0%nat = Some [VNum 0] /\
  after postgres_fetch !! 0%nat = Some [VNum 0] /\
  after oracle_fetch !! 0%nat = Some [VNum 0].
Proof.
  apply (C9_config_params_unchanged Scenarios.scenario_C_config
           Scenarios.scenario_C_backend 5%nat
           (new_driver Scenarios.scenario_C_heap) 0%nat [VNum 0]);
    reflexivity.
Defined.

Example scenario_C_clone_is_updated :
  heap (fst (mysql_fetch Scenarios.scenario_C_config
               Scenarios.scenario_C_backend 5%nat
               (new_driver Scenarios.scenario_C_heap))) =
  [[VNum 0]; [VNum 3]].
Proof. reflexivity. Qed.

End PaginatorFacts.

(* ===================================================================== *)
(** * Properties of the Databricks writer *)
(* ===================================================================== *)

Module DatabricksFacts.
Import Databricks Frame.

Lemma write_groups_app (xs ys : list Event) :
  write_groups (xs ++ ys) = write_groups xs ++ write_groups ys.
Proof. apply omap_app. Qed.

(** Nothing is written and the buffer is left alone. *)
Definition untouched (s s' : St) : Prop :=
  pendingRows s' = pendingRows s /\
  write_groups (events s') = write_groups (events s).

(** The buffer is left alone and all that is written is [rows], as one
    group, some number of times. *)
Definition flushes (rows : list Row) (s s' : St) : Prop :=
  pendingRows s' = pendingRows s /\
  exists k : nat,
    write_groups (events s') = write_groups (events s) ++ replicate k rows.

Lemma untouched_refl s : untouched s s.
Proof. split; reflexivity. Qed.

Lemma untouched_trans s1 s2 s3 :
  untouched s1 s2 -> untouched s2 s3 -> untouched s1 s3.
Proof. intros [H1 H2] [H3 H4]. split; congruence. Qed.

Lemma flushes_refl rows s : flushes rows s s.
Proof. split; [reflexivity|]. exists 0%nat. cbn. now rewrite app_nil_r. Qed.

Lemma flushes_trans rows s1 s2 s3 :
  flushes rows s1 s2 -> flushes rows s2 s3 -> flushes rows s1 s3.
Proof.
  intros [H1 [k1 H2]] [H3 [k2 H4]]. split; [congruence|].
  exists (k1 + k2)%nat. rewrite H4, H2, replicate_add, app_assoc. reflexivity.
Qed.

Lemma untouched_flushes rows s s' : untouched s s' -> flushes rows s s'.
Proof.
  intros [H1 H2]. split; [assumption|]. exists 0%nat. cbn.
  now rewrite app_nil_r.
Qed.

Section Facts.
Variable config : Config.
Variable backend : Backend.
Variable engine : Engine.

Lemma await_call_untouched ev :
  write_groups [ev] = [] -> respects untouched (await_call backend ev).
Proof.
  intros Hev s. unfold await_call.
  destruct (respond backend (events s) ev); split; cbn;
    rewrite ?write_groups_app, ?Hev, ?app_nil_r; reflexivity.
Qed.

Lemma record_event_untouched ev :
  write_groups [ev] = [] -> respects untouched (record_event ev).
Proof.
  intros Hev s. split; cbn;
    rewrite ?write_groups_app, ?Hev, ?app_nil_r; reflexivity.
Qed.

Lemma execute_insert_flushes rows :
  respects (flushes rows) (execute backend (InsertRows rows)).
Proof.
  intros s. unfold execute, await_call.
  destruct (respond backend (events s) _); (split; [reflexivity|]);
    exists 1%nat; cbn; rewrite write_groups_app; reflexivity.
Qed.

Lemma respects_untouched_flushes {A} rows (m : M St A) :
  respects untouched m -> respects (flushes rows) m.
Proof. intros H s. apply untouched_flushes, H. Qed.

(** Steps that write no rows and keep the buffer. *)
Ltac untouched_step :=
  first [ apply await_call_untouched; reflexivity
        | apply record_event_untouched; reflexivity
        | apply respects_modify; intros ?; split; reflexivity
        | respects_step ].

Lemma connect_untouched : respects untouched (connect config backend).
Proof.
  pose proof untouched_refl. pose proof untouched_trans.
  unfold connect, ensureTableExists, execute. repeat untouched_step.
Qed.

Lemma retry_loop_flushes fuel : forall rows attempt,
  respects (flushes rows) (retry_loop config backend fuel rows attempt).
Proof.
  pose proof (flushes_refl) as Hr. pose proof (flushes_trans) as Ht.
  induction fuel as [|fuel IH]; intros rows attempt; cbn [retry_loop].
  - apply respects_pure; [apply Hr | reflexivity].
  - destruct (attempt <? _); [|apply respects_pure; [apply Hr | reflexivity]].
    apply respects_bind; [apply Ht| |].
    + apply respects_try_catch; [apply Ht| |].
      * apply respects_bind; [apply Ht| |intros s0].
        { apply respects_pure; [apply Hr | reflexivity]. }
        apply respects_bind; [apply Ht| |intros _].
        { apply respects_untouched_flushes.
          pose proof untouched_refl. pose proof untouched_trans.
          unfold execute. repeat untouched_step. }
        apply respects_bind; [apply Ht| |intros _].
        { apply execute_insert_flushes. }
        apply respects_bind; [apply Ht| |intros _].
        { apply respects_untouched_flushes.
          pose proof untouched_refl. pose proof untouched_trans.
          unfold execute. repeat untouched_step. }
        apply respects_pure; [apply Hr | reflexivity].
      * intros error. apply respects_untouched_flushes.
        pose proof untouched_refl. pose proof untouched_trans.
        unfold execute. repeat untouched_step.
    + intros [attempt'|]; [apply IH|].
      apply respects_pure; [apply Hr | reflexivity].
Qed.

(** The retry loop is bounded by [maxRetries]: with that much fuel it
    returns or throws. *)
Lemma retry_loop_total fuel : forall rows attempt (s : St),
  (0 < fuel)%nat ->
  (Z.to_nat (or_default (maxRetries config) 3 - attempt) <= fuel)%nat ->
  snd (retry_loop config backend fuel rows attempt s) <> Hang.
Proof.
  induction fuel as [|fuel IH]; intros rows attempt s Hpos Hfuel; [lia|].
  cbn [retry_loop]. destruct (attempt <? _) eqn:Hlt; [|discriminate].
  assert (forall s1 : St,
            attempt + 1 < or_default (maxRetries config) 3 ->
            snd (retry_loop config backend fuel rows (attempt + 1) s1)
              <> Hang) as Hnext by (intros; apply IH; lia).
  unfold try_catch, bind, get, when, execute, await_call, modify,
    record_event, of_result, ret, throw.
  destruct s as [cl cn pending [|] evs], (enabled config);
    cbn -[Z.pow Z.mul Z.add Z.geb Z.sub Z.to_nat retry_loop or_default];
    repeat match goal with
      | |- context [respond ?b ?h ?e] =>
          destruct (respond b h e);
          cbn -[Z.pow Z.mul Z.add Z.geb Z.sub Z.to_nat retry_loop
                or_default]
      | |- context [attempt + 1 >=? ?m] =>
          destruct (attempt + 1 >=? m) eqn:?;
          cbn -[Z.pow Z.mul Z.add Z.geb Z.sub Z.to_nat retry_loop
                or_default]
      end;
    try discriminate; apply Hnext; lia.
Qed.

(** [flushBatch()], step by step. *)
Lemma flushBatch_eq fuel (s : St) :
  flushBatch config backend fuel s =
  if negb (connection s) || (length (pendingRows s) =? 0)%nat
  then (s, Return tt)
  else retry_loop config backend fuel (pendingRows s) 0
         (set_pendingRows [] s).
Proof.
  unfold flushBatch, bind, get, modify. cbn.
  destruct (negb (connection s) || _); reflexivity.
Qed.

Lemma flushBatch_total fuel (s : St) :
  (0 < fuel)%nat ->
  (Z.to_nat (or_default (maxRetries config) 3) <= fuel)%nat ->
  snd (flushBatch config backend fuel s) <> Hang.
Proof.
  intros Hpos Hfuel. rewrite flushBatch_eq.
  destruct (negb (connection s) || _); [discriminate|].
  apply retry_loop_total; [assumption|].
  replace (or_default (maxRetries config) 3 - 0)
    with (or_default (maxRetries config) 3) by lia.
  assumption.
Qed.

(** A flush empties the buffer before anything is written, and what it
    writes is the buffer it found, as one group per attempt. *)
Lemma flushBatch_spec fuel (s : St) :
  let s' := fst (flushBatch config backend fuel s) in
  (connection s = true -> pendingRows s' = []) /\
  exists k : nat,
    write_groups (events s') =
      write_groups (events s) ++ replicate k (pendingRows s) /\
    (k = 0%nat \/ (connection s = true /\ pendingRows s <> [])).
Proof.
  cbv zeta. rewrite flushBatch_eq.
  destruct (connection s) eqn:Hc; cbn.
  - destruct (pendingRows s) as [|row rows] eqn:Hp; cbn.
    + split; [auto|]. exists 0%nat. cbn. rewrite app_nil_r. auto.
    + destruct (retry_loop_flushes fuel (row :: rows) 0
                  (set_pendingRows [] s)) as [H1 [k H2]].
      cbn in H1, H2. split; [auto|]. exists k. split; [exact H2|].
      right. split; [reflexivity | discriminate].
  - split; [discriminate|]. exists 0%nat. cbn. rewrite app_nil_r. auto.
Qed.

(** [insert(rows)], step by step. *)
Lemma insert_eq fuel rows (s : St) :
  insert config backend engine fuel rows s =
  match (if connection s then (s, Return tt) else connect config backend s)
  with
  | (s1, Return _) =>
      if fits engine rows then
        let s2 := set_pendingRows (pendingRows s1 ++ rows) s1 in
        if Z.of_nat (length (pendingRows s2))
           >=? or_default (batchSize config) 1000
        then flushBatch config backend fuel s2
        else (s2, Return tt)
      else (s1, Throw (stack_overflow engine))
  | (s1, Throw e) => (s1, Throw e)
  | (s1, Hang) => (s1, Hang)
  end.
Proof.
  unfold insert, spread, bind, get, modify, when, ret.
  destruct (connection s); cbn -[Z.geb flushBatch connect Z.of_nat fits].
  - destruct (fits engine rows); [|reflexivity].
    cbn -[Z.geb flushBatch connect Z.of_nat].
    destruct (Z.geb _ _); reflexivity.
  - destruct (connect config backend s) as [s1 [[]|e|]];
      try reflexivity.
    destruct (fits engine rows); [|reflexivity].
    cbn -[Z.geb flushBatch connect Z.of_nat].
    destruct (Z.geb _ _); reflexivity.
Qed.

(** [insert(rows)] writes nothing while the buffer is below the batch
    size; from there on it writes the whole buffer, as one group. *)
Lemma insert_spec fuel rows (s : St) :
  exists k : nat,
    write_groups (events (fst (insert config backend engine fuel rows s))) =
      write_groups (events s) ++ replicate k (pendingRows s ++ rows) /\
    (k = 0%nat \/
     or_default (batchSize config) 1000
       <= Z.of_nat (length (pendingRows s ++ rows))).
Proof.
  rewrite insert_eq.
  assert (exists s1 r,
            (if connection s then (s, Return tt)
             else connect config backend s) = (s1, r) /\ untouched s s1)
    as (s1 & r & -> & Hp & Hw).
  { destruct (connection s).
    - exists s, (Return tt). split; [reflexivity | apply untouched_refl].
    - pose proof (connect_untouched s) as H.
      destruct (connect config backend s) as [s1 r]. eauto. }
  destruct r as [[]|e|]; cbn [fst];
    try solve [exists 0%nat; cbn; rewrite app_nil_r; auto].
  destruct (fits engine rows);
    [|exists 0%nat; cbn; rewrite app_nil_r; auto].
  cbv zeta. destruct (Z.geb _ _) eqn:Hge.
  - destruct (flushBatch_spec fuel
                (set_pendingRows (pendingRows s1 ++ rows) s1))
      as (_ & k & Hk & _).
    cbn [set_pendingRows pendingRows events] in Hk, Hge.
    exists k. rewrite Hk, Hw, Hp. split; [reflexivity|].
    right. rewrite Hp in Hge. lia.
  - exists 0%nat. cbn. rewrite app_nil_r. auto.
Qed.

(** With an empty buffer [close()] writes no rows. *)
Lemma close_untouched fuel (s : St) :
  pendingRows s = [] -> untouched s (fst (close config backend fuel s)).
Proof.
  intros Hp.
  pose proof untouched_refl. pose proof untouched_trans.
  unfold close. apply try_finally_at; [assumption| |].
  - unfold bind at 1. unfold get at 1. rewrite Hp. cbn [length Nat.ltb
      Nat.leb when]. unfold bind at 1. unfold ret at 1.
    match goal with |- untouched s (fst (?m s)) =>
      assert (respects untouched m) as Hm; [|apply Hm] end.
    unfold execute. repeat untouched_step.
  - unfold execute. repeat untouched_step.
Qed.

(** C10.  On a connected driver [flushBatch()] leaves the buffer empty
    however the flush ends; so after a flush that failed for good,
    [close()] writes no rows at all and [insert(rows2)] writes groups made
    of [rows2] only: the rows of the failed flush are not sent again. *)
Theorem C10_failed_flush_rows_leave_the_buffer
    (fuel fuel' : nat) (s : St) :
  connection s = true ->
  let s1 := fst (flushBatch config backend fuel s) in
  pendingRows s1 = [] /\
  write_groups (events (fst (close config backend fuel' s1))) =
    write_groups (events s1) /\
  forall rows2, exists k : nat,
    write_groups
      (events (fst (insert config backend engine fuel' rows2 s1))) =
      write_groups (events s1) ++ replicate k rows2.
Proof.
  intros Hc s1.
  assert (pendingRows s1 = []) as Hp
    by (apply (flushBatch_spec fuel s); assumption).
  split; [assumption|]. split.
  - apply close_untouched, Hp.
  - intros rows2. destruct (insert_spec fuel' rows2 s1) as (k & Hk & _).
    exists k. rewrite Hk, Hp. reflexivity.
Qed.


End Facts.

Lemma count_inserts_app (xs ys : list Event) :
  count_inserts (xs ++ ys) = (count_inserts xs + count_inserts ys)%nat.
Proof. unfold count_inserts. rewrite omap_app, length_app. reflexivity. Qed.

(** When every [INSERT] fails, the retry loop entered at [attempt] issues
    [maxRetries - attempt] inserts and then throws: counted from 0 that is
    [maxRetries] attempts in all, one fewer than a first attempt followed
    by [maxRetries] retries. *)
Lemma retry_loop_every_insert_fails (config : Config) (rows : list Row)
    (fuel : nat) : forall (attempt : Z) (s : St),
  enabled config = true ->
  currentTransaction s = false ->
  attempt < or_default (maxRetries config) 3 ->
  (Z.to_nat (or_default (maxRetries config) 3 - attempt) <= fuel)%nat ->
  let r := retry_loop config Scenarios.insert_always_fails fuel rows
             attempt s in
  snd r = Throw "write failed" /\
  count_inserts (events (fst r)) =
    (count_inserts (events s)
     + Z.to_nat (or_default (maxRetries config) 3 - attempt))%nat.
Proof.
  induction fuel as [|fuel IH]; intros attempt s He Hc Hlt Hfuel; [lia|].
  cbn [retry_loop].
  destruct (attempt <? _) eqn:Hltb; [|lia].
  unfold try_catch, bind, get, when, execute, await_call, modify,
    record_event, of_result, ret, throw.
  rewrite He, Hc.
  cbn -[Z.pow Z.mul Z.add Z.geb Z.sub Z.to_nat retry_loop or_default
        count_inserts].
  destruct (attempt + 1 >=? _) eqn:Hge;
    cbn -[Z.pow Z.mul Z.add Z.geb Z.sub Z.to_nat retry_loop or_default
          count_inserts].
  - split; [reflexivity|].
    rewrite !count_inserts_app.
    replace (or_default (maxRetries config) 3 - attempt) with 1 by lia.
    cbn -[count_inserts]. change (count_inserts [Exec StartTransaction])
      with 0%nat. change (count_inserts [Exec (InsertRows rows)]) with 1%nat.
    change (count_inserts [Exec Rollback]) with 0%nat. lia.
  - match goal with |- context [retry_loop _ _ _ _ _ ?x] =>
      destruct (IH (attempt + 1) x He eq_refl ltac:(lia) ltac:(lia))
        as [Hr Hn] end.
    split; [exact Hr|]. rewrite Hn.
    cbn [events]. rewrite !count_inserts_app.
    change (count_inserts [Exec StartTransaction]) with 0%nat.
    change (count_inserts [Exec (InsertRows rows)]) with 1%nat.
    change (count_inserts [Exec Rollback]) with 0%nat.
    change (count_inserts [Sleep (2 ^ (attempt + 1) * 1000)]) with 0%nat.
    lia.
Qed.

End DatabricksFacts.

(* ===================================================================== *)
(** * Properties of the Snowflake writer *)
(* ===================================================================== *)

Module SnowflakeFacts.
Import Snowflake Frame.





Section Facts.
Variable config : Config.
Variable backend : Backend.
Variable n : Z.








(** ** Enough fuel: [insert(rows)] returns or throws *)

Lemma executeQuery_total stmt : total (executeQuery backend stmt).
Proof.
  intros s. unfold executeQuery. destruct (negb (connection s)); discriminate.
Qed.

Lemma await_query_total stmt : total (await_query backend stmt).
Proof.
  unfold await_query. apply total_bind; [apply executeQuery_total|].
  intros ?. apply total_of_result.
Qed.

Lemma dispatch_total columns batch : total (dispatch backend columns batch).
Proof.
  induction batch as [|row batch IH]; cbn [dispatch]; [apply total_ret|].
  apply total_bind; [apply executeQuery_total | intros ?].
  apply total_bind; [exact IH | intros ?; apply total_ret].
Qed.

(** One promise per row of the sub-batch. *)
Lemma dispatch_length columns batch : forall (s s' : St) promises,
  dispatch backend columns batch s = (s', Return promises) ->
  length promises = length batch.
Proof.
  induction batch as [|row batch IH]; intros s s' promises; cbn [dispatch].
  - intros H. injection H as _ <-. reflexivity.
  - unfold bind.
    destruct (executeQuery backend _ s) as [s1 [p|e|]]; try discriminate.
    destruct (dispatch backend columns batch s1) as [s2 [ps|e|]] eqn:Hd;
      try discriminate.
    intros H. injection H as _ <-. cbn. f_equal. eapply IH, Hd.
Qed.

Lemma await_groups_total fuel : forall promises maxParallel j,
  0 < maxParallel -> 0 <= j ->
  (Z.to_nat (Z.of_nat (length promises) - j) < fuel)%nat ->
  total (await_groups fuel promises maxParallel j).
Proof.
  induction fuel as [|fuel IH]; intros promises maxParallel j Hp Hj Hfuel;
    [lia|].
  cbn [await_groups]. destruct (j <? _) eqn:Hlt; [|apply total_ret].
  apply total_bind.
  - unfold await_all. destruct (omap id _); [apply total_ret|apply total_throw].
  - intros _. apply IH; lia.
Qed.

Lemma for_batches_total fuel : forall rows columns maxParallel i,
  0 < n -> 0 < maxParallel -> 0 <= i ->
  (Z.to_nat (Z.of_nat (length rows) - i) + 2 <= fuel)%nat ->
  total (for_batches backend fuel rows columns n maxParallel i).
Proof.
  induction fuel as [|fuel IH]; intros rows columns maxParallel i Hn Hp Hi
    Hfuel; [lia|].
  cbn [for_batches]. destruct (i <? _) eqn:Hlt; [|apply total_ret].
  apply total_bind; [apply total_modify | intros _].
  intros s. unfold bind.
  pose proof (dispatch_total columns (slice rows i (i + n)) s) as Hd.
  destruct (dispatch backend columns (slice rows i (i + n)) s)
    as [s1 [promises|e|]] eqn:Hdispatch; cbn in Hd;
    [|discriminate|congruence].
  apply dispatch_length in Hdispatch.
  assert (Z.of_nat (length promises) <= Z.of_nat (length rows) - i) as Hlen.
  { rewrite Hdispatch. unfold slice. rewrite length_take, length_drop.
    destruct (i <? 0) eqn:Hi0, (i + n <? 0) eqn:Hin; lia. }
  apply (total_bind (await_groups fuel promises maxParallel 0)
           (fun _ => for_batches backend fuel rows columns n maxParallel
                       (i + n))).
  - apply await_groups_total; lia.
  - intros _. apply IH; lia.
Qed.

Lemma executeInsert_total fuel : forall rows maxRetries_ retryDelay_ count,
  n = batch_size config -> 0 < n -> 0 < max_parallel config ->
  (length rows + Z.to_nat (maxRetries_ - count) + 3 <= fuel)%nat ->
  total (executeInsert config backend fuel rows maxRetries_ retryDelay_
           count).
Proof.
  induction fuel as [|fuel IH]; intros rows maxRetries_ retryDelay_ count
    Hsize Hn Hp Hfuel; [lia|].
  cbn [executeInsert]. apply total_try_catch; [|intros error].
  - apply total_bind; [apply total_when, await_query_total | intros _].
    apply total_bind; [|intros _].
    { destruct (query_timeout config);
        [apply await_query_total | apply total_ret]. }
    destruct rows as [|sample rows]; [apply total_throw|].
    apply total_bind; [|intros _; apply total_when, await_query_total].
    rewrite <- Hsize. apply for_batches_total; lia.
  - apply total_bind; [apply total_when, await_query_total | intros _].
    destruct (count <? maxRetries_) eqn:Hlt; [|apply total_throw].
    apply total_bind; [apply total_modify | intros _].
    apply IH; try assumption. lia.
Qed.

(** With a positive batch size and parallel limit, fuel for every row and
    every retry is enough: [insert(rows)] does not hang. *)
Lemma insert_total fuel rows :
  n = batch_size config -> 0 < n -> 0 < max_parallel config ->
  (length rows + Z.to_nat (max_retries config) + 3 <= fuel)%nat ->
  total (insert config backend fuel rows).
Proof.
  intros Hsize Hn Hp Hfuel. unfold insert.
  apply total_bind; [apply total_get | intros s0].
  destruct (negb (connection s0)); [apply total_throw|].
  destruct (length rows =? 0)%nat; [apply total_ret|].
  apply total_try_catch; [|intros error; apply total_throw].
  apply executeInsert_total; try assumption. lia.
Qed.


End Facts.
End SnowflakeFacts.

(* ===================================================================== *)
(** * What the writers are observed to do *)
(* ===================================================================== *)

Module Observations.

(** The waits between attempts, in milliseconds. *)
Definition sleeps (evs : list Event) : list Z :=
  omap (fun ev => match ev with Sleep ms => Some ms | _ => None end) evs.

Lemma sleeps_app (xs ys : list Event) :
  sleeps (xs ++ ys) = sleeps xs ++ sleeps ys.
Proof. apply omap_app. Qed.

(** Opening and closing connections and clients. *)
Definition is_lifecycle (ev : Event) : bool :=
  match ev with
  | OpenConnection | CloseConnection | CloseClient => true
  | _ => false
  end.

Definition lifecycle (evs : list Event) : list Event :=
  List.filter is_lifecycle evs.

Lemma lifecycle_app (xs ys : list Event) :
  lifecycle (xs ++ ys) = lifecycle xs ++ lifecycle ys.
Proof. apply List.filter_app. Qed.

(** A back end that accepts every call. *)
Definition healthy (backend : Backend) : Prop :=
  forall history ev, respond backend history ev = None.

(** Promises that all resolved. *)
Lemma omap_id_resolved {A} (promises : list (option A)) :
  Forall (fun p => p = None) promises -> omap id promises = [].
Proof. induction 1 as [|p ps -> _ IH]; cbn; auto. Qed.

(** Cutting [rows] from [i] on in slices of [n] loses and repeats nothing. *)
Lemma slice_then_rest {A} (rows : list A) (i n : Z) :
  0 <= i -> 0 < n ->
  slice rows i (i + n) ++ drop (Z.to_nat (i + n)) rows
  = drop (Z.to_nat i) rows.
Proof.
  intros Hi Hn. unfold slice.
  destruct (i <? 0) eqn:Hi0; [lia|]. destruct (i + n <? 0) eqn:Hin; [lia|].
  destruct (Z_le_gt_dec (Z.of_nat (length rows)) i) as [Hge|Hlt].
  - rewrite !drop_ge by lia. now rewrite take_nil.
  - replace (Z.to_nat (Z.min i (Z.of_nat (length rows)))) with (Z.to_nat i)
      by lia.
    destruct (Z_le_gt_dec (i + n) (Z.of_nat (length rows))) as [Hfit|Hover].
    + replace (Z.to_nat (Z.min (i + n) (Z.of_nat (length rows))
                         - Z.min i (Z.of_nat (length rows))))
        with (Z.to_nat n) by lia.
      replace (Z.to_nat (i + n)) with (Z.to_nat i + Z.to_nat n)%nat by lia.
      rewrite <- drop_drop. apply take_drop.
    + rewrite (drop_ge rows (Z.to_nat (i + n))) by lia.
      rewrite app_nil_r. apply take_ge. rewrite length_drop. lia.
Qed.

End Observations.

(* ===================================================================== *)
(** * More on the pipeline: connecting, running, delivering *)
(* ===================================================================== *)

Module PipelineRun.
Import Pipeline Frame PipelineFacts.

Section Facts.
Context {Item S D : Type}.
Variable source : ISourceDriver Item S.
Variable destination : IDestinationDriver Item D.
Variable transformer : option (list Item -> Completion (list Item)).
Variable logger : bool.
Variable clock : nat -> string.

Abbreviation St := (St Item S D).
Abbreviation cleanup := (cleanup source destination logger).
Abbreviation connect := (connect source destination logger).
Abbreviation process_batch :=
  (process_batch destination transformer logger clock).
Abbreviation process := (process source destination transformer logger clock).
Abbreviation run := (run source destination transformer logger clock).
Abbreviation transformed := (transformed transformer).
Abbreviation logged := (logged logger).

(** The calls made on the two drivers, the logger's left out. *)
Definition is_driver_call (c : Call Item) : bool :=
  match c with
  | Logger _ _ _ => false
  | _ => true
  end.

Definition driver_calls (cs : list (Call Item)) : list (Call Item) :=
  List.filter is_driver_call cs.

Lemma driver_calls_app (xs ys : list (Call Item)) :
  driver_calls (xs ++ ys) = driver_calls xs ++ driver_calls ys.
Proof. apply List.filter_app. Qed.

Lemma driver_calls_logged level m d (s : St) :
  driver_calls (calls (logged level m d s)) = driver_calls (calls s).
Proof.
  unfold PipelineFacts.logged. destruct logger; [|reflexivity].
  unfold record_call; cbn [calls]. rewrite driver_calls_app. cbn.
  apply app_nil_r.
Qed.

Lemma logged_connected level m d (s : St) :
  connected (this (logged level m d s)) = connected (this s).
Proof. now rewrite logged_this. Qed.

(** [cleanup()], in full: both closes, in this order, and nothing else. *)
Lemma cleanup_calls (s : St) :
  snd (cleanup s) = Return tt /\
  driver_calls (calls (fst (cleanup s))) =
    driver_calls (calls s) ++ [SourceClose; DestinationClose] /\
  connected (this (fst (cleanup s))) = false /\
  getMetrics (fst (cleanup s)) = getMetrics s.
Proof.
  unfold Pipeline.cleanup, try_catch, bind, await_source, await_destination,
    Pipeline.log, when, modify, ret, throw, of_result, getMetrics,
    driver_calls.
  destruct logger; cbn;
    destruct (source_close source (source_state s)) as [s1 [e1|]]; cbn;
    destruct (destination_close destination (destination_state s))
      as [d1 [e2|]]; cbn;
    rewrite ?List.filter_app; cbn; rewrite <- ?app_assoc, ?app_nil_r; cbn;
    auto.
Qed.

(** How [connect()] ends on a pipeline that is not yet connected, by what
    the two [connect()] calls of the drivers do. *)
Lemma connect_cases (s : St) :
  connected (this s) = false ->
  let '(s1, r1) := source_connect source (source_state s) in
  let '(d1, r2) := destination_connect destination (destination_state s) in
  let s' := fst (connect s) in
  getMetrics s' = getMetrics s /\
  match r1, r2 with
  | Some e, _ =>
      snd (connect s) = Throw e /\ connected (this s') = false /\
      driver_calls (calls s') =
        driver_calls (calls s)
        ++ [SourceConnect; SourceClose; DestinationClose]
  | None, Some e =>
      snd (connect s) = Throw e /\ connected (this s') = false /\
      driver_calls (calls s') =
        driver_calls (calls s)
        ++ [SourceConnect; DestinationConnect; SourceClose; DestinationClose]
  | None, None =>
      snd (connect s) = Return tt /\ connected (this s') = true /\
      driver_calls (calls s') =
        driver_calls (calls s) ++ [SourceConnect; DestinationConnect]
  end.
Proof.
  intros Hc.
  unfold Pipeline.connect, Pipeline.cleanup, try_catch, bind, get,
    await_source, await_destination, Pipeline.log, when, modify, ret, throw,
    of_result, getMetrics, driver_calls.
  rewrite Hc.
  destruct logger; cbn;
    destruct (source_connect source (source_state s)) as [s1 [e1|]]; cbn;
    destruct (destination_connect destination (destination_state s))
      as [d1 [e2|]]; cbn;
    repeat match goal with
      | |- context [source_close source ?x] =>
          destruct (source_close source x) as [? [?|]]; cbn
      | |- context [destination_close destination ?x] =>
          destruct (destination_close destination x) as [? [?|]]; cbn
      end;
    rewrite ?List.filter_app; cbn; rewrite <- ?app_assoc, ?app_nil_r; cbn;
    auto.
Qed.

Lemma connect_connected (s : St) :
  connected (this s) = true -> connect s = (s, Return tt).
Proof. intros Hc. unfold Pipeline.connect, bind, get. now rewrite Hc. Qed.

Lemma connect_never_hangs (s : St) : snd (connect s) <> Hang.
Proof.
  destruct (connected (this s)) eqn:Hc.
  - rewrite connect_connected by assumption. discriminate.
  - pose proof (connect_cases s Hc) as H.
    destruct (source_connect source (source_state s)) as [s1 [e1|]],
      (destination_connect destination (destination_state s)) as [d1 [e2|]];
      destruct H as (_ & -> & _); discriminate.
Qed.

Lemma connect_metrics (s : St) : getMetrics (fst (connect s)) = getMetrics s.
Proof.
  destruct (connected (this s)) eqn:Hc.
  - now rewrite connect_connected.
  - pose proof (connect_cases s Hc) as H.
    destruct (source_connect source (source_state s)) as [s1 r1],
      (destination_connect destination (destination_state s)) as [d1 r2].
    apply H.
Qed.

(** X1.  [connect()] is idempotent: once a call has returned, a second call
    returns at once, calls neither driver and changes nothing. *)
Theorem X1_connect_is_idempotent (s s1 : St) :
  connect s = (s1, Return tt) ->
  connected (this s1) = true /\ connect s1 = (s1, Return tt).
Proof.
  intros H.
  assert (connected (this s1) = true) as Hc.
  { destruct (connected (this s)) eqn:Hc.
    - rewrite connect_connected in H by assumption. now injection H as <-.
    - pose proof (connect_cases s Hc) as Hcases. rewrite H in Hcases.
      destruct (source_connect source (source_state s)) as [x [e1|]],
        (destination_connect destination (destination_state s)) as [d [e2|]];
        cbn in Hcases; destruct Hcases as (_ & Hr & Hconn & _);
        try discriminate; exact Hconn. }
  split; [exact Hc | apply connect_connected, Hc].
Qed.

(** The calls [connect()] makes before it fails with [e]: the source did
    not connect, or the source did and the destination did not. *)
Inductive connect_fails (s : St) (e : Error) : list (Call Item) -> Prop :=
| source_connect_fails s1 :
    source_connect source (source_state s) = (s1, Some e) ->
    connect_fails s e [SourceConnect]
| destination_connect_fails s1 d1 :
    source_connect source (source_state s) = (s1, None) ->
    destination_connect destination (destination_state s) = (d1, Some e) ->
    connect_fails s e [SourceConnect; DestinationConnect].

(** X2.  When connecting fails, [run()] throws that error without fetching
    or inserting anything; a destination whose turn never came is not
    connected; and both drivers are closed all the same. *)
Theorem X2_run_with_failed_connect_closes_and_rethrows
    (s : St) (e : Error) (attempted : list (Call Item)) :
  connected (this s) = false ->
  connect_fails s e attempted ->
  snd (run s) = Throw e /\
  driver_calls (calls (fst (run s))) =
    driver_calls (calls s) ++ attempted ++ [SourceClose; DestinationClose] /\
  connected (this (fst (run s))) = false /\
  getMetrics (fst (run s)) = getMetrics s.
Proof.
  intros Hc Hf. pose proof (connect_cases s Hc) as H.
  unfold Pipeline.run, bind.
  destruct Hf as [s1 Hs|s1 d1 Hs Hd]; rewrite Hs in H.
  - destruct (destination_connect destination (destination_state s))
      as [d1 r2].
    destruct H as (Hm & Hr & Hconn & Hcalls).
    destruct (connect s) as [s' r]; cbn in *. subst r. auto.
  - rewrite Hd in H. destruct H as (Hm & Hr & Hconn & Hcalls).
    destruct (connect s) as [s' r]; cbn in *. subst r. auto.
Qed.

(** ** What reaches the destination *)

Lemma after_batch_driver_calls batch tb d' (s : St) :
  driver_calls (calls (after_batch logger clock batch tb d' s)) =
  driver_calls (calls s) ++ [DestinationInsert tb].
Proof.
  unfold after_batch. rewrite driver_calls_logged. cbn [calls].
  now rewrite driver_calls_app.
Qed.

Lemma after_refusal_driver_calls batch tb d' e (s : St) :
  driver_calls (calls (after_refusal logger batch tb d' e s)) =
  driver_calls (calls s) ++ [DestinationInsert tb].
Proof.
  unfold after_refusal. rewrite driver_calls_logged. cbn [calls].
  now rewrite driver_calls_app.
Qed.

(** What a loop over [gen] hands to the destination: the transformed
    images of the first [n] batches, in order, and no other driver call. *)
Definition delivered (gen : Gen Item) (s s' : St) (n : nat) : Prop :=
  exists bs,
    (n <= length (yielded gen))%nat /\
    Forall2 (fun batch tb => transformed batch = Return tb)
      (take n (yielded gen)) bs /\
    inserted (calls s') = inserted (calls s) ++ bs /\
    driver_calls (calls s') =
      driver_calls (calls s) ++ map DestinationInsert bs.

Lemma for_await_delivered gen : forall s : St,
  exists n,
    delivered gen s (fst (for_await gen process_batch s)) n /\
    (snd (for_await gen process_batch s) = Return tt ->
     n = length (yielded gen)).
Proof.
  assert (forall g (s : St), delivered g s s 0) as Hnone.
  { intros g s. exists []. cbn. rewrite !app_nil_r.
    repeat split; [lia | constructor]. }
  induction gen as [|e|batch rest IH]; intros s; cbn [for_await].
  - exists 0%nat. split; [apply Hnone | reflexivity].
  - exists 0%nat. split; [apply Hnone | discriminate].
  - unfold bind. rewrite process_batch_eq.
    destruct (Pipeline.transformed transformer batch) as [tb|e|] eqn:Ht.
    + destruct (destination_insert destination (destination_state s) tb)
        as [d' [e|]].
      * exists 1%nat. split; [|discriminate]. exists [tb]. cbn.
        rewrite after_refusal_inserted, after_refusal_driver_calls.
        repeat split; [lia | repeat constructor; exact Ht].
      * destruct (IH (after_batch logger clock batch tb d' s))
          as (n & (bs & Hn & Hall & Hins & Hcalls) & Hret).
        exists (Datatypes.S n). split; [|intros H; cbn; f_equal; auto].
        exists (tb :: bs). cbn.
        rewrite Hins, Hcalls, after_batch_inserted,
          after_batch_driver_calls, <- !app_assoc.
        repeat split; [lia | constructor; assumption].
    + exists 0%nat. split; [|discriminate]. exists []. cbn.
      rewrite logged_inserted, driver_calls_logged, !app_nil_r.
      repeat split; [lia | constructor].
    + exists 0%nat. split; [apply Hnone | discriminate].
Qed.

Lemma process_delivered (s : St) :
  exists n,
    delivered (source_fetch source (source_state s)) s (fst (process s)) n /\
    (snd (process s) = Return tt ->
     n = length (yielded (source_fetch source (source_state s)))).
Proof.
  rewrite process_eq.
  destruct (for_await_delivered (source_fetch source (source_state s))
              (logged LInfo StartingDataProcessing NoData s))
    as (n & (bs & Hn & Hall & Hins & Hcalls) & Hret).
  rewrite logged_inserted, driver_calls_logged in *.
  exists n.
  destruct (for_await _ _ _) as [s1 [[]|e|]]; cbn [fst snd] in *;
    (split; [exists bs|]);
    rewrite ?logged_inserted, ?driver_calls_logged; auto; discriminate.
Qed.

(** X3.  When [process()] returns, the destination has received one batch
    per batch the source yielded, in the order yielded, each the
    transformer's image of its original (the original itself when no
    transformer is configured). *)
Theorem X3_destination_receives_every_batch_in_order (s s' : St) :
  process s = (s', Return tt) ->
  Forall2 (fun batch tb => transformed batch = Return tb)
    (yielded (source_fetch source (source_state s)))
    (drop (length (inserted (calls s))) (inserted (calls s'))).
Proof.
  intros H. destruct (process_delivered s) as (n & (bs & _ & Hall & Hins & _)
    & Hret).
  rewrite H in *. cbn in *. rewrite Hins, drop_app_length.
  rewrite (Hret eq_refl), firstn_all in Hall. exact Hall.
Qed.

(** ** [run()]: the [finally] *)

(** [try { process() } finally { cleanup() }] from [s1], when it does not
    hang: it completes as [process()] did, with the metrics [process()]
    left, after inserts and then the two closes. *)
Lemma process_finally_cleanup (s1 : St) :
  snd (try_finally process cleanup s1) <> Hang ->
  snd (try_finally process cleanup s1) = snd (process s1) /\
  getMetrics (fst (try_finally process cleanup s1)) =
    getMetrics (fst (process s1)) /\
  connected (this (fst (try_finally process cleanup s1))) = false /\
  exists bs,
    driver_calls (calls (fst (try_finally process cleanup s1))) =
      driver_calls (calls s1) ++ map DestinationInsert bs
      ++ [SourceClose; DestinationClose].
Proof.
  destruct (process_delivered s1) as (n & (bs & _ & _ & _ & Hcalls) & _).
  unfold try_finally.
  destruct (process s1) as [s2 r] eqn:Hp. cbn [fst snd] in *.
  pose proof (cleanup_calls s2) as (Hr & Hc & Hconn & Hm).
  destruct (cleanup s2) as [s3 r3]. cbn [fst snd] in *. subst r3.
  destruct r as [[]|e|]; cbn [fst snd]; intros Hh; try congruence;
    (repeat split; try assumption; exists bs;
     rewrite Hc, Hcalls, <- app_assoc; reflexivity).
Qed.

(** X4.  Whenever [run()] returns or throws, it has closed the source and
    then the destination exactly once each, as its last two driver calls,
    and the pipeline is no longer connected - whether connecting, fetching,
    transforming or inserting failed, or nothing did. *)
Theorem X4_run_closes_each_driver_exactly_once (s : St) :
  snd (run s) <> Hang ->
  connected (this (fst (run s))) = false /\
  exists mid,
    driver_calls (calls (fst (run s))) =
      driver_calls (calls s) ++ mid ++ [SourceClose; DestinationClose] /\
    ~ In SourceClose mid /\ ~ In DestinationClose mid.
Proof.
  assert (forall bs : list (list Item),
            ~ In SourceClose (map DestinationInsert bs) /\
            ~ In DestinationClose (map DestinationInsert bs)) as Hmap.
  { intros bs. split; intros H; apply in_map_iff in H as (b & Hb & _);
      discriminate. }
  unfold Pipeline.run, bind.
  destruct (connected (this s)) eqn:Hc.
  - rewrite connect_connected by assumption. intros Hh.
    destruct (process_finally_cleanup s Hh) as (_ & _ & Hconn & bs & Hcalls).
    split; [assumption|]. exists (map DestinationInsert bs).
    split; [assumption | apply Hmap].
  - pose proof (connect_cases s Hc) as H.
    destruct (source_connect source (source_state s)) as [x [e1|]],
      (destination_connect destination (destination_state s)) as [d [e2|]];
      destruct H as (_ & Hr & Hconn & Hcalls);
      destruct (connect s) as [s1 r1]; cbn [fst snd] in *; subst r1.
    + intros _. split; [assumption|]. exists [SourceConnect].
      split; [assumption|]. split; intros [H|[]]; discriminate.
    + intros _. split; [assumption|]. exists [SourceConnect].
      split; [assumption|]. split; intros [H|[]]; discriminate.
    + intros _. split; [assumption|].
      exists [SourceConnect; DestinationConnect].
      split; [assumption|]. split; intros [H|[H|[]]]; discriminate.
    + intros Hh.
      destruct (process_finally_cleanup s1 Hh)
        as (_ & _ & Hconn' & bs & Hcalls').
      split; [assumption|].
      exists ([SourceConnect; DestinationConnect] ++ map DestinationInsert bs).
      rewrite Hcalls', Hcalls, <- !app_assoc. split; [reflexivity|].
      destruct (Hmap bs) as [H1 H2].
      split; intros H; apply in_app_or in H as [[H|[H|[]]]|H];
        try discriminate; auto.
Qed.

(** X5.  Once connected, [run()] ends exactly as [process()] ends: it
    returns when [process()] returns and throws the very error [process()]
    throws, and [getMetrics()] is what [process()] left.  Failures of the
    two [close()] calls never replace that outcome. *)
Theorem X5_run_ends_as_process_ends (s s1 : St) :
  connect s = (s1, Return tt) ->
  snd (process s1) <> Hang ->
  snd (run s) = snd (process s1) /\
  getMetrics (fst (run s)) = getMetrics (fst (process s1)).
Proof.
  intros Hc Hp. unfold Pipeline.run, bind. rewrite Hc.
  assert (snd (try_finally process cleanup s1) <> Hang) as Hh.
  { unfold try_finally. destruct (process s1) as [s2 r]. cbn in Hp.
    pose proof (cleanup_calls s2) as (Hr & _).
    destruct (cleanup s2) as [s3 r3]. cbn in Hr. subst r3.
    destruct r as [[]|e|]; cbn; congruence. }
  destruct (process_finally_cleanup s1 Hh) as (H1 & H2 & _). auto.
Qed.

(** ** The counters *)

(** What [getMetrics()] shows is coherent: with no cursor nothing has been
    counted; with a cursor, its position is [totalRows] and at least one
    batch has been counted. *)
Definition coherent (m : Metrics Item) : Prop :=
  0 <= m_totalRows m /\
  match m_cursor m with
  | None => m_batchCount m = 0 /\ m_totalRows m = 0
  | Some c => position c = m_totalRows m /\ 0 < m_batchCount m
  end.

(** From [m] to [m'] the counters did not go down, and coherence is kept. *)
Definition grows (m m' : Metrics Item) : Prop :=
  (coherent m -> coherent m') /\
  m_batchCount m <= m_batchCount m' /\
  m_totalRows m <= m_totalRows m'.

Lemma grows_refl m : grows m m.
Proof. unfold grows. split; [auto | lia]. Qed.

Lemma grows_trans m1 m2 m3 : grows m1 m2 -> grows m2 m3 -> grows m1 m3.
Proof.
  unfold grows. intros (H1 & H2 & H3) (H4 & H5 & H6). split; [auto | lia].
Qed.

Lemma for_await_grows gen : forall s : St,
  grows (getMetrics s) (getMetrics (fst (for_await gen process_batch s))).
Proof.
  induction gen as [|e|batch rest IH]; intros s; cbn [for_await];
    try apply grows_refl.
  unfold bind. rewrite process_batch_eq.
  destruct (Pipeline.transformed transformer batch) as [tb|e|].
  - destruct (destination_insert destination (destination_state s) tb)
      as [d' [e|]]; cbn [fst].
    + unfold after_refusal, getMetrics. rewrite logged_this.
      apply grows_refl.
    + eapply grows_trans; [|apply IH].
      rewrite after_batch_metrics. unfold grows, coherent, getMetrics. cbn.
      split; [|lia]. intros [H0 H]. split; [lia|].
      destruct (currentCursor (this s)); lia.
  - cbn [fst]. unfold getMetrics. rewrite logged_this. apply grows_refl.
  - apply grows_refl.
Qed.

Lemma process_grows (s : St) :
  grows (getMetrics s) (getMetrics (fst (process s))).
Proof.
  rewrite process_eq.
  pose proof (for_await_grows (source_fetch source (source_state s))
                (logged LInfo StartingDataProcessing NoData s)) as H.
  assert (getMetrics (logged LInfo StartingDataProcessing NoData s)
          = getMetrics s) as Hs
    by (unfold getMetrics; now rewrite logged_this).
  rewrite Hs in H.
  destruct (for_await _ _ _) as [s1 [[]|e|]]; cbn [fst] in *;
    unfold getMetrics in *; rewrite ?logged_this; exact H.
Qed.

(** X6.  Through a whole [run()], however it ends, [batchCount] and
    [totalRows] never go down and the metrics stay coherent: the cursor is
    absent exactly while nothing has been counted, and otherwise its
    [position] equals [totalRows]. *)
Theorem X6_run_keeps_metrics_coherent (s : St) :
  coherent (getMetrics s) ->
  coherent (getMetrics (fst (run s))) /\
  m_batchCount (getMetrics s) <= m_batchCount (getMetrics (fst (run s))) /\
  m_totalRows (getMetrics s) <= m_totalRows (getMetrics (fst (run s))).
Proof.
  intros Hs.
  assert (grows (getMetrics s) (getMetrics (fst (run s)))) as (H & Hb & Hr).
  { unfold Pipeline.run, bind. pose proof (connect_metrics s) as Hm.
    destruct (connect s) as [s1 [[]|e|]]; cbn [fst] in *;
      try (rewrite Hm; apply grows_refl).
    rewrite <- Hm. pose proof (process_grows s1) as Hp.
    unfold try_finally. destruct (process s1) as [s2 r]. cbn [fst] in Hp.
    pose proof (cleanup_calls s2) as (_ & _ & _ & Hc).
    destruct (cleanup s2) as [s3 [[]|e'|]]; cbn [fst] in *;
      destruct r as [[]|e|]; cbn [fst]; rewrite ?Hc; exact Hp. }
  auto.
Qed.

End Facts.
End PipelineRun.

(** ** The scenarios, run through [connect()] and [run()] *)

Module PipelineRunScenarios.
Import Pipeline PipelineFacts PipelineRun Scenarios MoreScenarios.

Lemma X1_connect_twice_witness :
  let s1 := fst (connect scenario_A_source accepting_destination true fresh) in
  connected (this s1) = true /\
  connect scenario_A_source accepting_destination true s1 = (s1, Return tt).
Proof.
  apply (X1_connect_is_idempotent scenario_A_source accepting_destination
           true fresh).
  reflexivity.
Defined.

Lemma X2_unreachable_source_witness :
  let r := run unreachable_source accepting_destination None true epoch
             fresh in
  snd r = Throw "source unreachable" /\
  driver_calls (calls (fst r)) =
    driver_calls (calls fresh) ++ [SourceConnect]
    ++ [SourceClose; DestinationClose] /\
  connected (this (fst r)) = false /\
  getMetrics (fst r) = getMetrics fresh.
Proof.
  apply (X2_run_with_failed_connect_closes_and_rethrows
           unreachable_source accepting_destination None true epoch fresh).
  - reflexivity.
  - apply source_connect_fails with (s1 := tt). reflexivity.
Defined.

Lemma X3_scenario_B_witness :
  let s := fresh in
  let s' := fst (process scenario_B_source accepting_destination
                   (Some times_ten) true epoch s) in
  Forall2 (fun batch tb => transformed (Some times_ten) batch = Return tb)
    (yielded (source_fetch scenario_B_source (source_state s)))
    (drop (length (inserted (calls s))) (inserted (calls s'))).
Proof.
  apply (X3_destination_receives_every_batch_in_order
           scenario_B_source accepting_destination (Some times_ten) true
           epoch fresh).
  reflexivity.
Defined.

Lemma X4_rejected_batch_witness :
  let r := run scenario_A_source (rejecting_destination 3) None true epoch
             fresh in
  connected (this (fst r)) = false /\
  exists mid,
    driver_calls (calls (fst r)) =
      driver_calls (calls fresh) ++ mid ++ [SourceClose; DestinationClose] /\
    ~ In SourceClose mid /\ ~ In DestinationClose mid.
Proof.
  apply (X4_run_closes_each_driver_exactly_once
           scenario_A_source (rejecting_destination 3) None true epoch fresh).
  vm_compute. discriminate.
Defined.

Lemma X5_rejected_batch_witness :
  let s1 := fst (connect scenario_A_source (rejecting_destination 3) true
                   fresh) in
  let p := process scenario_A_source (rejecting_destination 3) None true
             epoch s1 in
  let r := run scenario_A_source (rejecting_destination 3) None true epoch
             fresh in
  snd r = snd p /\ getMetrics (fst r) = getMetrics (fst p).
Proof.
  apply (X5_run_ends_as_process_ends
           scenario_A_source (rejecting_destination 3) None true epoch fresh).
  - reflexivity.
  - vm_compute. discriminate.
Defined.

Lemma X6_fresh_pipeline_witness :
  let r := run scenario_A_source (rejecting_destination 3) None true epoch
             fresh in
  coherent (getMetrics (fst r)) /\
  m_batchCount (getMetrics fresh) <= m_batchCount (getMetrics (fst r)) /\
  m_totalRows (getMetrics fresh) <= m_totalRows (getMetrics (fst r)).
Proof.
  apply (X6_run_keeps_metrics_coherent
           scenario_A_source (rejecting_destination 3) None true epoch fresh).
  vm_compute. repeat split; discriminate.
Defined.

End PipelineRunScenarios.

(* ===================================================================== *)
(** * The paging protocol of the source drivers *)
(* ===================================================================== *)

Module PaginatorProtocol.
Import Paginator Frame PaginatorFacts.

Section Protocol.
Variable config : Config.
Variable backend : Backend.

(** [lastRow[cursorField]] of a batch. *)
Definition cursor_of (rows : list Row) : Value :=
  match last rows with
  | Some lastRow => get_field lastRow (nullish (cursorField config) "")
  | None => VUndefined
  end.

(** Whether the loop goes round again after it has yielded [rows]. *)
Definition continues (rows : list Row) : bool :=
  truthy_string (cursorField config) && is_defined (cursor_of rows).

(** The parameters bound by the next query, given those of the previous one
    and the cursor value in hand. *)
Definition next_params (prev : list Value) (cursorValue : Value)
  : list Value :=
  match cursorParamsIndex config with
  | Some i =>
      if truthy_string (cursorField config) && is_defined cursorValue
      then array_set prev i cursorValue
      else prev
  | None => prev
  end.



Lemma next_params_undefined prev : next_params prev VUndefined = prev.
Proof.
  unfold next_params. destruct (cursorParamsIndex config); [|reflexivity].
  now rewrite andb_false_r.
Qed.

(** The three state changes of one round of the loop. *)
Definition wrote (l : nat) (cursorValue : Value) (s : St) : St :=
  match cursorParamsIndex config with
  | Some i =>
      if truthy_string (cursorField config) && is_defined cursorValue
      then fst (store l i cursorValue s)
      else s
  | None => s
  end.

Definition executed (l : nat) (s : St) : St :=
  {| heap := heap s; pool := pool s; connection := connection s;
     executions :=
       executions s ++ [(query config, default [] (heap s !! l))];
     yields := yields s |}.

Definition handed (rows : list Row) (s : St) : St :=
  {| heap := heap s; pool := pool s; connection := connection s;
     executions := executions s; yields := yields s ++ [rows] |}.

(** One round of the loop. *)
Lemma fetch_loop_round fuel l cursorValue (s : St) :
  fetch_loop config backend (Datatypes.S fuel) l cursorValue s =
  let s1 := wrote l cursorValue s in
  let s2 := executed l s1 in
  match execute backend (executions s1) (query config)
          (default [] (heap s1 !! l)) with
  | Rows [] | NoRows => (s2, Return tt)
  | QueryError e => (s2, Throw e)
  | Rows (row :: rows) =>
      if continues (row :: rows)
      then fetch_loop config backend fuel l (cursor_of (row :: rows))
             (handed (row :: rows) s2)
      else (handed (row :: rows) s2, Return tt)
  end.
Proof.
  cbn [fetch_loop]. unfold wrote, continues, cursor_of, bind, await_execute,
    when, ret, yield, modify, executed, handed.
  destruct (cursorParamsIndex config) as [i|];
    [destruct (_ && is_defined cursorValue)|]; cbn;
    match goal with |- context [execute backend ?h ?q ?b] =>
      destruct (execute backend h q b) as [[|row rows]| |e] end; cbn;
    try reflexivity;
    destruct (truthy_string (cursorField config)); cbn; try reflexivity;
    destruct (last (row :: rows)); cbn; try reflexivity;
    destruct (is_defined _); reflexivity.
Qed.




(** ** From the loop to [fetch()] *)

(** [sc] is [s] but for the connection it holds. *)
Definition reconnected (s sc : St) : Prop :=
  heap sc = heap s /\ executions sc = executions s /\ yields sc = yields s.

(** A [fetch()] either fails while connecting, before any query, or pages
    from the state it connected in. *)
Definition connects_then_pages (fetch : nat -> M St unit) : Prop :=
  forall fuel s,
    (exists sc, reconnected s sc /\
                fetch fuel s = paginate config backend fuel sc) \/
    (exists e s', fetch fuel s = (s', Throw e) /\ reconnected s s').

Lemma reconnected_refl s : reconnected s s.
Proof. repeat split. Qed.

Lemma mysql_connects_then_pages :
  connects_then_pages (mysql_fetch config backend).
Proof.
  intros fuel s.
  unfold mysql_fetch, mysql_connect, bind, get, when, of_result,
    set_connection, modify, ret, throw.
  destruct (connection s); cbn -[paginate].
  - left. exists s. split; [apply reconnected_refl | reflexivity].
  - destruct (open_connection backend) as [e|]; cbn -[paginate].
    + right. exists e, s. split; [reflexivity | apply reconnected_refl].
    + left. eexists. split; [|reflexivity]. repeat split.
Qed.

Lemma postgres_connects_then_pages :
  connects_then_pages (postgres_fetch config backend).
Proof.
  intros fuel s.
  unfold postgres_fetch, postgres_connect, bind, get, when, of_result,
    set_connection, modify, ret, throw.
  destruct (connection s) eqn:Hc; cbn -[paginate]; rewrite ?Hc; cbn -[paginate].
  - left. exists s. split; [apply reconnected_refl | reflexivity].
  - destruct (open_connection backend) as [e|]; cbn -[paginate].
    + right. exists e, s. split; [reflexivity | apply reconnected_refl].
    + left. eexists. split; [|reflexivity]. repeat split.
Qed.

Lemma oracle_connects_then_pages :
  connects_then_pages (oracle_fetch config backend).
Proof.
  intros fuel s.
  unfold oracle_fetch, oracle_connect, bind, get, when, of_result,
    set_connection, modify, ret, throw.
  destruct (connection s) eqn:Hc; cbn -[paginate]; rewrite ?Hc; cbn -[paginate].
  - left. exists s. split; [apply reconnected_refl | reflexivity].
  - destruct (poolAttributes config); cbn -[paginate].
    + destruct (pool s) eqn:Hp; cbn -[paginate]; rewrite ?Hc; cbn -[paginate];
        (destruct (open_connection backend) as [e|]; cbn -[paginate];
         [right; eexists _, _; split; [reflexivity | repeat split]
         |left; eexists; split; [|reflexivity]; repeat split]).
    + right. exists "Missing pool attributes for Oracle", s.
      split; [reflexivity | apply reconnected_refl].
Qed.



(** One round is the whole loop when no cursor field is configured. *)
Lemma paginate_single_shot fuel (s : St) :
  truthy_string (cursorField config) = false ->
  let r := paginate config backend (Datatypes.S fuel) s in
  snd r <> Hang /\
  (length (executions (fst r)) <= Datatypes.S (length (executions s)))%nat /\
  (length (yields (fst r)) <= Datatypes.S (length (yields s)))%nat.
Proof.
  intros Hno. unfold paginate, bind, get, alloc. cbn -[fetch_loop].
  rewrite fetch_loop_round. unfold wrote, continues. rewrite Hno.
  destruct (cursorParamsIndex config); cbn;
    match goal with |- context [execute backend ?h ?q ?b] =>
      destruct (execute backend h q b) as [[|row rows]| |e] end; cbn;
    rewrite ?length_app; cbn; repeat split; try discriminate; lia.
Qed.



End Protocol.


(** X8.  Without a [cursorField] a fetch is single-shot: one round of fuel
    is enough for it to end, after at most one query and at most one
    batch, whatever the result holds. *)
Theorem X8_no_cursor_field_means_one_page
    (config : Config) (backend : Backend) (fuel : nat) (s : St) :
  truthy_string (cursorField config) = false ->
  let one_page (r : St * Completion unit) :=
    snd r <> Hang /\
    (length (executions (fst r)) <= Datatypes.S (length (executions s)))%nat
    /\ (length (yields (fst r)) <= Datatypes.S (length (yields s)))%nat in
  one_page (mysql_fetch config backend (Datatypes.S fuel) s) /\
  one_page (postgres_fetch config backend (Datatypes.S fuel) s) /\
  one_page (oracle_fetch config backend (Datatypes.S fuel) s).
Proof.
  intros Hno one_page.
  assert (forall fetch, connects_then_pages config backend fetch ->
            one_page (fetch (Datatypes.S fuel) s)) as H.
  { intros fetch Hshape. unfold one_page.
    destruct (Hshape (Datatypes.S fuel) s)
      as [(sc & (_ & He & Hy) & ->)|(e & s' & -> & (_ & He & Hy))].
    - rewrite <- He, <- Hy. apply paginate_single_shot, Hno.
    - cbn. rewrite He, Hy. repeat split; [discriminate | lia | lia]. }
  repeat split; apply H;
    auto using mysql_connects_then_pages, postgres_connects_then_pages,
      oracle_connects_then_pages.
Qed.


End PaginatorProtocol.

(** ** The protocol on concrete back ends *)

Module PaginatorProtocolScenarios.
Import Paginator PaginatorProtocol Scenarios MoreScenarios.

Lemma X8_single_shot_witness :
  let s := new_driver scenario_C_heap in
  let one_page (r : St * Completion unit) :=
    snd r <> Hang /\
    (length (executions (fst r)) <= Datatypes.S (length (executions s)))%nat
    /\ (length (yields (fst r)) <= Datatypes.S (length (yields s)))%nat in
  one_page (mysql_fetch single_shot_config scenario_C_backend 1 s) /\
  one_page (postgres_fetch single_shot_config scenario_C_backend 1 s) /\
  one_page (oracle_fetch single_shot_config scenario_C_backend 1 s).
Proof.
  apply (X8_no_cursor_field_means_one_page single_shot_config
           scenario_C_backend 0 (new_driver scenario_C_heap)).
  reflexivity.
Defined.


End PaginatorProtocolScenarios.

(* ===================================================================== *)
(** * The Firestore source driver: pages and plain objects *)
(* ===================================================================== *)

Module FirestoreProtocol.
Import Paginator.

(** ** Plain objects *)

Lemma get_field_set_field_eq (r : Row) key v :
  get_field (set_field r key v) key = v.
Proof.
  induction r as [|[k w] r IH]; cbn.
  - now rewrite String.eqb_refl.
  - destruct (String.eqb k key) eqn:Hk; cbn; rewrite Hk; auto.
Qed.

Lemma get_field_set_field_ne (r : Row) key key' v :
  key <> key' -> get_field (set_field r key v) key' = get_field r key'.
Proof.
  intros Hne. induction r as [|[k w] r IH]; cbn.
  - apply String.eqb_neq in Hne. now rewrite Hne.
  - destruct (String.eqb k key) eqn:Hk; cbn.
    + apply String.eqb_eq in Hk as ->. apply String.eqb_neq in Hne.
      now rewrite Hne.
    + destruct (String.eqb k key'); auto.
Qed.

Lemma spread_keeps_other_fields (data r : Row) key :
  ~ In key (keys data) ->
  get_field
    (fold_left (fun r kv => set_field r (fst kv) (snd kv)) data r) key =
  get_field r key.
Proof.
  revert r. induction data as [|[k w] data IH]; intros r Hnot; cbn;
    [reflexivity|].
  rewrite IH by (intros H; apply Hnot; now right).
  apply get_field_set_field_ne. intros ->. apply Hnot. now left.
Qed.

Lemma spread_sets_its_fields (data r : Row) key v :
  NoDup (keys data) -> In (key, v) data ->
  get_field
    (fold_left (fun r kv => set_field r (fst kv) (snd kv)) data r) key = v.
Proof.
  revert r. induction data as [|[k w] data IH]; intros r Hnd Hin;
    [destruct Hin|].
  cbn in Hnd. apply NoDup_cons in Hnd as [Hk Hnd]. cbn.
  destruct Hin as [Heq|Hin].
  - injection Heq as -> ->. rewrite spread_keeps_other_fields.
    + apply get_field_set_field_eq.
    + intros H. apply Hk. now apply list_elem_of_In.
  - apply IH; assumption.
Qed.

(** X10.  [{ id: doc.id, ...doc.data() }]: every field of the document's
    data is carried over with its value, and [id] is the document id
    unless the data has a field named [id] of its own, which then takes
    its place. *)
Theorem X10_plain_object_fields (doc : Doc) :
  NoDup (keys (doc_data doc)) ->
  (forall key v, In (key, v) (doc_data doc) ->
                 get_field (plain_object doc) key = v) /\
  (~ In "id" (keys (doc_data doc)) ->
   get_field (plain_object doc) "id" = VStr (doc_id doc)).
Proof.
  intros Hnd. unfold plain_object. split.
  - intros key v Hin. apply spread_sets_its_fields; assumption.
  - intros Hnot. rewrite spread_keeps_other_fields by assumption.
    reflexivity.
Qed.

Lemma X10_shadowed_id_witness :
  let doc := {| doc_id := "abc";
                doc_data := [("name", VStr "n"); ("id", VNum 7)] |} in
  (forall key v, In (key, v) (doc_data doc) ->
                 get_field (plain_object doc) key = v) /\
  (~ In "id" (keys (doc_data doc)) ->
   get_field (plain_object doc) "id" = VStr (doc_id doc)).
Proof.
  apply (X10_plain_object_fields
           {| doc_id := "abc";
              doc_data := [("name", VStr "n"); ("id", VNum 7)] |}).
  cbn. repeat constructor; cbn; intros H;
    repeat (apply elem_of_cons in H as [H|H]; [discriminate|]);
    now apply elem_of_nil in H.
Defined.

(** ** Pages *)

Section Pages.
Variable limit : option Z.
Variable backend : FsBackend.

(** [this.config.limit || 100] *)
Definition page_size : Z := or_default (nullish limit 0) 100.

(** The shape of one consumption of [fetch()]: the queries [Q] sent after
    [history] and the batches [Y] yielded.  Each batch is the documents of
    one non-empty page as plain objects; the next query starts after the
    last document of that page and is sent only if the page was full. *)
Fixpoint pages (history : list FsQuery) (q : FsQuery)
    (Q : list FsQuery) (Y : list (list Row)) : Prop :=
  match Q with
  | [] => Y = []
  | q' :: Q' =>
      q' = q /\
      match Y with
      | [] =>
          Q' = [] /\
          match fs_get backend history q with
          | Docs (_ :: _) => False
          | _ => True
          end
      | batch :: Y' =>
          exists docs,
            fs_get backend history q = Docs docs /\
            docs <> [] /\
            batch = map plain_object docs /\
            (Q' = [] \/ Z.of_nat (length docs) = page_size) /\
            pages (history ++ [q])
              {| q_limit := q_limit q; q_startAfter := last docs |} Q' Y'
      end
  end.

Lemma firestore_loop_pages fuel : forall q (s : FsSt),
  exists Q Y,
    gets (fst (firestore_loop backend fuel page_size q s)) = gets s ++ Q /\
    fs_yields (fst (firestore_loop backend fuel page_size q s))
      = fs_yields s ++ Y /\
    pages (gets s) q Q Y.
Proof.
  induction fuel as [|fuel IH]; intros q s; cbn [firestore_loop].
  - exists [], []. cbn. now rewrite !app_nil_r.
  - unfold bind, fs_await_get, modify.
    destruct (fs_get backend (gets s) q) as [[|doc docs]| |e] eqn:Hget;
      try solve [exists [q], []; cbn; rewrite app_nil_r, Hget; auto].
    destruct (Z.eqb _ page_size) eqn:Hfull;
      cbn -[firestore_loop Z.eqb page_size plain_object Z.of_nat].
    + match goal with |- context [firestore_loop _ _ _ ?q1 ?s1] =>
        destruct (IH q1 s1) as (Q & Y & HQ & HY & HP) end.
      cbn [gets fs_yields] in HQ, HY, HP.
      exists (q :: Q), (map plain_object (doc :: docs) :: Y).
      rewrite HQ, HY, <- !app_assoc. repeat split.
      exists (doc :: docs). repeat split; try assumption; try discriminate.
      right. now apply Z.eqb_eq.
    + exists [q], [map plain_object (doc :: docs)]. cbn. repeat split.
      exists (doc :: docs). repeat split; try assumption; try discriminate.
      now left.
Qed.

End Pages.

(** X11.  The paging protocol of the Firestore driver: the first query has
    limit [limit || 100] and no start; each batch is one non-empty page,
    document by document; a further query is sent only after a full page
    and starts after that page's last document; a short or empty page, or
    an error, ends the sequence. *)
Theorem X11_firestore_pages
    (limit : option Z) (backend : FsBackend) (fuel : nat) (s : FsSt) :
  exists Q Y,
    gets (fst (firestore_fetch limit backend fuel s)) = gets s ++ Q /\
    fs_yields (fst (firestore_fetch limit backend fuel s))
      = fs_yields s ++ Y /\
    pages limit backend (gets s)
      {| q_limit := page_size limit; q_startAfter := None |} Q Y.
Proof.
  unfold firestore_fetch, bind, modify. cbn [fst snd].
  match goal with |- context [firestore_loop _ _ _ ?q1 ?s1] =>
    destruct (firestore_loop_pages limit backend fuel q1 s1)
      as (Q & Y & HQ & HY & HP) end.
  exists Q, Y. auto.
Qed.

End FirestoreProtocol.

(* ===================================================================== *)
(** * More on the Snowflake writer *)
(* ===================================================================== *)

Module SnowflakeMore.
Import Snowflake SnowflakeLifecycle Frame SnowflakeFacts Observations.

Definition not_connected : Error :=
  "Not connected to Snowflake. Call connect() first.".

Section Facts.
Variable config : Config.
Variable table : TableConfig.
Variable backend : Backend.

(** On a driver that holds a connection object, [insert] ends in one of
    three ways; what it throws is always wrapped. *)
Lemma insert_connected_outcome fuel rows (s : St) :
  connection s = true ->
  snd (insert config backend fuel rows s) = Return tt \/
  snd (insert config backend fuel rows s) = Hang \/
  exists e,
    snd (insert config backend fuel rows s)
    = Throw ("Failed to insert data into Snowflake: " ++ e)%string.
Proof.
  intros Hc. unfold insert, bind, get, try_catch. rewrite Hc. cbn [negb].
  destruct (length rows =? 0)%nat; [now left|].
  destruct (executeInsert _ _ _ _ _ _ _ s) as [s' [[]|e|]]; cbn; eauto.
Qed.

(** X12.  A [connect()] whose connection attempt is rejected throws the
    error wrapped twice, and leaves [this.connection] set all the same:
    a later [insert()] does not stop at its "not connected" guard. *)
Theorem X12_failed_connect_leaves_connection_set
    (s : St) (e : Error) (fuel : nat) (rows : list Row) :
  respond backend (events s) OpenConnection = Some e ->
  let r := connect table backend s in
  snd r
  = Throw ("Snowflake connection error: Failed to connect to Snowflake: "
           ++ e)%string /\
  connection (fst r) = true /\
  events (fst r) = events s ++ [OpenConnection] /\
  snd (insert config backend fuel rows (fst r)) <> Throw not_connected.
Proof.
  intros He.
  assert (connect table backend s =
          ({| connection := true; events := events s ++ [OpenConnection] |},
           Throw ("Snowflake connection error: Failed to connect to Snowflake: "
                  ++ e)%string)) as ->.
  { unfold connect, try_catch, bind, modify, sdk_call. cbn. rewrite He.
    reflexivity. }
  cbn [fst snd]. repeat split.
  destruct (insert_connected_outcome fuel rows
              {| connection := true; events := events s ++ [OpenConnection] |}
              eq_refl) as [->|[->|[e' ->]]]; discriminate.
Qed.

(** X13.  [close()] on a connected driver: when the SDK releases the
    connection, the driver forgets it, so that a later [insert()] throws
    "not connected" and sends nothing and a second [close()] does nothing;
    when the SDK fails, [close()] throws the wrapped error and the driver
    keeps the connection. *)
Theorem X13_close_then_insert (s : St) (fuel : nat) (rows : list Row) :
  connection s = true ->
  let r := close backend s in
  events (fst r) = events s ++ [CloseConnection] /\
  match respond backend (events s) CloseConnection with
  | None =>
      snd r = Return tt /\ connection (fst r) = false /\
      insert config backend fuel rows (fst r)
        = (fst r, Throw not_connected) /\
      close backend (fst r) = (fst r, Return tt)
  | Some e =>
      snd r = Throw ("Failed to close Snowflake connection: " ++ e)%string
      /\ connection (fst r) = true
  end.
Proof.
  intros Hc. unfold close, insert, bind, get, when, sdk_call, modify.
  rewrite Hc. cbn.
  destruct (respond backend (events s) CloseConnection); cbn; auto.
Qed.

(** ** A back end that accepts everything *)

(** The [INSERT] statement for one row: the values are read off the row by
    the column names of the first row of the call. *)
Definition row_statement (columns : list string) (row : Row) : Event :=
  Exec (InsertRow columns (map (get_field row) columns)).

(** What is sent for a list of sub-batches. *)
Definition sent (columns : list string) (groups : list (list Row))
  : list Event :=
  concat (map (fun group => WriteGroup group
                            :: map (row_statement columns) group) groups).

Lemma dispatch_healthy columns batch : forall s : St,
  healthy backend -> connection s = true ->
  dispatch backend columns batch s =
  ({| connection := true;
      events := events s ++ map (row_statement columns) batch |},
   Return (map (fun _ => None) batch)).
Proof.
  induction batch as [|row batch IH]; intros s Hh Hc; cbn [dispatch].
  - cbn. rewrite app_nil_r. destruct s; cbn in *; now subst.
  - unfold bind, executeQuery. rewrite Hc, Hh. cbn [negb].
    rewrite IH by (assumption || reflexivity). cbn.
    rewrite <- app_assoc. reflexivity.
Qed.

Lemma await_groups_resolved fuel : forall promises maxParallel j (s : St),
  Forall (fun p => p = None) promises ->
  0 < maxParallel -> 0 <= j ->
  (Z.to_nat (Z.of_nat (length promises) - j) < fuel)%nat ->
  await_groups fuel promises maxParallel j s = (s, Return tt).
Proof.
  induction fuel as [|fuel IH]; intros promises maxParallel j s Hnone Hp Hj
    Hfuel; [lia|].
  cbn [await_groups]. destruct (j <? _) eqn:Hlt; [|reflexivity].
  unfold bind, await_all, slice.
  rewrite omap_id_resolved by (apply Forall_take, Forall_drop, Hnone).
  cbn. apply IH; try assumption; lia.
Qed.

Lemma for_batches_healthy fuel : forall rows columns n maxParallel i (s : St),
  healthy backend -> connection s = true ->
  0 < n -> 0 < maxParallel -> 0 <= i ->
  (Z.to_nat (Z.of_nat (length rows) - i) + 2 <= fuel)%nat ->
  exists groups,
    for_batches backend fuel rows columns n maxParallel i s =
    ({| connection := true; events := events s ++ sent columns groups |},
     Return tt) /\
    concat groups = drop (Z.to_nat i) rows.
Proof.
  induction fuel as [|fuel IH]; intros rows columns n maxParallel i s Hh Hc
    Hn Hp Hi Hfuel; [lia|].
  cbn [for_batches]. destruct (i <? _) eqn:Hlt.
  - unfold bind at 1. cbn [record_event modify].
    unfold bind at 1. rewrite dispatch_healthy by (assumption || reflexivity).
    unfold bind at 1. rewrite await_groups_resolved; try assumption; try lia.
    + match goal with |- context [for_batches _ fuel _ _ _ _ _ ?x] =>
        destruct (IH rows columns n maxParallel (i + n) x Hh eq_refl Hn Hp
                    ltac:(lia) ltac:(lia)) as (groups & -> & Hcat) end.
      exists (slice rows i (i + n) :: groups). cbn [events]. split.
      * unfold sent. cbn. rewrite <- !app_assoc. reflexivity.
      * cbn. rewrite Hcat. apply slice_then_rest; lia.
    + apply Forall_forall. intros p Hin. apply list_elem_of_fmap in Hin
        as (row & -> & _). reflexivity.
    + rewrite length_map. unfold slice. rewrite length_take, length_drop.
      destruct (i <? 0) eqn:Hi0, (i + n <? 0) eqn:Hin; lia.
  - exists []. cbn. rewrite app_nil_r, drop_ge by lia. split; [|reflexivity].
    destruct s; cbn in *; now subst.
Qed.

(** What goes before and after the rows in a transaction. *)
Definition prologue : list Event :=
  (if transaction_enabled config then [Exec Begin] else [])
  ++ match query_timeout config with
     | Some q => [Exec (SetStatementTimeout q)]
     | None => []
     end.

Definition epilogue : list Event :=
  if transaction_enabled config then [Exec Commit] else [].

(** X14.  On a back end that accepts every statement, [insert(rows)] sends
    [BEGIN] (with transactions enabled), the session timeout if one is
    configured, then every row exactly once and in order, cut into
    sub-batches, then [COMMIT], and returns; nothing is rolled back or
    retried.  The values of every row are read by the column names of the
    first row. *)
Theorem X14_healthy_insert_sends_every_row_once
    (fuel : nat) (first : Row) (rest : list Row) (s : St) :
  healthy backend ->
  connection s = true ->
  0 < batch_size config ->
  0 < max_parallel config ->
  (length (first :: rest) + 3 <= fuel)%nat ->
  exists groups,
    concat groups = first :: rest /\
    insert config backend fuel (first :: rest) s =
    ({| connection := true;
        events := events s ++ prologue ++ sent (keys first) groups
                  ++ epilogue |},
     Return tt).
Proof.
  intros Hh Hc Hn Hp Hfuel.
  destruct fuel as [|fuel]; [cbn in Hfuel; lia|].
  assert (forall stmt (x : St), connection x = true ->
            await_query backend stmt x =
            ({| connection := true; events := events x ++ [Exec stmt] |},
             Return tt)) as Hq.
  { intros stmt x Hx. unfold await_query, bind, executeQuery.
    rewrite Hx, Hh. reflexivity. }
  unfold insert, bind, get, try_catch. rewrite Hc. cbn [negb length Nat.eqb].
  cbn [executeInsert]. unfold try_catch, bind, when, prologue, epilogue.
  destruct (transaction_enabled config) eqn:Hen;
    destruct (query_timeout config) as [q|] eqn:Hqt;
    rewrite ?Hq by (assumption || reflexivity); unfold ret; cbv beta iota;
    rewrite ?Hq by (assumption || reflexivity); cbv beta iota;
    match goal with |- context [for_batches _ fuel ?r ?c ?n ?m 0 ?x] =>
      destruct (for_batches_healthy fuel r c n m 0 x Hh
                  ltac:(assumption || reflexivity) Hn Hp
                  ltac:(lia) ltac:(cbn [length] in *; lia))
        as (groups & -> & Hcat) end;
    exists groups; (split; [exact Hcat|]); cbv beta iota;
    rewrite ?Hq by reflexivity; cbn [events];
    rewrite <- ?app_assoc; cbn; rewrite ?app_nil_r; try reflexivity.
Qed.

End Facts.
End SnowflakeMore.

(** ** The Snowflake scenarios *)

Module SnowflakeMoreScenarios.
Import Snowflake SnowflakeLifecycle SnowflakeMore Scenarios MoreScenarios.

Lemma X12_unreachable_warehouse_witness :
  let r := connect snowflake_table unreachable_warehouse new_driver in
  snd r
  = Throw "Snowflake connection error: Failed to connect to Snowflake: ECONNREFUSED" /\
  connection (fst r) = true /\
  events (fst r) = events new_driver ++ [OpenConnection] /\
  snd (insert snowflake_config unreachable_warehouse 20 five_rows (fst r))
    <> Throw not_connected.
Proof.
  apply (X12_failed_connect_leaves_connection_set snowflake_config
           snowflake_table unreachable_warehouse new_driver "ECONNREFUSED"
           20 five_rows).
  reflexivity.
Defined.

Lemma X13_close_connected_witness :
  let r := close healthy_backend snowflake_connected in
  events (fst r) = events snowflake_connected ++ [CloseConnection] /\
  snd r = Return tt /\ connection (fst r) = false /\
  insert snowflake_config healthy_backend 20 five_rows (fst r)
    = (fst r, Throw not_connected) /\
  close healthy_backend (fst r) = (fst r, Return tt).
Proof.
  apply (X13_close_then_insert snowflake_config healthy_backend
           snowflake_connected 20 five_rows).
  reflexivity.
Defined.

Lemma X14_five_rows_witness :
  exists groups,
    concat groups = five_rows /\
    insert snowflake_config healthy_backend 20 five_rows snowflake_connected =
    ({| connection := true;
        events := events snowflake_connected
                  ++ prologue snowflake_config
                  ++ sent (keys (id_row 1)) groups
                  ++ epilogue snowflake_config |},
     Return tt).
Proof.
  apply (X14_healthy_insert_sends_every_row_once snowflake_config
           healthy_backend 20 (id_row 1)
           [id_row 2; id_row 3; id_row 4; id_row 5] snowflake_connected).
  - intros history ev. reflexivity.
  - reflexivity.
  - reflexivity.
  - reflexivity.
  - cbn. lia.
Defined.

End SnowflakeMoreScenarios.

(* ===================================================================== *)
(** * The retries of the Snowflake writer *)
(* ===================================================================== *)

Module SnowflakeRetries.
Import Snowflake Frame SnowflakeFacts Observations.

(** From [s] to [s'] the driver kept its connection and did not wait. *)
Definition calm (s s' : St) : Prop :=
  connection s' = connection s /\ sleeps (events s') = sleeps (events s).

Lemma calm_refl s : calm s s.
Proof. split; reflexivity. Qed.

Lemma calm_trans s1 s2 s3 : calm s1 s2 -> calm s2 s3 -> calm s1 s3.
Proof. intros [H1 H2] [H3 H4]. split; congruence. Qed.

Section Facts.
Variable config : Config.
Variable backend : Backend.

(** The [try] block of [executeInsert]. *)
Definition attempt (fuel : nat) (rows : list Row) : M St unit :=
  do! when (transaction_enabled config) (await_query backend Begin) in
  do! match query_timeout config with
      | Some q => await_query backend (SetStatementTimeout q)
      | None => ret tt
      end in
  match rows with
  | [] => throw "TypeError: Cannot convert undefined to object"
  | sample :: _ =>
      let columns := keys sample in
      do! for_batches backend fuel rows columns (batch_size config)
            (max_parallel config) 0 in
      when (transaction_enabled config) (await_query backend Commit)
  end.

(** Its [catch] block. *)
Definition recover (fuel : nat) (rows : list Row)
    (maxRetries_ retryDelay_ retryCount : Z) (error : Error) : M St unit :=
  do! when (transaction_enabled config) (await_query backend Rollback) in
  if retryCount <? maxRetries_ then
    do! record_event (Sleep retryDelay_) in
    executeInsert config backend fuel rows maxRetries_ retryDelay_
      (retryCount + 1)
  else throw error.

Lemma executeInsert_eq fuel rows maxRetries_ retryDelay_ retryCount :
  executeInsert config backend (Datatypes.S fuel) rows maxRetries_
    retryDelay_ retryCount
  = try_catch (attempt fuel rows)
      (recover fuel rows maxRetries_ retryDelay_ retryCount).
Proof. reflexivity. Qed.

Lemma executeQuery_calm stmt : respects calm (executeQuery backend stmt).
Proof.
  intros s. unfold executeQuery.
  destruct (negb (connection s)); [apply calm_refl|].
  split; [reflexivity|]. cbn [fst events].
  rewrite sleeps_app. cbn. apply app_nil_r.
Qed.

Lemma await_query_calm stmt : respects calm (await_query backend stmt).
Proof.
  pose proof calm_refl. pose proof calm_trans.
  unfold await_query. apply respects_bind; [assumption| |intros ?].
  - apply executeQuery_calm.
  - apply respects_of_result; assumption.
Qed.

Lemma dispatch_calm columns batch :
  respects calm (dispatch backend columns batch).
Proof.
  pose proof calm_refl. pose proof calm_trans.
  induction batch as [|row batch IH]; cbn [dispatch].
  - apply respects_pure; [assumption | reflexivity].
  - apply respects_bind; [assumption| |intros ?].
    + apply executeQuery_calm.
    + apply respects_bind; [assumption | exact IH | intros ?].
      apply respects_pure; [assumption | reflexivity].
Qed.

Lemma await_groups_calm fuel : forall promises maxParallel j,
  respects calm (await_groups fuel promises maxParallel j).
Proof.
  pose proof calm_refl. pose proof calm_trans.
  induction fuel as [|fuel IH]; intros promises maxParallel j;
    cbn [await_groups].
  - apply respects_pure; [assumption | reflexivity].
  - destruct (j <? _); [|apply respects_pure; [assumption | reflexivity]].
    apply respects_bind; [assumption| |intros ?; apply IH].
    unfold await_all. destruct (omap id _);
      apply respects_pure; try assumption; reflexivity.
Qed.

Lemma for_batches_calm fuel : forall rows columns n maxParallel i,
  respects calm (for_batches backend fuel rows columns n maxParallel i).
Proof.
  pose proof calm_refl. pose proof calm_trans.
  induction fuel as [|fuel IH]; intros rows columns n maxParallel i;
    cbn [for_batches].
  - apply respects_pure; [assumption | reflexivity].
  - destruct (i <? _); [|apply respects_pure; [assumption | reflexivity]].
    apply respects_bind; [assumption| |intros _].
    { intros s. split; [reflexivity|]. cbn [record_event modify fst events].
      rewrite sleeps_app. cbn. apply app_nil_r. }
    apply respects_bind; [assumption | apply dispatch_calm | intros ?].
    apply respects_bind; [assumption | apply await_groups_calm | intros _].
    apply IH.
Qed.

(** An attempt keeps the connection and never waits. *)
Lemma attempt_calm fuel rows : respects calm (attempt fuel rows).
Proof.
  pose proof calm_refl. pose proof calm_trans. unfold attempt.
  apply respects_bind; [assumption| |intros _].
  { apply respects_when; [assumption | apply await_query_calm]. }
  apply respects_bind; [assumption| |intros _].
  { destruct (query_timeout config); [apply await_query_calm|].
    apply respects_pure; [assumption | reflexivity]. }
  destruct rows as [|sample rows];
    [apply respects_pure; [assumption | reflexivity]|].
  apply respects_bind; [assumption | apply for_batches_calm | intros _].
  apply respects_when; [assumption | apply await_query_calm].
Qed.



(** X16.  With transactions enabled, a back end that rejects [ROLLBACK]
    ends the retries: [insert(rows)] makes one attempt; when that fails,
    the rejection of the [ROLLBACK] leaves the [catch] block at once, so
    there is no wait and no second attempt, and what is thrown is the
    error of the [ROLLBACK], not that of the statement that failed. *)
Theorem X16_rejected_rollback_ends_the_retries
    (fuel : nat) (row : Row) (rows : list Row) (s : St) (e : Error) :
  transaction_enabled config = true ->
  connection s = true ->
  (forall history, respond backend history (Exec Rollback) = Some e) ->
  insert config backend (Datatypes.S fuel) (row :: rows) s =
  match attempt fuel (row :: rows) s with
  | (s1, Throw _) =>
      ({| connection := true; events := events s1 ++ [Exec Rollback] |},
       Throw ("Failed to insert data into Snowflake: "
              ++ "Query execution failed: " ++ e)%string)
  | r => r
  end.
Proof.
  intros Hen Hc Hrb. unfold insert, bind at 1, get. rewrite Hc.
  cbn [negb length Nat.eqb]. rewrite executeInsert_eq. unfold try_catch.
  pose proof (attempt_calm fuel (row :: rows) s) as [Hc1 _].
  destruct (attempt fuel (row :: rows) s) as [s1 [[]|error|]];
    try reflexivity.
  cbn [fst] in Hc1. rewrite Hc in Hc1.
  unfold recover, bind, when, await_query, bind, executeQuery.
  rewrite Hen, Hc1, Hrb. reflexivity.
Qed.

End Facts.
End SnowflakeRetries.

Module SnowflakeRetriesScenarios.
Import Snowflake SnowflakeRetries Observations Scenarios MoreScenarios.

Lemma X16_rejected_rollback_witness :
  insert snowflake_config rollback_rejected 20 [id_row 1; id_row 2]
    snowflake_connected =
  match attempt snowflake_config rollback_rejected 19 [id_row 1; id_row 2]
          snowflake_connected with
  | (s1, Throw _) =>
      ({| connection := true; events := events s1 ++ [Exec Rollback] |},
       Throw ("Failed to insert data into Snowflake: "
              ++ "Query execution failed: " ++ "connection lost")%string)
  | r => r
  end.
Proof.
  apply (X16_rejected_rollback_ends_the_retries snowflake_config
           rollback_rejected 19 (id_row 1) [id_row 2] snowflake_connected
           "connection lost").
  - reflexivity.
  - reflexivity.
  - intros history. reflexivity.
Defined.

(** The run of that scenario: one [BEGIN], one failed [INSERT] for each of
    the two rows, one [ROLLBACK]. *)
Example rejected_rollback_run :
  insert snowflake_config rollback_rejected 20 [id_row 1; id_row 2]
    snowflake_connected =
  ({| connection := true;
      events := [Exec Begin; WriteGroup [id_row 1; id_row 2];
                 Exec (InsertRow ["id"] [VNum 1]);
                 Exec (InsertRow ["id"] [VNum 2]);
                 Exec Rollback] |},
   Throw "Failed to insert data into Snowflake: Query execution failed: connection lost").
Proof. vm_compute. reflexivity. Qed.

End SnowflakeRetriesScenarios.

(* ===================================================================== *)
(** * More on the Databricks writer *)
(* ===================================================================== *)

Module DatabricksMore.
Import Databricks Frame DatabricksFacts Observations.

(** The wait before attempt number [i + 1]: [Math.pow(2, i) * 1000]. *)
Definition backoff (i : nat) : Z := 2 ^ Z.of_nat i * 1000.

(** From [s] to [s'] the driver kept its client and its connection, and
    opened and closed nothing. *)
Definition held (s s' : St) : Prop :=
  client s' = client s /\ connection s' = connection s /\
  lifecycle (events s') = lifecycle (events s).

Lemma held_refl s : held s s.
Proof. repeat split. Qed.

Lemma held_trans s1 s2 s3 : held s1 s2 -> held s2 s3 -> held s1 s3.
Proof. intros (?&?&?) (?&?&?). repeat split; congruence. Qed.

(** No transaction is open in [s'] unless one was in [s]. *)
Definition settled (s s' : St) : Prop :=
  currentTransaction s = false -> currentTransaction s' = false.

Lemma settled_refl s : settled s s.
Proof. intros H. exact H. Qed.

Lemma settled_trans s1 s2 s3 :
  settled s1 s2 -> settled s2 s3 -> settled s1 s3.
Proof. unfold settled. auto. Qed.

Section Facts.
Variable config : Config.
Variable backend : Backend.
Variable engine : Engine.

(** [this.config.transaction?.maxRetries || 3] *)
Definition max_attempts : Z := or_default (maxRetries config) 3.

(** One turn of the [while] loop of [flushBatch]: the [try] block and its
    [catch].  [None] stands for [break], [Some attempt'] for the next
    turn. *)
Definition round (rows : list Row) (attempt : Z) : M St (option Z) :=
  try_catch
    (let! s := get in
     do! when (enabled config && negb (currentTransaction s))
           (do! execute backend StartTransaction in
            modify (set_currentTransaction true)) in
     do! execute backend (InsertRows rows) in
     do! when (enabled config)
           (do! execute backend Commit in
            modify (set_currentTransaction false)) in
     ret None)
    (fun error =>
       let attempt' := attempt + 1 in
       let! s := get in
       do! when (currentTransaction s)
             (do! try_catch (execute backend Rollback)
                    (fun rollbackError => record_event ConsoleError) in
              modify (set_currentTransaction false)) in
       if attempt' >=? or_default (maxRetries config) 3 then throw error
       else
         do! record_event (Sleep (2 ^ attempt' * 1000)) in
         ret (Some attempt')).

Lemma retry_loop_eq fuel rows attempt :
  retry_loop config backend (Datatypes.S fuel) rows attempt =
  if attempt <? max_attempts then
    let! next := round rows attempt in
    match next with
    | None => ret tt
    | Some attempt' => retry_loop config backend fuel rows attempt'
    end
  else ret tt.
Proof. reflexivity. Qed.

(** The [try] block of [close()] and its [finally] block. *)
Definition settle (fuel : nat) : M St unit :=
  let! s := get in
  do! when (0 <? length (pendingRows s))%nat
        (flushBatch config backend fuel) in
  let! s' := get in
  when (currentTransaction s')
    (try_catch
       (when (connection s') (execute backend Commit))
       (fun error =>
          do! when (connection s') (execute backend Rollback) in
          throw error)).

Definition release : M St unit :=
  let! s := get in
  do! when (connection s)
        (do! await_call backend CloseConnection in
         modify (set_connection false)) in
  let! s' := get in
  when (client s')
    (do! await_call backend CloseClient in
     modify (set_client false)).

Lemma close_eq fuel :
  close config backend fuel = try_finally (settle fuel) release.
Proof. reflexivity. Qed.

(** What one turn does, whatever the back end answers. *)
Lemma round_spec rows attempt (s : St) :
  let r := round rows attempt s in
  held s (fst r) /\
  settled s (fst r) /\
  pendingRows (fst r) = pendingRows s /\
  (count_inserts (events (fst r)) <= count_inserts (events s) + 1)%nat /\
  match snd r with
  | Return None =>
      sleeps (events (fst r)) = sleeps (events s) /\
      write_groups (events (fst r)) = write_groups (events s) ++ [rows]
  | Return (Some attempt') =>
      attempt' = attempt + 1 /\ attempt' < max_attempts /\
      sleeps (events (fst r)) = sleeps (events s) ++ [2 ^ attempt' * 1000]
  | Throw e =>
      max_attempts <= attempt + 1 /\
      sleeps (events (fst r)) = sleeps (events s)
  | Hang => False
  end.
Proof.
  cbv zeta.
  unfold round, max_attempts, try_catch, bind, get, when, execute,
    await_call, modify, record_event, of_result, ret, throw, held, settled.
  destruct s as [cl cn pending [|] evs], (enabled config);
    cbn -[Z.pow Z.mul Z.add Z.geb or_default count_inserts sleeps
          write_groups lifecycle];
    repeat match goal with
      | |- context [respond ?b ?h ?e] =>
          destruct (respond b h e);
          cbn -[Z.pow Z.mul Z.add Z.geb or_default count_inserts sleeps
                write_groups lifecycle]
      | |- context [attempt + 1 >=? ?m] =>
          destruct (attempt + 1 >=? m) eqn:?;
          cbn -[Z.pow Z.mul Z.add Z.geb or_default count_inserts sleeps
                write_groups lifecycle]
      end;
    rewrite ?count_inserts_app, ?sleeps_app, ?write_groups_app,
      ?lifecycle_app, <- ?app_assoc;
    cbn -[Z.pow Z.mul Z.add Z.geb or_default];
    rewrite ?app_nil_r;
    repeat split; try reflexivity; try discriminate; try lia.
Qed.

(** The loop of [flushBatch], whatever the back end answers: the waits
    double from one attempt to the next, and there are fewer of them than
    attempts allowed. *)
Lemma retry_loop_spec fuel : forall rows attempt (s : St),
  0 <= attempt ->
  let s' := fst (retry_loop config backend fuel rows attempt s) in
  held s s' /\ settled s s' /\
  exists k : nat,
    sleeps (events s') =
      sleeps (events s) ++ map backoff (seq (Z.to_nat attempt + 1) k) /\
    (count_inserts (events s') <= count_inserts (events s) + k + 1)%nat /\
    (k = 0%nat \/ Z.of_nat k < max_attempts - attempt).
Proof.
  induction fuel as [|fuel IH]; intros rows attempt s Ha; cbv zeta.
  - cbn. split; [apply held_refl|]. split; [apply settled_refl|].
    exists 0%nat. cbn. rewrite app_nil_r.
    split; [reflexivity|]. split; [lia | now left].
  - rewrite retry_loop_eq. destruct (attempt <? max_attempts) eqn:Hlt.
    2:{ cbn. split; [apply held_refl|]. split; [apply settled_refl|].
        exists 0%nat. cbn. rewrite app_nil_r.
        split; [reflexivity|]. split; [lia | now left]. }
    unfold bind.
    pose proof (round_spec rows attempt s) as (Hh & Hs & _ & Hn & Hr).
    cbv zeta in Hh, Hs, Hn, Hr.
    destruct (round rows attempt s) as [s1 [[attempt'|]|e|]];
      cbn [fst snd] in *; try contradiction.
    + destruct Hr as (-> & Hlt' & Hsl).
      destruct (IH rows (attempt + 1) s1 ltac:(lia))
        as (Hh' & Hs' & k & Hk1 & Hk2 & Hk3).
      cbv zeta in Hh', Hs', Hk1, Hk2.
      split; [eapply held_trans; eassumption|].
      split; [eapply settled_trans; eassumption|].
      exists (Datatypes.S k). split; [|split; [lia | right; lia]].
      rewrite Hk1, Hsl, <- app_assoc. cbn [seq map app]. f_equal. f_equal.
      * unfold backoff. f_equal. f_equal. lia.
      * f_equal. f_equal. lia.
    + split; [assumption|]. split; [assumption|].
      exists 0%nat. cbn. rewrite app_nil_r. destruct Hr as [Hsl _].
      split; [assumption|]. split; [lia | now left].
    + split; [assumption|]. split; [assumption|].
      exists 0%nat. cbn. rewrite app_nil_r. destruct Hr as [_ Hsl].
      split; [assumption|]. split; [lia | now left].
Qed.

(** X17.  Whatever the back end answers, one flush waits 2 s, 4 s, 8 s,
    ... between its attempts and issues at most one [INSERT] statement
    more than it waits; it waits fewer times than
    [transaction.maxRetries || 3], if at all. *)
Theorem X17_flush_attempts_are_bounded_with_doubling_waits
    (fuel : nat) (s : St) :
  let s' := fst (flushBatch config backend fuel s) in
  exists k : nat,
    sleeps (events s') = sleeps (events s) ++ map backoff (seq 1 k) /\
    (count_inserts (events s') <= count_inserts (events s) + k + 1)%nat /\
    (k = 0%nat \/ Z.of_nat k < max_attempts).
Proof.
  cbv zeta. rewrite flushBatch_eq.
  destruct (negb (connection s) || _).
  - exists 0%nat. cbn. rewrite app_nil_r.
    split; [reflexivity|]. split; [lia | now left].
  - destruct (retry_loop_spec fuel (pendingRows s) 0 (set_pendingRows [] s)
                ltac:(lia)) as (_ & _ & k & Hk1 & Hk2 & Hk3).
    cbv zeta in Hk1, Hk2. exists k.
    rewrite Z.sub_0_r in Hk3. cbn [set_pendingRows events] in *. auto.
Qed.

(** ** No transaction is left open *)

Lemma await_call_settled ev : respects settled (await_call backend ev).
Proof.
  intros s. unfold await_call, settled.
  destruct (respond backend (events s) ev); cbn; auto.
Qed.

Lemma record_event_settled ev : respects settled (record_event ev).
Proof. intros s H. exact H. Qed.

(** Steps that do not touch [currentTransaction]. *)
Ltac settled_step :=
  first [ apply await_call_settled
        | apply record_event_settled
        | apply respects_modify; intros ? ?; assumption
        | respects_step ].

Lemma connect_settled : respects settled (connect config backend).
Proof.
  pose proof settled_refl. pose proof settled_trans.
  unfold connect, ensureTableExists, execute. repeat settled_step.
Qed.

Lemma flushBatch_settled fuel :
  respects settled (flushBatch config backend fuel).
Proof.
  intros s. rewrite flushBatch_eq.
  destruct (negb (connection s) || _); [apply settled_refl|].
  apply (settled_trans _ (set_pendingRows [] s)); [intros H; exact H|].
  apply (retry_loop_spec fuel (pendingRows s) 0 (set_pendingRows [] s)).
  lia.
Qed.

Lemma insert_settled fuel rows :
  respects settled (insert config backend engine fuel rows).
Proof.
  pose proof settled_refl. pose proof settled_trans.
  unfold insert.
  apply respects_bind; [assumption| |intros s0].
  { apply respects_pure; [assumption | reflexivity]. }
  apply respects_bind; [assumption| |intros _].
  { apply respects_when; [assumption | apply connect_settled]. }
  apply respects_bind; [assumption| |intros _].
  { unfold spread. destruct (fits engine rows);
      apply respects_pure; try assumption; reflexivity. }
  apply respects_bind; [assumption| |intros _].
  { apply respects_modify. intros ? ?. assumption. }
  apply respects_bind; [assumption| |intros s1].
  { apply respects_pure; [assumption | reflexivity]. }
  apply respects_when; [assumption | apply flushBatch_settled].
Qed.

Lemma release_settled : respects settled release.
Proof.
  pose proof settled_refl. pose proof settled_trans.
  unfold release. repeat settled_step.
Qed.

(** With no transaction open, the [try] block of [close()] is the final
    flush and nothing else. *)
Lemma settle_eq fuel (s : St) :
  currentTransaction s = false ->
  settle fuel s =
  (if (0 <? length (pendingRows s))%nat then flushBatch config backend fuel
   else ret tt) s.
Proof.
  intros Hct. unfold settle, bind at 1, get at 1, when at 1.
  destruct (0 <? length (pendingRows s))%nat.
  - pose proof (flushBatch_settled fuel s Hct) as Hs. unfold bind.
    destruct (flushBatch config backend fuel s) as [s1 [[]|e|]];
      try reflexivity.
    cbn in Hs. unfold get. rewrite Hs. reflexivity.
  - unfold bind, ret, get. rewrite Hct. reflexivity.
Qed.

(** X18.  A driver with no transaction open has none open after
    [connect()], [insert()], a flush or [close()], however these end.
    So [close()] never gets to the [COMMIT] and [ROLLBACK] of its own: it
    is the final flush followed by the release of the connection and the
    client. *)
Theorem X18_no_transaction_is_left_open
    (fuel : nat) (rows : list Row) (s : St) :
  currentTransaction s = false ->
  currentTransaction (fst (connect config backend s)) = false /\
  currentTransaction (fst (insert config backend engine fuel rows s))
    = false /\
  currentTransaction (fst (flushBatch config backend fuel s)) = false /\
  currentTransaction (fst (close config backend fuel s)) = false /\
  close config backend fuel s =
  try_finally
    (if (0 <? length (pendingRows s))%nat then flushBatch config backend fuel
     else ret tt)
    release s.
Proof.
  intros Hct.
  split; [apply connect_settled, Hct|].
  split; [apply insert_settled, Hct|].
  split; [apply flushBatch_settled, Hct|].
  assert (close config backend fuel s =
          try_finally
            (if (0 <? length (pendingRows s))%nat
             then flushBatch config backend fuel else ret tt)
            release s) as Heq.
  { rewrite close_eq. unfold try_finally. rewrite settle_eq by assumption.
    reflexivity. }
  split; [|exact Heq].
  rewrite Heq.
  apply (try_finally_at settled settled_trans); [|apply release_settled|
    exact Hct].
  destruct (0 <? length (pendingRows s))%nat;
    [apply flushBatch_settled | apply settled_refl].
Qed.

(** ** A connection attempt that is rejected *)

(** The state after a series of [insert()] calls, each with its rows (and
    the fuel its flush may use). *)
Definition after_inserts (later : list (nat * list Row)) (s : St) : St :=
  fold_left
    (fun s0 call => fst (insert config backend engine (fst call) (snd call)
                           s0))
    later s.

(** With a client and no connection, [insert(rows)] skips the connection
    attempt - [connect()] returns at its guard - and its flush returns
    at once: the rows are buffered, or refused by the engine. *)
Lemma insert_without_connection fuel rows (s : St) :
  client s = true -> connection s = false ->
  insert config backend engine fuel rows s =
  if fits engine rows
  then (set_pendingRows (pendingRows s ++ rows) s, Return tt)
  else (s, Throw (stack_overflow engine)).
Proof.
  intros Hcl Hcn. rewrite insert_eq, Hcn.
  unfold connect, bind, get, when. rewrite Hcl. cbn [negb ret].
  destruct (fits engine rows); [|reflexivity].
  cbv zeta. rewrite flushBatch_eq. cbn [set_pendingRows connection].
  rewrite Hcn. cbn [negb orb]. destruct (Z.geb _ _); reflexivity.
Qed.

Lemma after_inserts_cons call later (s : St) :
  after_inserts (call :: later) s =
  after_inserts later
    (fst (insert config backend engine (fst call) (snd call) s)).
Proof. reflexivity. Qed.

Lemma after_inserts_without_connection later : forall s : St,
  client s = true -> connection s = false ->
  let s' := after_inserts later s in
  events s' = events s /\ client s' = true /\ connection s' = false /\
  currentTransaction s' = currentTransaction s /\
  pendingRows s' =
    pendingRows s ++ concat (List.filter (fits engine) (map snd later)).
Proof.
  induction later as [|[fuel rows] later IH]; intros s Hcl Hcn; cbv zeta.
  - cbn. rewrite app_nil_r. auto.
  - rewrite after_inserts_cons. cbn [fst snd map List.filter].
    rewrite insert_without_connection by assumption.
    destruct (fits engine rows); cbn [fst].
    + destruct (IH (set_pendingRows (pendingRows s ++ rows) s) Hcl Hcn)
        as (He & Hcl' & Hcn' & Hct' & Hp').
      cbv zeta in *. rewrite He, Hcl', Hcn', Hct', Hp'.
      cbn [set_pendingRows events currentTransaction pendingRows concat].
      rewrite <- app_assoc. auto.
    + apply IH; assumption.
Qed.

(** X19.  On a fresh driver whose connection attempt is rejected,
    [insert(rows)] throws the error of the attempt and buffers nothing;
    the client stays set and the connection unset.  From then on no call
    reaches the back end: after any series of further [insert()] calls
    the driver is still in that condition, its buffer holding what it
    held before and then the rows of the calls the engine let through,
    in order, and the next [insert(rows')]
    again skips the connection attempt, buffers [rows'] and returns
    normally, even past the batch size - unless [rows'] are more than
    the engine takes as arguments of [push], in which case it throws
    the engine's [RangeError] and buffers nothing. *)
Theorem X19_inserts_after_a_rejected_connection_only_buffer
    (fuel : nat) (rows : list Row) (s : St) (e : Error)
    (later : list (nat * list Row)) (fuel' : nat) (rows' : list Row) :
  client s = false ->
  connection s = false ->
  respond backend (events s) OpenConnection = Some e ->
  let r := insert config backend engine fuel rows s in
  let s' := after_inserts later (fst r) in
  snd r = Throw e /\
  client (fst r) = true /\ connection (fst r) = false /\
  pendingRows (fst r) = pendingRows s /\
  events (fst r) = events s ++ [OpenConnection] /\
  events s' = events (fst r) /\
  client s' = true /\ connection s' = false /\
  pendingRows s' =
    pendingRows s ++ concat (List.filter (fits engine) (map snd later)) /\
  insert config backend engine fuel' rows' s' =
    if fits engine rows'
    then (set_pendingRows (pendingRows s' ++ rows') s', Return tt)
    else (s', Throw (stack_overflow engine)).
Proof.
  intros Hcl Hcn He. cbv zeta.
  assert (insert config backend engine fuel rows s =
          ({| client := true; connection := false;
              pendingRows := pendingRows s;
              currentTransaction := currentTransaction s;
              events := events s ++ [OpenConnection] |}, Throw e)) as ->.
  { rewrite insert_eq, Hcn.
    unfold connect, bind, get, when, modify, await_call, set_client.
    rewrite Hcl. cbn. rewrite He, Hcn. reflexivity. }
  cbn [fst snd].
  match goal with |- context [after_inserts later ?x] =>
    destruct (after_inserts_without_connection later x eq_refl eq_refl)
      as (Hev & Hcl' & Hcn' & _ & Hp') end.
  cbv zeta in *. cbn [client connection pendingRows events] in *.
  repeat (split; [first [reflexivity | assumption]|]).
  apply insert_without_connection; assumption.
Qed.

(** ** A negative retry limit *)

(** X20.  With a negative [transaction.maxRetries] the loop of the flush
    is never entered: on a connected driver an [insert(rows)] that
    reaches the batch size, with [rows] no more than the engine takes as
    arguments of [push], empties the buffer, sends nothing and returns
    normally. *)
Theorem X20_negative_retry_limit_drops_the_buffer
    (fuel : nat) (rows : list Row) (s : St) :
  maxRetries config < 0 ->
  connection s = true ->
  fits engine rows = true ->
  or_default (batchSize config) 1000
    <= Z.of_nat (length (pendingRows s ++ rows)) ->
  insert config backend engine (Datatypes.S fuel) rows s =
  (set_pendingRows [] s, Return tt).
Proof.
  intros Hneg Hcn Hfits Hsize. rewrite insert_eq, Hcn, Hfits. cbv zeta.
  cbn [set_pendingRows pendingRows].
  destruct (Z.geb _ _) eqn:Hge; [|lia].
  rewrite flushBatch_eq. cbn [set_pendingRows connection pendingRows].
  rewrite Hcn. cbn [negb orb].
  destruct (length (pendingRows s ++ rows) =? 0)%nat eqn:Hlen.
  - apply Nat.eqb_eq, length_zero_iff_nil in Hlen. rewrite Hlen.
    reflexivity.
  - rewrite retry_loop_eq. unfold max_attempts, or_default.
    destruct (maxRetries config =? 0) eqn:H0; [lia|].
    destruct (0 <? maxRetries config) eqn:Hlt; [lia|]. reflexivity.
Qed.

(** ** A back end that accepts everything *)

(** What a successful attempt sends for [rows]. *)
Definition transaction_of (rows : list Row) : list Event :=
  if enabled config
  then [Exec StartTransaction; Exec (InsertRows rows); Exec Commit]
  else [Exec (InsertRows rows)].

(** What a successful [connect()] sends. *)
Definition handshake : list Event :=
  [OpenConnection; Exec UseDatabase;
   Exec (if createTableOptions config then CreateTable else ShowTables)].

(** The rows sent so far, in the order they were sent. *)
Definition rows_sent (s : St) : list Row := concat (write_groups (events s)).

(** The driver is connected, or it is fresh and can connect: it has no
    client yet and nothing buffered, and the table is there or can be
    created. *)
Definition ready (s : St) : Prop :=
  connection s = true \/
  (client s = false /\ pendingRows s = [] /\
   createTableOptions config || table_exists backend = true).

Lemma round_healthy rows attempt (s : St) :
  healthy backend -> currentTransaction s = false ->
  round rows attempt s =
  ({| client := client s; connection := connection s;
      pendingRows := pendingRows s; currentTransaction := false;
      events := events s ++ transaction_of rows |}, Return None).
Proof.
  intros Hh Hct.
  unfold round, transaction_of, try_catch, bind, get, when, execute,
    await_call, modify, of_result, ret.
  rewrite Hct. destruct (enabled config); cbn; rewrite !Hh; cbn;
    rewrite ?Hh; cbn; rewrite <- ?app_assoc, ?Hct; reflexivity.
Qed.

Lemma flushBatch_healthy fuel (s : St) :
  healthy backend -> connection s = true ->
  currentTransaction s = false -> 0 < max_attempts ->
  pendingRows s <> [] ->
  flushBatch config backend (Datatypes.S fuel) s =
  ({| client := client s; connection := true; pendingRows := [];
      currentTransaction := false;
      events := events s ++ transaction_of (pendingRows s) |}, Return tt).
Proof.
  intros Hh Hcn Hct Hmax Hne. rewrite flushBatch_eq, Hcn.
  destruct (pendingRows s) as [|row rows] eqn:Hp; [congruence|].
  cbn [negb orb length Nat.eqb]. rewrite retry_loop_eq.
  destruct (0 <? max_attempts) eqn:Hlt; [|lia].
  unfold bind. rewrite round_healthy by assumption. cbn. rewrite Hcn.
  reflexivity.
Qed.

Lemma connect_healthy (s : St) :
  healthy backend -> client s = false ->
  createTableOptions config || table_exists backend = true ->
  connect config backend s =
  ({| client := true; connection := true; pendingRows := pendingRows s;
      currentTransaction := currentTransaction s;
      events := events s ++ handshake |}, Return tt).
Proof.
  intros Hh Hcl Hok.
  unfold connect, handshake, ensureTableExists, bind, get, when, execute,
    await_call, modify, of_result, ret, throw, set_client, set_connection.
  rewrite Hcl. cbn. rewrite !Hh. cbn. rewrite ?Hh. cbn.
  destruct (createTableOptions config); cbn in *.
  - rewrite ?Hh. cbn. rewrite <- !app_assoc. reflexivity.
  - rewrite ?Hh, Hok. cbn. rewrite <- !app_assoc. reflexivity.
Qed.

Lemma rows_sent_transaction (evs : list Event) (rows : list Row) :
  concat (write_groups (evs ++ transaction_of rows))
  = concat (write_groups evs) ++ rows.
Proof.
  rewrite write_groups_app, concat_app. unfold transaction_of.
  destruct (enabled config); cbn; rewrite app_nil_r; reflexivity.
Qed.

Lemma rows_sent_handshake (evs : list Event) :
  write_groups (evs ++ handshake) = write_groups evs.
Proof.
  rewrite write_groups_app. unfold handshake.
  destruct (createTableOptions config); cbn; apply app_nil_r.
Qed.

(** On a back end that accepts every call, with a retry limit that is not
    negative, [insert(rows)] with rows that fit the engine's argument
    limit returns normally and loses or repeats no row:
    the rows sent followed by the rows buffered are, after the call, what
    they were before followed by [rows]. *)
Lemma insert_healthy fuel rows (s : St) :
  healthy backend ->
  0 < max_attempts ->
  ready s ->
  currentTransaction s = false ->
  fits engine rows = true ->
  let r := insert config backend engine (Datatypes.S fuel) rows s in
  snd r = Return tt /\
  connection (fst r) = true /\
  currentTransaction (fst r) = false /\
  rows_sent (fst r) ++ pendingRows (fst r)
    = rows_sent s ++ pendingRows s ++ rows.
Proof.
  intros Hh Hmax Hready Hct Hfits. cbv zeta. rewrite insert_eq, Hfits.
  assert (exists s1,
            (if connection s then (s, Return tt)
             else connect config backend s) = (s1, Return tt) /\
            connection s1 = true /\ currentTransaction s1 = false /\
            pendingRows s1 = pendingRows s /\
            write_groups (events s1) = write_groups (events s))
    as (s1 & -> & Hcn1 & Hct1 & Hp1 & Hw1).
  { destruct (connection s) eqn:Hcn.
    - exists s. auto.
    - destruct Hready as [?|(Hcl & _ & Hok)]; [congruence|].
      rewrite connect_healthy by assumption. eexists. split; [reflexivity|].
      cbn. repeat split; [assumption|]. apply rows_sent_handshake. }
  cbv zeta. unfold rows_sent. rewrite <- Hw1, <- Hp1.
  destruct (Z.geb _ _).
  - destruct (pendingRows s1 ++ rows) as [|row rest] eqn:Hall.
    + rewrite flushBatch_eq. cbn [set_pendingRows connection pendingRows].
      rewrite Hcn1. cbn -[write_groups]. rewrite !app_nil_r. auto.
    + rewrite flushBatch_healthy;
        cbn [set_pendingRows connection pendingRows currentTransaction];
        try assumption; try discriminate.
      cbn [fst snd connection currentTransaction pendingRows events].
      rewrite rows_sent_transaction, app_nil_r. auto.
  - cbn [fst snd set_pendingRows connection currentTransaction pendingRows
         events]. auto.
Qed.

(** What [close()] sends to release the driver. *)
Definition farewell (s : St) : list Event :=
  (if connection s then [CloseConnection] else [])
  ++ (if client s then [CloseClient] else []).

Lemma release_accepted (s : St) :
  (forall history, respond backend history CloseConnection = None) ->
  (forall history, respond backend history CloseClient = None) ->
  release s =
  ({| client := false; connection := false; pendingRows := pendingRows s;
      currentTransaction := currentTransaction s;
      events := events s ++ farewell s |}, Return tt).
Proof.
  intros Hcn Hcl.
  unfold release, farewell, bind, get, when, await_call, modify, of_result,
    ret, set_connection, set_client.
  destruct s as [[|] [|] pending ct evs]; cbn; rewrite ?Hcn, ?Hcl; cbn;
    rewrite ?Hcn, ?Hcl; cbn; rewrite <- ?app_assoc, ?app_nil_r; reflexivity.
Qed.

Lemma rows_sent_farewell (evs : list Event) (s : St) :
  write_groups (evs ++ farewell s) = write_groups evs.
Proof.
  rewrite write_groups_app. unfold farewell.
  destruct (connection s), (client s); cbn; apply app_nil_r.
Qed.



(** X22.  On a back end that accepts every call, with a retry limit that
    is not negative, a driver that is handed a series of batches, none
    larger than the engine takes as arguments of [push], and is then
    closed has sent every row of its buffer and of the batches, once and
    in order; a fresh driver connects on the first batch; [close()]
    returns normally and leaves neither connection nor client. *)
Theorem X22_healthy_inserts_then_close_deliver_every_row
    (fuel : nat) (batches : list (list Row)) (s : St) :
  healthy backend ->
  0 < max_attempts ->
  ready s ->
  currentTransaction s = false ->
  Forall (fun rows => fits engine rows = true) batches ->
  let s1 := fold_left
              (fun s0 rows =>
                 fst (insert config backend engine (Datatypes.S fuel) rows
                        s0))
              batches s in
  let r := close config backend (Datatypes.S fuel) s1 in
  snd r = Return tt /\
  rows_sent (fst r) = rows_sent s ++ pendingRows s ++ concat batches /\
  pendingRows (fst r) = [] /\
  connection (fst r) = false /\ client (fst r) = false.
Proof.
  intros Hh Hmax Hready Hct Hfit. revert s Hready Hct.
  induction Hfit as [|rows batches Hrows _ IH]; intros s Hready Hct;
    cbv zeta.
  - cbn [fold_left concat]. rewrite app_nil_r, close_eq.
    unfold try_finally. rewrite settle_eq by assumption.
    destruct (pendingRows s) as [|row rest] eqn:Hp.
    + cbn [length Nat.ltb Nat.leb ret].
      rewrite release_accepted by (intros; apply Hh).
      cbn [fst snd client connection pendingRows events]. unfold rows_sent.
      cbn [events]. rewrite rows_sent_farewell, app_nil_r. auto.
    + destruct Hready as [Hcn|(_ & ? & _)]; [|congruence].
      cbn [length Nat.ltb Nat.leb].
      rewrite flushBatch_healthy by (try assumption; congruence).
      rewrite release_accepted by (intros; apply Hh).
      cbn [fst snd client connection pendingRows events]. unfold rows_sent.
      cbn [events].
      rewrite rows_sent_farewell, rows_sent_transaction, Hp. auto.
  - cbn [fold_left concat].
    destruct (insert_healthy fuel rows s Hh Hmax Hready Hct Hrows)
      as (_ & Hcn1 & Hct1 & Hrowsent).
    cbv zeta in *.
    destruct (IH _ (or_introl Hcn1) Hct1) as (Hr & Hsent & Hrest).
    cbv zeta in *. split; [exact Hr|]. split; [|exact Hrest].
    rewrite Hsent, app_assoc, Hrowsent, <- !app_assoc. reflexivity.
Qed.

(** ** Releasing the connection and the client *)

Lemma await_call_held ev :
  is_lifecycle ev = false -> respects held (await_call backend ev).
Proof.
  intros Hev s. unfold await_call, held.
  destruct (respond backend (events s) ev); cbn; rewrite lifecycle_app;
    cbn; rewrite Hev, app_nil_r; auto.
Qed.

Lemma flushBatch_held fuel : respects held (flushBatch config backend fuel).
Proof.
  intros s. rewrite flushBatch_eq.
  destruct (negb (connection s) || _); [apply held_refl|].
  apply (held_trans _ (set_pendingRows [] s)); [repeat split|].
  apply (retry_loop_spec fuel (pendingRows s) 0 (set_pendingRows [] s)).
  lia.
Qed.

(** The [try] block of [close()] opens and closes nothing. *)
Lemma settle_held fuel : respects held (settle fuel).
Proof.
  pose proof held_refl. pose proof held_trans. unfold settle, execute.
  repeat first [ apply flushBatch_held
               | apply await_call_held; reflexivity
               | respects_step ].
Qed.

Lemma await_call_total ev : total (await_call backend ev).
Proof.
  intros s. unfold await_call.
  destruct (respond backend (events s) ev); discriminate.
Qed.

Lemma settle_total fuel :
  (0 < fuel)%nat -> (Z.to_nat max_attempts <= fuel)%nat ->
  total (settle fuel).
Proof.
  intros Hpos Hfuel. unfold settle, execute.
  apply total_bind; [apply total_get | intros s0].
  apply total_bind; [|intros _].
  { apply total_when. intros s1. apply flushBatch_total; assumption. }
  apply total_bind; [apply total_get | intros s1].
  apply total_when, total_try_catch; [|intros error].
  - apply total_when, await_call_total.
  - apply total_bind; [apply total_when, await_call_total | intros _].
    apply total_throw.
Qed.

(** X23.  When the back end rejects [connection.close()], [close()] on a
    connected driver throws that rejection, which takes the place of an
    error of the final flush, and stops there: the connection stays
    set, and the client is neither closed nor cleared. *)
Theorem X23_rejected_connection_close_keeps_the_client
    (fuel : nat) (s : St) (e : Error) :
  connection s = true ->
  (forall history, respond backend history CloseConnection = Some e) ->
  (0 < fuel)%nat -> (Z.to_nat max_attempts <= fuel)%nat ->
  let r := close config backend fuel s in
  snd r = Throw e /\
  connection (fst r) = true /\
  client (fst r) = client s /\
  lifecycle (events (fst r)) = lifecycle (events s) ++ [CloseConnection].
Proof.
  intros Hcn He Hpos Hfuel. cbv zeta. rewrite close_eq. unfold try_finally.
  pose proof (settle_held fuel s) as (Hcl1 & Hcn1 & Hl1).
  pose proof (settle_total fuel Hpos Hfuel s) as Htot.
  rewrite Hcn in Hcn1.
  assert (forall s1 : St, connection s1 = true ->
            release s1 =
            ({| client := client s1; connection := true;
                pendingRows := pendingRows s1;
                currentTransaction := currentTransaction s1;
                events := events s1 ++ [CloseConnection] |}, Throw e))
    as Hrel.
  { intros s1 H1. unfold release, bind, get, when, await_call.
    rewrite H1, He. cbn. rewrite H1. reflexivity. }
  destruct (settle fuel s) as [s1 [[]|e1|]]; cbn [fst snd] in *;
    try congruence; rewrite Hrel by assumption; cbn;
    rewrite lifecycle_app, Hl1; auto.
Qed.

(** X24.  When the back end accepts [connection.close()] and
    [client.close()], [close()] releases both and clears both fields
    whether the final flush succeeds or fails, each of them once and only
    if it was set; and it ends as the flush ended, so that the error of a
    failed flush reaches the caller after the release. *)
Theorem X24_close_releases_even_when_the_flush_fails
    (fuel : nat) (s : St) :
  (forall history, respond backend history CloseConnection = None) ->
  (forall history, respond backend history CloseClient = None) ->
  (0 < fuel)%nat -> (Z.to_nat max_attempts <= fuel)%nat ->
  let r := close config backend fuel s in
  snd r = snd (settle fuel s) /\
  snd r <> Hang /\
  connection (fst r) = false /\
  client (fst r) = false /\
  lifecycle (events (fst r)) = lifecycle (events s) ++ farewell s.
Proof.
  intros Hcn Hcl Hpos Hfuel. cbv zeta. rewrite close_eq. unfold try_finally.
  pose proof (settle_held fuel s) as (Hcl1 & Hcn1 & Hl1).
  pose proof (settle_total fuel Hpos Hfuel s) as Htot.
  pose proof (release_accepted (fst (settle fuel s)) Hcn Hcl) as Hrel.
  assert (farewell (fst (settle fuel s)) = farewell s) as Hf
    by (unfold farewell; rewrite Hcl1, Hcn1; reflexivity).
  rewrite Hf in Hrel.
  destruct (settle fuel s) as [s1 [[]|e1|]]; cbn [fst snd] in *;
    try congruence; rewrite Hrel; cbn [fst snd client connection events];
    rewrite lifecycle_app, Hl1;
    (split; [reflexivity|]); (split; [discriminate|]);
    (split; [reflexivity|]); (split; [reflexivity|]);
    f_equal; unfold farewell; destruct (connection s), (client s);
    reflexivity.
Qed.

End Facts.
End DatabricksMore.

(** ** The Databricks scenarios *)

Module DatabricksMoreScenarios.
Import Databricks DatabricksMore Observations Scenarios MoreScenarios.

Lemma X18_fresh_driver_witness :
  currentTransaction
    (fst (connect databricks_config insert_always_fails new_driver)) = false /\
  currentTransaction
    (fst (insert databricks_config insert_always_fails v8 10
            [id_row 1; id_row 2] new_driver)) = false /\
  currentTransaction
    (fst (flushBatch databricks_config insert_always_fails 10 new_driver))
    = false /\
  currentTransaction
    (fst (close databricks_config insert_always_fails 10 new_driver))
    = false /\
  close databricks_config insert_always_fails 10 new_driver =
  try_finally
    (if (0 <? length (pendingRows new_driver))%nat
     then flushBatch databricks_config insert_always_fails 10 else ret tt)
    (release insert_always_fails) new_driver.
Proof.
  apply (X18_no_transaction_is_left_open databricks_config
           insert_always_fails v8 10 [id_row 1; id_row 2] new_driver).
  reflexivity.
Defined.

(** The warehouse refuses the connection; two more [insert()] calls
    follow, of one and of five rows, and then a third. *)
Lemma X19_unreachable_warehouse_witness :
  let r := insert databricks_config unreachable_warehouse v8 10 five_rows
             new_driver in
  let s' := after_inserts databricks_config unreachable_warehouse v8
              [(10%nat, [id_row 6]); (10%nat, five_rows)] (fst r) in
  snd r = Throw "ECONNREFUSED" /\
  client (fst r) = true /\ connection (fst r) = false /\
  pendingRows (fst r) = pendingRows new_driver /\
  events (fst r) = events new_driver ++ [OpenConnection] /\
  events s' = events (fst r) /\
  client s' = true /\ connection s' = false /\
  pendingRows s' =
    pendingRows new_driver
    ++ concat (List.filter (fits v8)
                 (map snd [(10%nat, [id_row 6]); (10%nat, five_rows)])) /\
  insert databricks_config unreachable_warehouse v8 10 [id_row 7] s' =
    if fits v8 [id_row 7]
    then (set_pendingRows (pendingRows s' ++ [id_row 7]) s', Return tt)
    else (s', Throw (stack_overflow v8)).
Proof.
  apply (X19_inserts_after_a_rejected_connection_only_buffer
           databricks_config unreachable_warehouse v8 10 five_rows new_driver
           "ECONNREFUSED" [(10%nat, [id_row 6]); (10%nat, five_rows)] 10
           [id_row 7]); reflexivity.
Defined.

(** In that scenario seven rows wait in the buffer of a driver whose
    batch size is two, and the back end has seen one call, the refused
    connection. *)
Example rows_pile_up_behind_a_refused_connection :
  let r := insert databricks_config unreachable_warehouse v8 10 five_rows
             new_driver in
  let s' := after_inserts databricks_config unreachable_warehouse v8
              [(10%nat, [id_row 6]); (10%nat, five_rows)] (fst r) in
  let r' := insert databricks_config unreachable_warehouse v8 10 [id_row 7]
              s' in
  snd r' = Return tt /\
  length (pendingRows (fst r')) = 7%nat /\
  events (fst r') = [OpenConnection].
Proof. vm_compute. repeat split; reflexivity. Qed.

Lemma X20_negative_limit_witness :
  insert negative_retries_config healthy_backend v8 10 five_rows
    (databricks_connected []) =
  (set_pendingRows [] (databricks_connected []), Return tt).
Proof.
  apply (X20_negative_retry_limit_drops_the_buffer negative_retries_config
           healthy_backend v8 9 five_rows (databricks_connected [])).
  - reflexivity.
  - reflexivity.
  - reflexivity.
  - vm_compute. discriminate.
Defined.

Lemma X22_three_batches_witness :
  let s1 := fold_left
              (fun s0 rows =>
                 fst (insert databricks_config healthy_backend v8 10 rows
                        s0))
              [[id_row 1]; [id_row 2; id_row 3]; [id_row 4]] new_driver in
  let r := close databricks_config healthy_backend 10 s1 in
  snd r = Return tt /\
  rows_sent (fst r) =
    rows_sent new_driver ++ pendingRows new_driver
    ++ concat [[id_row 1]; [id_row 2; id_row 3]; [id_row 4]] /\
  pendingRows (fst r) = [] /\
  connection (fst r) = false /\ client (fst r) = false.
Proof.
  apply (X22_healthy_inserts_then_close_deliver_every_row databricks_config
           healthy_backend v8 9
           [[id_row 1]; [id_row 2; id_row 3]; [id_row 4]] new_driver).
  - intros history ev. reflexivity.
  - reflexivity.
  - right. repeat split; reflexivity.
  - reflexivity.
  - repeat constructor.
Defined.

Lemma X23_rejected_close_witness :
  let r := close databricks_config close_rejected 10
             (databricks_connected [id_row 1]) in
  snd r = Throw "socket hang up" /\
  connection (fst r) = true /\
  client (fst r) = client (databricks_connected [id_row 1]) /\
  lifecycle (events (fst r)) =
    lifecycle (events (databricks_connected [id_row 1]))
    ++ [CloseConnection].
Proof.
  apply (X23_rejected_connection_close_keeps_the_client databricks_config
           close_rejected 10 (databricks_connected [id_row 1])
           "socket hang up").
  - reflexivity.
  - intros history. reflexivity.
  - lia.
  - vm_compute. lia.
Defined.

Lemma X24_failed_flush_witness :
  let r := close databricks_config insert_always_fails 10
             (databricks_connected [id_row 1]) in
  snd r = snd (settle databricks_config insert_always_fails 10
                 (databricks_connected [id_row 1])) /\
  snd r <> Hang /\
  connection (fst r) = false /\
  client (fst r) = false /\
  lifecycle (events (fst r)) =
    lifecycle (events (databricks_connected [id_row 1]))
    ++ farewell (databricks_connected [id_row 1]).
Proof.
  apply (X24_close_releases_even_when_the_flush_fails databricks_config
           insert_always_fails 10 (databricks_connected [id_row 1])).
  - intros history. reflexivity.
  - intros history. reflexivity.
  - lia.
  - vm_compute. lia.
Defined.

(** In that scenario the flush fails for good, and its error is what
    [close()] throws once the connection and the client are released. *)
Example failed_flush_then_close :
  let r := close databricks_config insert_always_fails 10
             (databricks_connected [id_row 1]) in
  snd r = Throw "write failed" /\
  lifecycle (events (fst r)) = [CloseConnection; CloseClient] /\
  count_inserts (events (fst r)) = 3%nat /\
  sleeps (events (fst r)) = [2000; 4000].
Proof. vm_compute. repeat split; reflexivity. Qed.

End DatabricksMoreScenarios.

(* ===================================================================== *)
(** * The batched writers against the specification *)
(* ===================================================================== *)

Module WriterFacts.
Import Scenarios MoreScenarios Observations.

(** C1, at a failing input.  Databricks with [maxRetries: 3] on a back end
    where every [INSERT] fails: the error reaches the caller after three
    attempts, that is after two retries, each rolled back.  Snowflake with
    [maxRetries: 3] makes four attempts, three of them retries, before it
    gives up. *)
Theorem C1_databricks_gives_up_one_retry_early :
  let d := Databricks.insert databricks_config insert_always_fails v8 10
             [id_row 1; id_row 2] Databricks.new_driver in
  let f := Snowflake.insert snowflake_config insert_always_fails 20
             [id_row 1; id_row 2] snowflake_connected in
  Databricks.maxRetries databricks_config = 3 /\
  snd d = Throw "write failed" /\
  count_inserts (Databricks.events (fst d)) = 3%nat /\
  count_exec Rollback (Databricks.events (fst d)) = 3%nat /\
  Snowflake.max_retries snowflake_config = 3 /\
  snd f = Throw "Failed to insert data into Snowflake: Query execution failed: write failed" /\
  count_exec Begin (Snowflake.events (fst f)) = 4%nat /\
  count_exec Rollback (Snowflake.events (fst f)) = 4%nat.
Proof. vm_compute. repeat split; reflexivity. Qed.




Example snowflake_five_rows_groups :
  map (@length Row)
    (write_groups
       (Snowflake.events
          (fst (Snowflake.insert snowflake_config healthy_backend 20
                  five_rows snowflake_connected)))) = [2; 2; 1]%nat.
Proof. vm_compute. reflexivity. Qed.

(** The two ways in which a buffer past the batch size stays unsent: the
    warehouse refused the connection, or the retry limit is negative. *)
Example databricks_buffer_past_the_batch_size_unsent :
  let s := fst (Databricks.insert databricks_config unreachable_warehouse
                  v8 10 five_rows Databricks.new_driver) in
  let r := Databricks.insert databricks_config unreachable_warehouse v8 10
             five_rows s in
  let r' := Databricks.insert negative_retries_config healthy_backend v8 10
              five_rows (databricks_connected []) in
  snd r = Return tt /\
  Databricks.pendingRows (fst r) = five_rows /\
  write_groups (Databricks.events (fst r)) = [] /\
  snd r' = Return tt /\
  Databricks.pendingRows (fst r') = [] /\
  write_groups (Databricks.events (fst r')) = [].
Proof. vm_compute. repeat split; reflexivity. Qed.

(** A connected Databricks driver whose buffer holds one row. *)
Lemma C10_failed_flush_witness :
  let s := fst (Databricks.insert databricks_config insert_always_fails v8
                  10 [id_row 1] Databricks.new_driver) in
  let s1 := fst (Databricks.flushBatch databricks_config insert_always_fails
                   10 s) in
  Databricks.pendingRows s1 = [] /\
  write_groups
    (Databricks.events
       (fst (Databricks.close databricks_config insert_always_fails 10 s1))) =
    write_groups (Databricks.events s1) /\
  forall rows2, exists k : nat,
    write_groups
      (Databricks.events
         (fst (Databricks.insert databricks_config insert_always_fails v8 10
                 rows2 s1))) =
      write_groups (Databricks.events s1) ++ replicate k rows2.
Proof.
  apply (DatabricksFacts.C10_failed_flush_rows_leave_the_buffer
           databricks_config insert_always_fails v8 10 10).
  reflexivity.
Defined.

Example failed_flush_throws_and_empties_buffer :
  let s := fst (Databricks.insert databricks_config insert_always_fails v8
                  10 [id_row 1] Databricks.new_driver) in
  let r := Databricks.flushBatch databricks_config insert_always_fails 10 s in
  Databricks.pendingRows s = [id_row 1] /\
  snd r = Throw "write failed" /\
  Databricks.pendingRows (fst r) = [].
Proof. vm_compute. repeat split; reflexivity. Qed.

End WriterFacts.

(* ===================================================================== *)
(** * Properties of the BigQuery writer *)
(* ===================================================================== *)

Module BigQueryFacts.
Import BigQuery Frame.

Lemma bq_written_app (xs ys : list Call) :
  written (xs ++ ys) = written xs ++ written ys.
Proof. apply omap_app. Qed.

(** The call that hands [rows] over: through the write stream when there
    is one, through [table.insert] otherwise. *)
Definition delivery (s : St) (rows : list Row) : Call :=
  if writeStream s then StreamWrite rows else TableInsert rows.

(** The state once [c] has been called and the buffer emptied. *)
Definition flushed (s : St) (c : Call) : St :=
  {| client := client s; table := table s; pendingRows := [];
     writeStream := writeStream s; calls := calls s ++ [c] |}.

Section Facts.
Variable config : Config.
Variable backend : Backend.
Variable engine : Engine.

(** [flushBatch()], step by step. *)
Lemma bq_flushBatch_eq (s : St) :
  flushBatch backend engine s =
  if (length (pendingRows s) =? 0)%nat then (s, Return tt)
  else if writeStream s || table s then
    of_result (respond backend (calls s) (delivery s (pendingRows s)))
      (flushed s (delivery s (pendingRows s)))
  else
    (set_pendingRows [] s, Throw (null_read engine "insert")).
Proof.
  unfold flushBatch, bind, get, modify, await_call, delivery, flushed.
  destruct s as [cl tb pending [|] cs]; cbn;
    destruct (length pending =? 0)%nat; try reflexivity.
  destruct tb; reflexivity.
Qed.

(** [insert(rows)], step by step. *)
Lemma bq_insert_eq rows (s : St) :
  insert config backend engine rows s =
  match (if negb (client s) || negb (table s)
         then connect config backend s else (s, Return tt))
  with
  | (s1, Return _) =>
      if fits engine rows then
        let s2 := set_pendingRows (pendingRows s1 ++ rows) s1 in
        if Z.of_nat (length (pendingRows s2)) >=? threshold config
        then flushBatch backend engine s2
        else (s2, Return tt)
      else (s1, Throw (stack_overflow engine))
  | (s1, Throw e) => (s1, Throw e)
  | (s1, Hang) => (s1, Hang)
  end.
Proof.
  unfold insert, spread, bind, get, modify, when, ret.
  destruct (negb (client s) || negb (table s));
    cbn -[Z.geb flushBatch connect Z.of_nat threshold fits].
  - destruct (connect config backend s) as [s1 [[]|e|]]; try reflexivity.
    destruct (fits engine rows); [|reflexivity].
    cbn -[Z.geb flushBatch connect Z.of_nat threshold].
    destruct (Z.geb _ _); reflexivity.
  - destruct (fits engine rows); [|reflexivity].
    cbn -[Z.geb flushBatch connect Z.of_nat threshold].
    destruct (Z.geb _ _); reflexivity.
Qed.

(** Nothing is written and the buffer is left alone. *)
Definition untouched (s s' : St) : Prop :=
  pendingRows s' = pendingRows s /\ written (calls s') = written (calls s).

Lemma bq_untouched_refl s : untouched s s.
Proof. split; reflexivity. Qed.

Lemma bq_untouched_trans s1 s2 s3 :
  untouched s1 s2 -> untouched s2 s3 -> untouched s1 s3.
Proof. intros [H1 H2] [H3 H4]. split; congruence. Qed.

Lemma bq_await_call_untouched c :
  written [c] = [] -> respects untouched (await_call backend c).
Proof.
  intros Hc s. unfold await_call.
  destruct (respond backend (calls s) c); split; cbn;
    rewrite ?bq_written_app, ?Hc, ?app_nil_r; reflexivity.
Qed.

Lemma bq_await_exists_untouched c :
  written [c] = [] -> respects untouched (await_exists backend c).
Proof.
  intros Hc s. unfold await_exists.
  pose proof (bq_await_call_untouched c Hc s) as H.
  destruct (await_call backend c s) as [s1 [[]|e|]]; exact H.
Qed.

Lemma bq_connect_untouched : respects untouched (connect config backend).
Proof.
  pose proof bq_untouched_refl. pose proof bq_untouched_trans. unfold connect.
  repeat first [ apply bq_await_call_untouched; reflexivity
               | apply bq_await_exists_untouched; reflexivity
               | apply respects_modify; intros ?; split; reflexivity
               | respects_step ].
Qed.

(** A flush makes at most one write call, which carries the buffer it
    found, and leaves the buffer empty. *)
Lemma bq_flushBatch_spec (s : St) :
  let s' := fst (flushBatch backend engine s) in
  pendingRows s' = [] /\
  exists k : nat,
    (k <= 1)%nat /\
    written (calls s') = written (calls s) ++ replicate k (pendingRows s).
Proof.
  cbv zeta. rewrite bq_flushBatch_eq.
  destruct (length (pendingRows s) =? 0)%nat eqn:Hlen.
  - apply Nat.eqb_eq, length_zero_iff_nil in Hlen. split; [assumption|].
    exists 0%nat. cbn. rewrite app_nil_r. auto.
  - destruct (writeStream s || table s).
    + assert (written [delivery s (pendingRows s)] = [pendingRows s]) as Hd
        by (unfold delivery; destruct (writeStream s); reflexivity).
      destruct (respond backend _ _); cbn; (split; [reflexivity|]);
        exists 1%nat; rewrite bq_written_app, Hd; auto.
    + cbn. split; [reflexivity|]. exists 0%nat. cbn. rewrite app_nil_r.
      auto.
Qed.

Lemma bq_insert_spec rows (s : St) :
  exists k : nat,
    (k <= 1)%nat /\
    written (calls (fst (insert config backend engine rows s))) =
      written (calls s) ++ replicate k (pendingRows s ++ rows).
Proof.
  rewrite bq_insert_eq.
  assert (exists s1 r,
            (if negb (client s) || negb (table s)
             then connect config backend s else (s, Return tt)) = (s1, r) /\
            untouched s s1) as (s1 & r & -> & Hp & Hw).
  { destruct (negb (client s) || negb (table s)).
    - pose proof (bq_connect_untouched s) as H.
      destruct (connect config backend s) as [s1 r]. eauto.
    - exists s, (Return tt). split; [reflexivity | apply bq_untouched_refl]. }
  destruct r as [[]|e|]; cbn [fst];
    try solve [exists 0%nat; cbn; rewrite app_nil_r; auto].
  destruct (fits engine rows);
    [|exists 0%nat; cbn; rewrite app_nil_r; auto].
  cbv zeta. destruct (Z.geb _ _).
  - destruct (bq_flushBatch_spec (set_pendingRows (pendingRows s1 ++ rows) s1))
      as (_ & k & Hk & Hw').
    cbn [set_pendingRows pendingRows calls] in Hw'.
    exists k. rewrite Hw', Hw, Hp. auto.
  - exists 0%nat. cbn. rewrite app_nil_r. auto.
Qed.

Lemma bq_close_untouched (s : St) :
  pendingRows s = [] -> untouched s (fst (close backend engine s)).
Proof.
  intros Hp. pose proof bq_untouched_refl. pose proof bq_untouched_trans.
  unfold close, bind at 1, get at 1. rewrite Hp.
  cbn [length Nat.ltb Nat.leb when]. unfold bind at 1, ret at 1.
  match goal with |- untouched s (fst (?m s)) =>
    assert (respects untouched m) as Hm; [|apply Hm] end.
  repeat first [ apply bq_await_call_untouched; reflexivity
               | apply respects_modify; intros ?; split; reflexivity
               | respects_step ].
Qed.

(** X25.  A write is never retried, and its rows never sent again.  One
    flush makes at most one write call, which carries the whole buffer,
    and leaves the buffer empty however that call ends; after it,
    [close()] writes nothing, and [insert(rows2)] writes at most once,
    and then [rows2] only. *)
Theorem X25_bigquery_write_is_attempted_once (s : St) :
  let s1 := fst (flushBatch backend engine s) in
  pendingRows s1 = [] /\
  (exists k : nat,
     (k <= 1)%nat /\
     written (calls s1) = written (calls s) ++ replicate k (pendingRows s)) /\
  written (calls (fst (close backend engine s1))) = written (calls s1) /\
  forall rows2, exists k : nat,
    (k <= 1)%nat /\
    written (calls (fst (insert config backend engine rows2 s1))) =
      written (calls s1) ++ replicate k rows2.
Proof.
  cbv zeta. destruct (bq_flushBatch_spec s) as (Hp & Hk).
  cbv zeta in Hp. split; [assumption|]. split; [exact Hk|]. split.
  - apply bq_close_untouched, Hp.
  - intros rows2.
    destruct (bq_insert_spec rows2 (fst (flushBatch backend engine s)))
      as (k & Hk1 & Hk2).
    exists k. rewrite Hk2, Hp. auto.
Qed.

(** X26.  When the final flush of [close()] is rejected, [close()] throws
    that rejection and releases nothing: the write stream is not ended,
    and the stream, the table and the client stay set, while the buffer
    is empty. *)
Theorem X26_bigquery_close_keeps_resources_when_the_flush_fails
    (s : St) (e : Error) :
  pendingRows s <> [] ->
  writeStream s || table s = true ->
  respond backend (calls s) (delivery s (pendingRows s)) = Some e ->
  close backend engine s = (flushed s (delivery s (pendingRows s)), Throw e).
Proof.
  intros Hne Hdest He. unfold close, bind at 1, get at 1.
  destruct (pendingRows s) as [|row rows] eqn:Hp; [congruence|].
  cbn [length Nat.ltb Nat.leb when]. unfold bind at 1.
  rewrite bq_flushBatch_eq, Hp. cbn [length Nat.eqb]. rewrite Hdest, He.
  reflexivity.
Qed.

(** ** A service that accepts everything *)

Definition accepting : Prop :=
  forall history c, respond backend history c = None.

(** The table is there or can be created. *)
Definition table_available : Prop :=
  createTableOptions config = true \/
  forall history, found backend history TableExists = true.

(** The driver holds its table, or is fresh enough to connect. *)
Definition ready (s : St) : Prop :=
  table s = true \/ (client s = false /\ pendingRows s = []).

Lemma bq_connect_accepting (s : St) :
  accepting -> table_available -> client s = false ->
  exists s1,
    connect config backend s = (s1, Return tt) /\
    client s1 = true /\ table s1 = true /\
    pendingRows s1 = pendingRows s /\
    written (calls s1) = written (calls s).
Proof.
  intros Hh Hav Hcl.
  pose proof (bq_connect_untouched s) as [Hp Hw].
  assert (exists s1, connect config backend s = (s1, Return tt) /\
                     client s1 = true /\ table s1 = true) as (s1 & Heq & H).
  { unfold connect, bind, get, when, modify, await_exists, await_call,
      of_result, ret, throw, set_client, set_table, set_writeStream.
    rewrite Hcl. cbn. rewrite !Hh. cbn.
    destruct (found backend (calls s) DatasetExists); cbn; rewrite ?Hh; cbn;
      rewrite ?Hh; cbn;
      (destruct Hav as [Hav|Hav];
       [rewrite Hav; cbn;
        match goal with |- context [found ?b ?h ?c] =>
          destruct (found b h c) end; cbn; rewrite ?Hh; cbn
       |rewrite Hav; cbn]);
      destruct (writeOptions config); cbn; eexists; split;
      try reflexivity; auto. }
  rewrite Heq in Hp, Hw. exists s1. tauto.
Qed.

Lemma bq_flushBatch_accepting (s : St) :
  accepting -> table s = true ->
  let r := flushBatch backend engine s in
  snd r = Return tt /\ pendingRows (fst r) = [] /\
  client (fst r) = client s /\ table (fst r) = true /\
  writeStream (fst r) = writeStream s /\
  concat (written (calls (fst r)))
    = concat (written (calls s)) ++ pendingRows s.
Proof.
  intros Hh Ht. cbv zeta. rewrite bq_flushBatch_eq.
  destruct (length (pendingRows s) =? 0)%nat eqn:Hlen.
  - apply Nat.eqb_eq, length_zero_iff_nil in Hlen. rewrite Hlen.
    cbn. rewrite app_nil_r. repeat split; auto.
  - rewrite Ht, orb_true_r, Hh. cbn. rewrite bq_written_app, concat_app.
    unfold delivery. destruct (writeStream s); cbn; rewrite app_nil_r; repeat split; auto.
Qed.

Lemma bq_insert_accepting rows (s : St) :
  accepting -> table_available -> ready s ->
  fits engine rows = true ->
  let r := insert config backend engine rows s in
  snd r = Return tt /\
  client (fst r) = true /\ table (fst r) = true /\
  concat (written (calls (fst r))) ++ pendingRows (fst r)
    = concat (written (calls s)) ++ pendingRows s ++ rows.
Proof.
  intros Hh Hav Hready Hfits. cbv zeta. rewrite bq_insert_eq, Hfits.
  assert (exists s1,
            (if negb (client s) || negb (table s)
             then connect config backend s else (s, Return tt))
              = (s1, Return tt) /\
            client s1 = true /\ table s1 = true /\
            pendingRows s1 = pendingRows s /\
            written (calls s1) = written (calls s))
    as (s1 & -> & Hcl1 & Ht1 & Hp1 & Hw1).
  { destruct (client s) eqn:Hcl.
    - destruct Hready as [Ht|[? _]]; [|congruence]. rewrite Ht. cbn.
      exists s. auto.
    - cbn. apply bq_connect_accepting; assumption. }
  cbv zeta. rewrite <- Hw1, <- Hp1. destruct (Z.geb _ _).
  - destruct (bq_flushBatch_accepting
                (set_pendingRows (pendingRows s1 ++ rows) s1) Hh Ht1)
      as (Hr & Hp & Hcl & Ht & _ & Hw).
    cbv zeta in *. cbn [set_pendingRows client table pendingRows calls] in *.
    rewrite Hr, Hp, Hcl, Ht, Hw, app_nil_r. repeat split; auto.
  - cbn. repeat split; auto.
Qed.

Lemma bq_close_accepting (s : St) :
  accepting -> pendingRows s = [] \/ table s = true ->
  let r := close backend engine s in
  snd r = Return tt /\
  concat (written (calls (fst r)))
    = concat (written (calls s)) ++ pendingRows s /\
  pendingRows (fst r) = [] /\
  client (fst r) = false /\ table (fst r) = false /\
  writeStream (fst r) = false.
Proof.
  intros Hh Hok. cbv zeta.
  assert (exists s1,
            when (0 <? length (pendingRows s))%nat (flushBatch backend engine) s
              = (s1, Return tt) /\
            pendingRows s1 = [] /\
            concat (written (calls s1))
              = concat (written (calls s)) ++ pendingRows s)
    as (s1 & Heq & Hp & Hw).
  { destruct (pendingRows s) as [|row rest] eqn:Hp.
    - exists s. cbn. rewrite app_nil_r. repeat split; auto.
    - destruct Hok as [?|Ht]; [congruence|].
      destruct (bq_flushBatch_accepting s Hh Ht) as (Hr & Hp' & _ & _ & _ & Hw).
      cbv zeta in *. cbn [length Nat.ltb Nat.leb when].
      destruct (flushBatch backend engine s) as [s1 r]. cbn in *. subst r.
      exists s1. rewrite Hw, Hp. auto. }
  assert (close backend engine s =
          ({| client := false; table := false; pendingRows := pendingRows s1;
              writeStream := false;
              calls := calls s1
                       ++ (if writeStream s1 then [StreamEnd] else []) |},
           Return tt)) as ->.
  { unfold close, bind at 1, get at 1. unfold bind at 1. rewrite Heq.
    unfold bind, get, when, await_call, modify, of_result, ret,
      set_writeStream, set_table, set_client.
    destruct (writeStream s1) eqn:Hws; cbn; rewrite ?Hh; cbn;
      rewrite ?app_nil_r, ?Hws; reflexivity. }
  cbn [fst snd client table pendingRows writeStream calls].
  rewrite bq_written_app, concat_app.
  destruct (writeStream s1); cbn; rewrite app_nil_r; repeat split; auto.
Qed.

(** X27.  On a service that accepts every call, a driver that is handed
    a series of batches, none larger than the engine takes as arguments
    of [push], and is then closed has handed over every row of its
    buffer and of the batches, once and in order; a fresh driver connects
    on the first batch; [close()] returns normally and leaves neither
    client, table nor write stream. *)
Theorem X27_bigquery_inserts_then_close_deliver_every_row
    (batches : list (list Row)) (s : St) :
  accepting -> table_available -> ready s ->
  Forall (fun rows => fits engine rows = true) batches ->
  let s1 := fold_left
              (fun s0 rows => fst (insert config backend engine rows s0))
              batches s in
  let r := close backend engine s1 in
  snd r = Return tt /\
  concat (written (calls (fst r)))
    = concat (written (calls s)) ++ pendingRows s ++ concat batches /\
  pendingRows (fst r) = [] /\
  client (fst r) = false /\ table (fst r) = false /\
  writeStream (fst r) = false.
Proof.
  intros Hh Hav Hready Hfit. revert s Hready.
  induction Hfit as [|rows batches Hrows _ IH]; intros s Hready; cbv zeta.
  - cbn [fold_left concat]. rewrite app_nil_r. apply bq_close_accepting.
    + assumption.
    + destruct Hready as [Ht|[_ Hp]]; auto.
  - cbn [fold_left concat].
    destruct (bq_insert_accepting rows s Hh Hav Hready Hrows)
      as (_ & _ & Ht & Hsum).
    cbv zeta in *.
    destruct (IH _ (or_introl Ht)) as (Hr & Hsent & Hrest).
    cbv zeta in *. split; [exact Hr|]. split; [|exact Hrest].
    rewrite Hsent, app_assoc, Hsum, <- !app_assoc. reflexivity.
Qed.

(** ** A connection attempt that is rejected *)

(** The state after a series of [insert()] calls. *)
Definition after_inserts (later : list (list Row)) (s : St) : St :=
  fold_left (fun s0 rows => fst (insert config backend engine rows s0))
    later s.

Lemma bq_after_inserts_cons rows later (s : St) :
  after_inserts (rows :: later) s =
  after_inserts later (fst (insert config backend engine rows s)).
Proof. reflexivity. Qed.

(** With a client and neither table nor write stream, [insert(rows)]
    skips the connection attempt - [connect()] returns at its guard -
    and calls the service no more. *)
Lemma bq_insert_without_table rows (s : St) :
  client s = true -> table s = false -> writeStream s = false ->
  insert config backend engine rows s =
  if fits engine rows then
    if (Z.of_nat (length (pendingRows s ++ rows)) >=? threshold config)
       && negb (length (pendingRows s ++ rows) =? 0)%nat
    then (set_pendingRows [] s, Throw (null_read engine "insert"))
    else (set_pendingRows (pendingRows s ++ rows) s, Return tt)
  else (s, Throw (stack_overflow engine)).
Proof.
  intros Hcl Ht Hws. rewrite bq_insert_eq, Hcl, Ht. cbn [negb orb].
  unfold connect, bind, get, when. rewrite Hcl. cbn [negb ret].
  destruct (fits engine rows); [|reflexivity].
  cbv zeta. cbn [set_pendingRows pendingRows].
  destruct (Z.geb _ _); [|reflexivity].
  rewrite bq_flushBatch_eq.
  cbn [set_pendingRows pendingRows writeStream table client calls andb].
  rewrite Hws, Ht. cbn [orb].
  destruct (length (pendingRows s ++ rows) =? 0)%nat; [|reflexivity].
  destruct s; cbn in *; subst; reflexivity.
Qed.

Lemma bq_after_inserts_without_table later : forall s : St,
  client s = true -> table s = false -> writeStream s = false ->
  let s' := after_inserts later s in
  calls s' = calls s /\ client s' = true /\ table s' = false /\
  writeStream s' = false.
Proof.
  induction later as [|rows later IH]; intros s Hcl Ht Hws; cbv zeta.
  - cbn. auto.
  - rewrite bq_after_inserts_cons, bq_insert_without_table by assumption.
    destruct (fits engine rows); [|apply IH; assumption].
    destruct (_ && _); cbn [fst];
      match goal with |- context [after_inserts later ?x] =>
        destruct (IH x Hcl Ht Hws) as (Hc & H) end;
      cbv zeta in *; rewrite Hc; auto.
Qed.

(** X28.  On a fresh driver whose first call to the service is rejected,
    [insert(rows)] throws that rejection and buffers nothing; the client
    stays set and the table unset.  From then on the service is called
    no more: after any series of further [insert()] calls the driver is
    still in that condition, and the next [insert(rows')] again skips
    the connection attempt ([connect()] returns at its guard).  It
    throws the engine's [RangeError] and buffers nothing when [rows']
    are more than the engine takes as arguments of [push]; otherwise,
    below the batch size it buffers and returns, and from the batch size
    on it throws the engine's [TypeError] for reading [insert] of
    [null], from the flush, which has emptied the buffer by then. *)
Theorem X28_bigquery_inserts_after_a_rejected_connection
    (rows : list Row) (s : St) (e : Error)
    (later : list (list Row)) (rows' : list Row) :
  client s = false -> table s = false -> writeStream s = false ->
  respond backend (calls s) DatasetExists = Some e ->
  let r := insert config backend engine rows s in
  let s' := after_inserts later (fst r) in
  snd r = Throw e /\
  client (fst r) = true /\ table (fst r) = false /\
  pendingRows (fst r) = pendingRows s /\
  calls (fst r) = calls s ++ [DatasetExists] /\
  calls s' = calls (fst r) /\
  client s' = true /\ table s' = false /\ writeStream s' = false /\
  insert config backend engine rows' s' =
    if fits engine rows' then
      if (Z.of_nat (length (pendingRows s' ++ rows')) >=? threshold config)
         && negb (length (pendingRows s' ++ rows') =? 0)%nat
      then (set_pendingRows [] s', Throw (null_read engine "insert"))
      else (set_pendingRows (pendingRows s' ++ rows') s', Return tt)
    else (s', Throw (stack_overflow engine)).
Proof.
  intros Hcl Ht Hws He. cbv zeta.
  assert (insert config backend engine rows s =
          ({| client := true; table := false; pendingRows := pendingRows s;
              writeStream := false; calls := calls s ++ [DatasetExists] |},
           Throw e)) as ->.
  { rewrite bq_insert_eq, Hcl. cbn [negb orb].
    unfold connect, bind, get, when, modify, await_exists, await_call,
      set_client.
    rewrite Hcl. cbn. rewrite He, Ht, Hws. reflexivity. }
  cbn [fst snd].
  match goal with |- context [after_inserts later ?x] =>
    destruct (bq_after_inserts_without_table later x eq_refl eq_refl
                eq_refl) as (Hc' & Hcl' & Ht' & Hws') end.
  cbv zeta in *. cbn [client table pendingRows calls] in *.
  repeat (split; [first [reflexivity | assumption]|]).
  apply bq_insert_without_table; assumption.
Qed.

End Facts.
End BigQueryFacts.

(** ** The BigQuery scenarios *)

Module BigQueryScenarios.
Import BigQuery BigQueryFacts Scenarios MoreScenarios.

Lemma X26_rejected_final_flush_witness :
  close bigquery_write_rejected v8 (bigquery_connected [id_row 1]) =
  (flushed (bigquery_connected [id_row 1])
     (delivery (bigquery_connected [id_row 1])
        (pendingRows (bigquery_connected [id_row 1]))),
   Throw "quota exceeded").
Proof.
  apply (X26_bigquery_close_keeps_resources_when_the_flush_fails
           bigquery_write_rejected v8 (bigquery_connected [id_row 1])
           "quota exceeded").
  - discriminate.
  - reflexivity.
  - reflexivity.
Defined.

(** A second [close()] then releases the driver and writes nothing. *)
Example second_close_releases :
  let s1 := fst (close bigquery_write_rejected v8
                   (bigquery_connected [id_row 1])) in
  client s1 = true /\ table s1 = true /\
  close bigquery_write_rejected v8 s1 =
  ({| client := false; table := false; pendingRows := [];
      writeStream := false; calls := [TableInsert [id_row 1]] |},
   Return tt).
Proof. vm_compute. repeat split; reflexivity. Qed.

Lemma X27_fresh_driver_witness :
  let s1 := fold_left
              (fun s0 rows => fst (insert bigquery_config
                                     bigquery_accepting v8 rows s0))
              [[id_row 1]; [id_row 2; id_row 3]; [id_row 4]] new_driver in
  let r := close bigquery_accepting v8 s1 in
  snd r = Return tt /\
  concat (written (calls (fst r)))
    = concat (written (calls new_driver)) ++ pendingRows new_driver
      ++ concat [[id_row 1]; [id_row 2; id_row 3]; [id_row 4]] /\
  pendingRows (fst r) = [] /\
  client (fst r) = false /\ table (fst r) = false /\
  writeStream (fst r) = false.
Proof.
  apply (X27_bigquery_inserts_then_close_deliver_every_row bigquery_config
           bigquery_accepting v8
           [[id_row 1]; [id_row 2; id_row 3]; [id_row 4]] new_driver).
  - intros history c. reflexivity.
  - left. reflexivity.
  - right. split; reflexivity.
  - repeat constructor.
Defined.

(** The service refuses the first call; an [insert()] of one row and one
    of two rows follow, and then a third. *)
Lemma X28_unreachable_service_witness :
  let r := insert bigquery_config bigquery_unreachable v8 [id_row 1]
             new_driver in
  let s' := after_inserts bigquery_config bigquery_unreachable v8
              [[id_row 2]; [id_row 3; id_row 4]] (fst r) in
  snd r = Throw "invalid credentials" /\
  client (fst r) = true /\ table (fst r) = false /\
  pendingRows (fst r) = pendingRows new_driver /\
  calls (fst r) = calls new_driver ++ [DatasetExists] /\
  calls s' = calls (fst r) /\
  client s' = true /\ table s' = false /\ writeStream s' = false /\
  insert bigquery_config bigquery_unreachable v8 [id_row 5] s' =
    if fits v8 [id_row 5] then
      if (Z.of_nat (length (pendingRows s' ++ [id_row 5]))
          >=? threshold bigquery_config)
         && negb (length (pendingRows s' ++ [id_row 5]) =? 0)%nat
      then (set_pendingRows [] s', Throw (null_read v8 "insert"))
      else (set_pendingRows (pendingRows s' ++ [id_row 5]) s', Return tt)
    else (s', Throw (stack_overflow v8)).
Proof.
  apply (X28_bigquery_inserts_after_a_rejected_connection bigquery_config
           bigquery_unreachable v8 [id_row 1] new_driver
           "invalid credentials" [[id_row 2]; [id_row 3; id_row 4]]
           [id_row 5]);
    reflexivity.
Defined.

(** In that scenario the one-row call buffers its row, the two-row call
    takes the buffer past the batch size of two and fails in the flush,
    which drops all three rows, and the third call buffers again; the
    service has seen one call. *)
Example rows_are_dropped_behind_a_refused_connection :
  let r := insert bigquery_config bigquery_unreachable v8 [id_row 1]
             new_driver in
  let r1 := insert bigquery_config bigquery_unreachable v8 [id_row 2]
              (fst r) in
  let r2 := insert bigquery_config bigquery_unreachable v8
              [id_row 3; id_row 4] (fst r1) in
  let r3 := insert bigquery_config bigquery_unreachable v8 [id_row 5]
              (fst r2) in
  snd r1 = Return tt /\ pendingRows (fst r1) = [id_row 2] /\
  snd r2 = Throw "Cannot read properties of null (reading 'insert')" /\
  pendingRows (fst r2) = [] /\
  snd r3 = Return tt /\ pendingRows (fst r3) = [id_row 5] /\
  calls (fst r3) = [DatasetExists].
Proof. vm_compute. repeat split; reflexivity. Qed.

End BigQueryScenarios.

(* ===================================================================== *)
(** * Properties of the Redshift writer *)
(* ===================================================================== *)

Module RedshiftFacts.
Import Redshift Frame Observations.


(** From [s] to [s'] the driver kept its pool and its client, and issued
    no [TRUNCATE], [BEGIN] or [ROLLBACK]. *)
Definition quiet (s s' : St) : Prop :=
  pool s' = pool s /\ client s' = client s /\
  exists rest,
    events s' = events s ++ rest /\
    count_run Truncate rest = 0%nat /\ count_run Begin rest = 0%nat /\
    count_run Rollback rest = 0%nat.



Section Facts.
Variable config : Config.
Variable backend : Backend.

(** The [try] block of [executeInsert], after the [TRUNCATE] and the
    [BEGIN]. *)
Definition write_all (fuel : nat) (rows : list Row) : M St unit :=
  match rows with
  | [] => throw "TypeError: Cannot convert undefined to object"
  | sample :: _ =>
      let columns := keys sample in
      do! for_batches backend fuel rows columns (batch_size config) 0 in
      when (transaction_enabled config) (await_query backend Commit)
  end.

(** The [try] block. *)
Definition attempt (fuel : nat) (rows : list Row) : M St unit :=
  do! when (truncate config) (await_query backend Truncate) in
  do! when (transaction_enabled config) (await_query backend Begin) in
  write_all fuel rows.

(** The [catch] block. *)
Definition recover (fuel : nat) (rows : list Row)
    (maxRetries_ retryCount : Z) (error : Error) : M St unit :=
  let! s := get in
  do! when (transaction_enabled config && client s)
        (await_query backend Rollback) in
  if retryCount <? maxRetries_ then
    executeInsert config backend fuel rows maxRetries_ (retryCount + 1)
  else throw error.

Lemma rs_executeInsert_eq fuel rows maxRetries_ retryCount :
  executeInsert config backend (Datatypes.S fuel) rows maxRetries_
    retryCount
  = try_catch (attempt fuel rows) (recover fuel rows maxRetries_ retryCount).
Proof. reflexivity. Qed.


(** An awaited statement is recorded, whether it resolves or rejects. *)
Lemma rs_await_query_eq q (s : St) :
  await_query backend q s =
  of_result (respond backend (events s) (Run q))
    {| pool := pool s; client := client s; events := events s ++ [Run q] |}.
Proof. reflexivity. Qed.







(** What the driver sends first in an attempt. *)
Definition opening : list Event :=
  if truncate config then [Run Truncate] else [].





(** ** A cluster that accepts everything *)

Definition accepting : Prop :=
  forall history ev, respond backend history ev = None.

(** The [INSERT] statement for one row: the values are read off the row by
    the column names of the first row of the call. *)
Definition row_statement (columns : list string) (row : Row) : Event :=
  Run (InsertRow columns (map (get_field row) columns)).

(** What is sent for a list of sub-batches. *)
Definition sent (columns : list string) (groups : list (list Row))
  : list Event :=
  concat (map (fun group => WriteGroup group
                            :: map (row_statement columns) group) groups).

Lemma rs_dispatch_accepting columns batch : forall s : St,
  accepting ->
  dispatch backend columns batch s =
  ({| pool := pool s; client := client s;
      events := events s ++ map (row_statement columns) batch |},
   Return (map (fun _ => None) batch)).
Proof.
  induction batch as [|row batch IH]; intros s Hacc; cbn [dispatch].
  - cbn. rewrite app_nil_r. destruct s; reflexivity.
  - unfold bind, query. rewrite Hacc, IH by assumption. cbn.
    rewrite <- app_assoc. reflexivity.
Qed.

Lemma rs_for_batches_accepting fuel : forall rows columns n i (s : St),
  accepting -> 0 < n -> 0 <= i ->
  (Z.to_nat (Z.of_nat (length rows) - i) + 1 <= fuel)%nat ->
  exists groups,
    for_batches backend fuel rows columns n i s =
    ({| pool := pool s; client := client s;
        events := events s ++ sent columns groups |}, Return tt) /\
    concat groups = drop (Z.to_nat i) rows.
Proof.
  induction fuel as [|fuel IH]; intros rows columns n i s Hacc Hn Hi Hfuel;
    [lia|].
  cbn [for_batches]. destruct (i <? _) eqn:Hlt.
  - unfold bind at 1. cbn [record_event modify].
    unfold bind at 1. rewrite rs_dispatch_accepting by assumption.
    unfold bind at 1, await_all.
    rewrite omap_id_resolved.
    2:{ apply Forall_forall. intros p Hin.
        apply list_elem_of_fmap in Hin as (row & -> & _). reflexivity. }
    cbn [ret].
    match goal with |- context [for_batches _ fuel _ _ _ _ ?x] =>
      destruct (IH rows columns n (i + n) x Hacc Hn ltac:(lia) ltac:(lia))
        as (groups & -> & Hcat) end.
    exists (slice rows i (i + n) :: groups). cbn [pool client events]. split.
    + unfold sent. cbn. rewrite <- !app_assoc. reflexivity.
    + cbn. rewrite Hcat. apply slice_then_rest; lia.
  - exists []. cbn. rewrite app_nil_r, drop_ge by lia. split; [|reflexivity].
    destruct s; reflexivity.
Qed.

(** What goes after the opening and after the rows in a transaction. *)
Definition prologue : list Event :=
  opening ++ (if transaction_enabled config then [Run Begin] else []).

Definition epilogue : list Event :=
  if transaction_enabled config then [Run Commit] else [].

Lemma rs_insert_accepting fuel first rest (s : St) :
  accepting -> client s = true -> pool s = true ->
  0 < batch_size config ->
  (length (first :: rest) + 2 <= fuel)%nat ->
  exists groups,
    concat groups = first :: rest /\
    insert config backend fuel (first :: rest) s =
    ({| pool := true; client := true;
        events := events s ++ prologue ++ sent (keys first) groups
                  ++ epilogue |}, Return tt).
Proof.
  intros Hacc Hc Hp Hn Hfuel.
  destruct s as [p c evs]. cbn in Hc, Hp. subst p c. cbn [events].
  destruct fuel as [|fuel]; [cbn in Hfuel; lia|].
  destruct (rs_for_batches_accepting fuel (first :: rest) (keys first)
              (batch_size config) 0
              {| pool := true; client := true; events := evs ++ prologue |}
              Hacc Hn ltac:(lia) ltac:(cbn [length] in *; lia))
    as (groups & Hfor & Hcat).
  exists groups. split; [exact Hcat|].
  unfold insert, bind at 1, get.
  cbn [negb orb length Nat.eqb pool client]. rewrite rs_executeInsert_eq.
  unfold try_catch, attempt, write_all, bind, when, prologue, epilogue,
    opening in *.
  cbn [pool client events] in Hfor.
  destruct (truncate config), (transaction_enabled config);
    rewrite ?rs_await_query_eq, ?Hacc; cbn [of_result ret events pool client];
    rewrite ?rs_await_query_eq, ?Hacc; cbn [of_result ret events pool client];
    cbn [app] in Hfor; rewrite ?app_nil_r in Hfor;
    rewrite <- ?app_assoc; cbn [app];
    rewrite Hfor; cbn [events pool client];
    rewrite ?rs_await_query_eq, ?Hacc; cbn [of_result ret events pool client];
    rewrite <- ?app_assoc; cbn [app]; rewrite ?app_nil_r; reflexivity.
Qed.

(** X21.  A whole session on a cluster that accepts every call, from any
    state: [connect()] makes a pool and takes a client from it (and
    creates the table when creation options are given); [insert(rows)]
    then sends [TRUNCATE] (when [truncate] is set), [BEGIN] (unless
    transactions are disabled), every row exactly once and in order, cut
    into sub-batches, and [COMMIT]; [close()] releases the client and
    ends the pool.  All three return normally, and nothing is rolled back
    or retried.  The values of every row are read by the column names of
    the first row. *)
Theorem X21_redshift_session_delivers_every_row
    (fuel : nat) (first : Row) (rest : list Row) (s : St) :
  accepting ->
  0 < batch_size config ->
  (length (first :: rest) + 2 <= fuel)%nat ->
  let r1 := connect config backend s in
  let r2 := insert config backend fuel (first :: rest) (fst r1) in
  let r3 := close backend (fst r2) in
  snd r1 = Return tt /\ snd r2 = Return tt /\ snd r3 = Return tt /\
  pool (fst r3) = false /\ client (fst r3) = false /\
  exists groups,
    concat groups = first :: rest /\
    events (fst r3) =
      events s
      ++ PoolConnect
         :: (if createTableOptions config then [Run CreateTable] else [])
      ++ prologue ++ sent (keys first) groups ++ epilogue
      ++ [Release; PoolEnd].
Proof.
  intros Hacc Hn Hfuel. cbv zeta.
  assert (connect config backend s =
          ({| pool := true; client := true;
              events := events s ++ PoolConnect
                        :: (if createTableOptions config
                            then [Run CreateTable] else []) |},
           Return tt)) as ->.
  { unfold connect, createTable, try_catch, bind, get, when, modify,
      await_call, await_query, query, bind, of_result, set_pool, set_client.
    cbn. rewrite Hacc. cbn.
    destruct (createTableOptions config); cbn; rewrite ?Hacc; cbn;
      rewrite <- ?app_assoc; reflexivity. }
  cbn [fst snd].
  match goal with |- context [insert _ _ fuel _ ?x] =>
    destruct (rs_insert_accepting fuel first rest x Hacc eq_refl eq_refl Hn
                Hfuel) as (groups & Hcat & ->) end.
  cbn [fst snd events].
  match goal with |- context [close _ ?x] =>
    assert (close backend x =
            ({| pool := false; client := false;
                events := events x ++ [Release; PoolEnd] |}, Return tt))
      as -> end.
  { unfold close, try_catch, bind, get, when, modify, await_call, of_result,
      set_pool, set_client.
    cbn. rewrite Hacc. cbn. rewrite Hacc. cbn. rewrite <- !app_assoc.
    reflexivity. }
  cbn [fst snd pool client events].
  split; [reflexivity|]. split; [reflexivity|]. split; [reflexivity|].
  split; [reflexivity|]. split; [reflexivity|].
  exists groups. split; [exact Hcat|].
  rewrite <- !app_assoc. cbn [app]. rewrite <- ?app_assoc. reflexivity.
Qed.

End Facts.
End RedshiftFacts.

(** ** The Redshift scenarios *)

Module RedshiftScenarios.
Import Redshift RedshiftFacts Scenarios MoreScenarios.

Lemma X21_five_rows_witness :
  let r1 := connect redshift_config redshift_accepting new_driver in
  let r2 := insert redshift_config redshift_accepting 20
              (id_row 1 :: [id_row 2; id_row 3; id_row 4; id_row 5])
              (fst r1) in
  let r3 := close redshift_accepting (fst r2) in
  snd r1 = Return tt /\ snd r2 = Return tt /\ snd r3 = Return tt /\
  pool (fst r3) = false /\ client (fst r3) = false /\
  exists groups,
    concat groups = id_row 1 :: [id_row 2; id_row 3; id_row 4; id_row 5] /\
    events (fst r3) =
      events new_driver
      ++ PoolConnect
         :: (if createTableOptions redshift_config
             then [Run CreateTable] else [])
      ++ prologue redshift_config ++ sent (keys (id_row 1)) groups
      ++ epilogue redshift_config ++ [Release; PoolEnd].
Proof.
  apply (X21_redshift_session_delivers_every_row redshift_config
           redshift_accepting 20 (id_row 1)
           [id_row 2; id_row 3; id_row 4; id_row 5] new_driver).
  - intros history ev. reflexivity.
  - reflexivity.
  - cbn. lia.
Defined.

(** With [truncate: true] and the default of three retries, on a cluster
    where every [INSERT] fails: [connect()] gives a connected driver, and
    one [insert()] of two rows truncates the table four times, each time
    before the [BEGIN] of the attempt, and rolls back four times. *)
Example redshift_truncates_four_times :
  let s := fst (connect redshift_config redshift_insert_fails new_driver) in
  let r := insert redshift_config redshift_insert_fails 20
             [id_row 1; id_row 2] s in
  client s = true /\ pool s = true /\
  snd r = Throw "Failed to insert data into Redshift: write failed" /\
  count_run Truncate (events (fst r)) = 4%nat /\
  count_run Begin (events (fst r)) = 4%nat /\
  count_run Rollback (events (fst r)) = 4%nat /\
  firstn 4 (events (fst r)) =
    [PoolConnect; Run Truncate; Run Begin;
     WriteGroup [id_row 1; id_row 2]].
Proof. vm_compute. repeat split; reflexivity. Qed.

End RedshiftScenarios.

(* ===================================================================== *)
(** * Closing the source drivers: what is kept and what is released *)
(* ===================================================================== *)

Module SourceCloseFacts.
Import Paginator SourceClose.

(** The driver's hold on the outside world is all that changes. *)
Definition same_data (s s' : St) : Prop :=
  heap s' = heap s /\ executions s' = executions s /\ yields s' = yields s.

Section Facts.
Variable closes : Call -> option Error.

Lemma mysql_close_cases (s : St) :
  mysql_close closes s =
  if connection s then
    match closes ConnectionEnd with
    | Some e => (s, Throw e)
    | None =>
        ({| heap := heap s; pool := pool s; connection := false;
            executions := executions s; yields := yields s |}, Return tt)
    end
  else (s, Return tt).
Proof.
  unfold mysql_close, bind, get, when, set_connection, modify.
  destruct (connection s); [|reflexivity].
  destruct (closes ConnectionEnd); reflexivity.
Qed.

Lemma postgres_close_cases (s : St) :
  postgres_close closes s =
  ({| heap := heap s; pool := pool s; connection := false;
      executions := executions s; yields := yields s |}, Return tt).
Proof.
  unfold postgres_close, bind, get, when, try_finally, try_catch,
    set_connection, modify.
  destruct s as [h p [|] ex ys]; cbn;
    destruct (closes ClientRelease), (closes PoolEnd); reflexivity.
Qed.

Lemma oracle_close_cases (s : St) :
  oracle_close closes s =
  match (if connection s then closes ConnectionClose else None) with
  | Some e => (s, Throw e)
  | None =>
      let s1 := {| heap := heap s; pool := pool s; connection := false;
                   executions := executions s; yields := yields s |} in
      match (if pool s then closes PoolClose else None) with
      | Some e => (s1, Throw e)
      | None =>
          ({| heap := heap s; pool := false; connection := false;
              executions := executions s; yields := yields s |},
           Return tt)
      end
  end.
Proof.
  unfold oracle_close, bind, get, when, set_connection, modify.
  destruct s as [h [|] [|] ex ys]; cbn;
    destruct (closes ConnectionClose), (closes PoolClose); reflexivity.
Qed.

End Facts.

(** X30.  Closing a source.  The Postgres driver swallows every failure:
    its [close()] always returns and always forgets the client.  The
    MySQL and Oracle drivers throw the rejection of the library as it
    is, and keep the handle whose release was rejected - Oracle then
    keeps its pool as well, which it does not try to close; once their
    [close()] has returned, they hold no connection.  The Firestore
    driver clears [db] and forgets its last
    snapshot unless [terminate()] is rejected, and then changes nothing.
    None of them touches the parameters, the queries sent or the batches
    yielded. *)
Theorem X30_closing_a_source
    (closes : Call -> option Error) (s : St) (fs : FsSt) :
  (snd (postgres_close closes s) = Return tt /\
   connection (fst (postgres_close closes s)) = false) /\
  (forall e, connection s = true -> closes ConnectionEnd = Some e ->
             mysql_close closes s = (s, Throw e)) /\
  (forall e, connection s = true -> closes ConnectionClose = Some e ->
             oracle_close closes s = (s, Throw e)) /\
  (snd (mysql_close closes s) = Return tt ->
   connection (fst (mysql_close closes s)) = false) /\
  (snd (oracle_close closes s) = Return tt ->
   connection (fst (oracle_close closes s)) = false /\
   pool (fst (oracle_close closes s)) = false) /\
  (same_data s (fst (mysql_close closes s)) /\
   same_data s (fst (postgres_close closes s)) /\
   same_data s (fst (oracle_close closes s))) /\
  (let r := firestore_close closes fs in
   gets (fst r) = gets fs /\ fs_yields (fst r) = fs_yields fs /\
   match snd r with
   | Return _ => db (fst r) = false /\ lastDocumentSnapshot (fst r) = None
   | Throw e => closes Terminate = Some e /\ fst r = fs /\ db fs = true
   | Hang => False
   end).
Proof.
  rewrite postgres_close_cases, mysql_close_cases, oracle_close_cases.
  split; [split; reflexivity|].
  split; [intros e -> ->; reflexivity|].
  split; [intros e -> ->; reflexivity|].
  split.
  { destruct (connection s) eqn:Hc; [|intros _; exact Hc].
    destruct (closes ConnectionEnd); [discriminate | reflexivity]. }
  split.
  { destruct (if connection s then _ else _); [discriminate|]. cbv zeta.
    destruct (if pool s then _ else _); [discriminate|]. auto. }
  split.
  { unfold same_data. repeat split;
      try (destruct (connection s); [destruct (closes ConnectionEnd)|];
           reflexivity);
      destruct (if connection s then _ else _); try reflexivity; cbv zeta;
      destruct (if pool s then _ else _); reflexivity. }
  cbv zeta. unfold firestore_close, bind, get, when, modify.
  destruct fs as [[|] snap gs ys]; cbn.
  - destruct (closes Terminate); cbn; auto.
  - auto.
Qed.

End SourceCloseFacts.
